(** * A shallow embedding of the stimulus-autocomplete controller

    Two builds of the controller are modelled: [Plain]
    (src/src/autocomplete.js, which fetches directly) and [Cached]
    (the controller in src/unnamed/part_000, which goes through the
    [AutocompleteCache] class).  JavaScript strings are sequences of
    UTF-16 code units, modelled as [list Z]. *)

From Stdlib Require Import String Ascii.
From Stdlib Require Import ZArith List Bool Lia Permutation.
From Stdlib Require DecimalNat.
Import ListNotations.
Open Scope Z_scope.

(** ** Strings *)

Definition str := list Z.

(** ASCII literals, for readability of concrete inputs. *)
Definition lit (s : String.string) : str :=
  map (fun c => Z.of_nat (Ascii.nat_of_ascii c)) (String.list_ascii_of_string s).

Fixpoint str_eqb (a b : str) : bool :=
  match a, b with
  | [], [] => true
  | x :: a', y :: b' => (x =? y) && str_eqb a' b'
  | _, _ => false
  end.

Definition js_length (s : str) : Z := Z.of_nat (length s).

(** [String.prototype.startsWith] with a prefix test. *)
Fixpoint starts_with (s p : str) : bool :=
  match p, s with
  | [], _ => true
  | x :: p', y :: s' => (x =? y) && starts_with s' p'
  | _ :: _, [] => false
  end.

(** [String.prototype.indexOf(needle)]: the first position at which
    [needle] occurs, or -1. *)
Fixpoint index_of_from (h n : str) (i : Z) : Z :=
  if starts_with h n then i
  else match h with
       | [] => -1
       | _ :: h' => index_of_from h' n (i + 1)
       end.

Definition index_of (h n : str) : Z := index_of_from h n 0.

(** [String.prototype.slice(a, b)], with the clamping of negative and
    oversized indices. *)
Definition rel_index (len i : Z) : Z :=
  if i <? 0 then Z.max 0 (len + i) else Z.min i len.

Definition js_slice (s : str) (a b : Z) : str :=
  let len := js_length s in
  let f := rel_index len a in
  let t := rel_index len b in
  firstn (Z.to_nat (t - f)) (skipn (Z.to_nat f) s).

Definition js_slice_from (s : str) (a : Z) : str := js_slice s a (js_length s).

(** [String.prototype.toLowerCase], per code unit, on the code units
    below U+0100 (ASCII and Latin-1) and on U+0130 (LATIN CAPITAL LETTER
    I WITH DOT ABOVE), whose full lowercase mapping is the two code units
    U+0069 U+0307.  Other code units are left as they are. *)
Definition lower_unit (c : Z) : list Z :=
  if (65 <=? c) && (c <=? 90) then [c + 32]
  else if (192 <=? c) && (c <=? 222) && negb (c =? 215) then [c + 32]
  else if c =? 304 then [105; 775]
  else [c].

Definition js_to_lower (s : str) : str := flat_map lower_unit s.

(** [String.prototype.trim]: strips WhiteSpace and LineTerminator code
    units at both ends. *)
Definition is_js_space (c : Z) : bool :=
  ((9 <=? c) && (c <=? 13)) || (c =? 32) || (c =? 160) || (c =? 5760)
  || ((8192 <=? c) && (c <=? 8202)) || (c =? 8232) || (c =? 8233)
  || (c =? 8239) || (c =? 8287) || (c =? 12288) || (c =? 65279).

Fixpoint drop_space (s : str) : str :=
  match s with
  | c :: s' => if is_js_space c then drop_space s' else s
  | [] => []
  end.

Definition js_trim (s : str) : str := rev (drop_space (rev (drop_space s))).

(** Decimal rendering of a counter, as in a template literal. *)
Fixpoint uint_digits (u : Decimal.uint) : str :=
  match u with
  | Decimal.Nil => []
  | Decimal.D0 u' => 48 :: uint_digits u'
  | Decimal.D1 u' => 49 :: uint_digits u'
  | Decimal.D2 u' => 50 :: uint_digits u'
  | Decimal.D3 u' => 51 :: uint_digits u'
  | Decimal.D4 u' => 52 :: uint_digits u'
  | Decimal.D5 u' => 53 :: uint_digits u'
  | Decimal.D6 u' => 54 :: uint_digits u'
  | Decimal.D7 u' => 55 :: uint_digits u'
  | Decimal.D8 u' => 56 :: uint_digits u'
  | Decimal.D9 u' => 57 :: uint_digits u'
  end.

Definition nat_to_str (n : nat) : str := uint_digits (Nat.to_uint n).

(** ** The response payload *)

(** The JSON response [{items, exact_items, field, raw_term, term,
    partial}]. *)
Record payload := mk_payload {
  items : list str;
  exact_items : list str;
  field : str;
  raw_term : str;
  term : str;
  partial : bool
}.

(** [getUniqueItemList] (identical in both builds). *)
Definition get_unique_item_list (json_response : payload) : list str :=
  let exact := exact_items json_response in
  let partial_items :=
    filter (fun item => negb (existsb (str_eqb item) exact)) (items json_response) in
  exact ++ partial_items.

(** ** The [AutocompleteCache] class (part_000) *)

(** [this.cache] is a plain object.  [c_own] lists its own properties in
    insertion order (an existing key is overwritten in place);
    [c_proto] is [None] while its prototype is [Object.prototype], and
    [Some d] once [cache["__proto__"] = d] has replaced the prototype
    by the payload [d]. *)
Record cache := mk_cache {
  c_own : list (str * payload);
  c_proto : option payload
}.

Definition empty_cache : cache := mk_cache [] None.

Definition object_prototype_names : list str :=
  map lit ["constructor"; "__defineGetter__"; "__defineSetter__";
           "hasOwnProperty"; "__lookupGetter__"; "__lookupSetter__";
           "isPrototypeOf"; "propertyIsEnumerable"; "toString"; "valueOf";
           "__proto__"; "toLocaleString"]%string.

Fixpoint own_lookup (own : list (str * payload)) (k : str) : option payload :=
  match own with
  | [] => None
  | (k', p) :: own' => if str_eqb k k' then Some p else own_lookup own' k
  end.

(** A property found on the prototype chain: [Some b] where [b] is its
    truthiness.  All [Object.prototype] members are functions or
    objects; a payload used as prototype contributes its six fields. *)
Definition proto_get (c : cache) (k : str) : option bool :=
  let from_object := if existsb (str_eqb k) object_prototype_names
                     then Some true else None in
  match c_proto c with
  | None => from_object
  | Some d =>
      if str_eqb k (lit "items") then Some true
      else if str_eqb k (lit "exact_items") then Some true
      else if str_eqb k (lit "field") then Some (negb (str_eqb (field d) []))
      else if str_eqb k (lit "raw_term") then Some (negb (str_eqb (raw_term d) []))
      else if str_eqb k (lit "term") then Some (negb (str_eqb (term d) []))
      else if str_eqb k (lit "partial") then Some (partial d)
      else from_object
  end.

(** The value of [this.cache[k]]. *)
Inductive getv := GOwn (p : payload) | GInherited (truthy : bool) | GUndefined.

Definition cache_get (c : cache) (k : str) : getv :=
  match own_lookup (c_own c) k with
  | Some p => GOwn p
  | None => match proto_get c k with
            | Some b => GInherited b
            | None => GUndefined
            end
  end.

(** [Object.keys]: own keys that are array indices (canonical decimal
    numbers below 2^32 - 1) first, in ascending numeric order, then the
    other keys in insertion order. *)
Definition is_digit (c : Z) : bool := (48 <=? c) && (c <=? 57).

Definition digits_value (s : str) : Z :=
  fold_left (fun acc c => acc * 10 + (c - 48)) s 0.

Definition is_array_index (k : str) : bool :=
  match k with
  | [] => false
  | d :: rest =>
      forallb is_digit k
      && (negb (d =? 48) || match rest with [] => true | _ => false end)
      && (digits_value k <? 4294967295)
  end.

Fixpoint insert_by_value (k : str) (ks : list str) : list str :=
  match ks with
  | [] => [k]
  | k' :: ks' => if digits_value k <=? digits_value k' then k :: ks
                 else k' :: insert_by_value k ks'
  end.

Definition object_keys (c : cache) : list str :=
  let ks := map fst (c_own c) in
  fold_right insert_by_value [] (filter is_array_index ks)
  ++ filter (fun k => negb (is_array_index k)) ks.

(** The value [findInCache] returns: a cached payload, or a truthy
    value inherited through the prototype chain. *)
Inductive cval := CEntry (p : payload) | CForeign.

(** The [for (var k of Object.keys(this.cache))] scan. *)
Fixpoint scan_keys (c : cache) (query : str) (ks : list str) : option cval :=
  match ks with
  | [] => None
  | k :: ks' =>
      match own_lookup (c_own c) k with
      | Some e => if negb (partial e) && starts_with query k
                  then Some (CEntry e) else scan_keys c query ks'
      | None => scan_keys c query ks'
      end
  end.

(** [AutocompleteCache.findInCache]. *)
Definition find_in_cache (c : cache) (query0 : str) : option cval :=
  let query := js_to_lower query0 in
  match cache_get c query with
  | GOwn p => Some (CEntry p)
  | GInherited true => Some CForeign
  | _ => scan_keys c query (object_keys c)
  end.

(** [AutocompleteCache.addToCache]: assignment to an own property, or
    to the prototype for the key ["__proto__"]. *)
Fixpoint assign_own (own : list (str * payload)) (k : str) (p : payload) :=
  match own with
  | [] => [(k, p)]
  | (k', p') :: own' => if str_eqb k k' then (k', p) :: own'
                        else (k', p') :: assign_own own' k p
  end.

Definition add_to_cache (c : cache) (query : str) (data : payload) : cache :=
  let k := js_to_lower query in
  if str_eqb k (lit "__proto__") then mk_cache (c_own c) (Some data)
  else mk_cache (assign_own (c_own c) k data) (c_proto c).

(** What [AutocompleteCache.fetch] does first: resolve from the cache
    ([Promise.resolve(cached)]) or go to [performFetch]. *)
Inductive fetch_route := FromCache (v : cval) | Network (query : str).

Definition cache_fetch (c : cache) (query : str) : fetch_route :=
  match find_in_cache c query with
  | Some v => FromCache v
  | None => Network query
  end.

(** ** The results list *)

Inductive node := Text (t : str) | Em (t : str).

(** An element child of [resultsTarget]; [eid] is its identity as a DOM
    node. *)
Record elem := mk_elem {
  eid : nat;
  role_option : bool;    (* role="option" *)
  aria_disabled : bool;  (* an aria-disabled attribute is present *)
  aria_selected : bool;  (* aria-selected="true" *)
  classes : list str;    (* classList *)
  value : option str;    (* dataset.autocompleteValue *)
  dom_id : option str;   (* the id attribute *)
  body : list node       (* child nodes *)
}.

Definition set_body (b : list node) (e : elem) : elem :=
  mk_elem (eid e) (role_option e) (aria_disabled e) (aria_selected e)
          (classes e) (value e) (dom_id e) b.
Definition set_selected (s : bool) (e : elem) : elem :=
  mk_elem (eid e) (role_option e) (aria_disabled e) s
          (classes e) (value e) (dom_id e) (body e).
Definition set_classes (cs : list str) (e : elem) : elem :=
  mk_elem (eid e) (role_option e) (aria_disabled e) (aria_selected e)
          cs (value e) (dom_id e) (body e).
Definition set_dom_id (i : str) (e : elem) : elem :=
  mk_elem (eid e) (role_option e) (aria_disabled e) (aria_selected e)
          (classes e) (value e) (Some i) (body e).

Definition has_class (c : str) (e : elem) : bool := existsb (str_eqb c) (classes e).

(** [classList.add(...cs)] and [classList.remove(...cs)]. *)
Definition add_classes (cs : list str) (e : elem) : elem :=
  set_classes (fold_left (fun acc c => if existsb (str_eqb c) acc then acc
                                       else acc ++ [c]) cs (classes e)) e.
Definition remove_classes (cs : list str) (e : elem) : elem :=
  set_classes (filter (fun c => negb (existsb (str_eqb c) cs)) (classes e)) e.

(** [optionSelector]: [[role='option']:not([aria-disabled])]. *)
Definition is_option (e : elem) : bool := role_option e && negb (aria_disabled e).

(** The node with identity [id] updated by [f]. *)
Fixpoint upd_first (id : nat) (f : elem -> elem) (cs : list elem) : list elem :=
  match cs with
  | [] => []
  | e :: cs' => if Nat.eqb (eid e) id then f e :: cs' else e :: upd_first id f cs'
  end.

Definition lookup_elem (id : nat) (cs : list elem) : option elem :=
  find (fun e => Nat.eqb (eid e) id) cs.

(** [removeChild(node)]. *)
Fixpoint remove_node (id : nat) (cs : list elem) : list elem :=
  match cs with
  | [] => []
  | e :: cs' => if Nat.eqb (eid e) id then cs' else e :: remove_node id cs'
  end.

(** [insertBefore(li, last_li.nextSibling)]: [li] right after [last_li]. *)
Fixpoint insert_after_node (id : nat) (li : elem) (cs : list elem) : list elem :=
  match cs with
  | [] => [li]
  | e :: cs' => if Nat.eqb (eid e) id then e :: li :: cs'
                else e :: insert_after_node id li cs'
  end.

(** The insertion of a new option in [updateResults]: after [last_li],
    or before [resultsTarget.firstChild] when there is none. *)
Definition insert_li (last_li : option nat) (li : elem) (cs : list elem) : list elem :=
  match last_li with
  | Some id => insert_after_node id li cs
  | None => li :: cs
  end.

Inductive version := Plain | Cached.

(** Values read from the DOM at connect time. *)
Record config := mk_config {
  build : version;
  has_url : bool;               (* hasUrlValue *)
  min_length : Z;               (* minLengthValue, 0 when unset *)
  selected_classes : list str;  (* selectedClassesOrDefault *)
  results_id : str              (* resultsTarget.id, empty when absent *)
}.

Inductive event := EvLoadstart | EvLoad | EvError | EvLoadend | EvToggle (opened : bool).

(** The reasons a [fetchResults] promise rejects. *)
Inductive err :=
| ErrServerStatus (status : Z)  (* Error(`Server responded with status ${status}`) *)
| ErrStatusText (status : Z)    (* Error(response.statusText) *)
| ErrTransport                  (* fetch rejected: network failure *)
| ErrAbort                      (* fetch or body read aborted *)
| ErrJson                       (* response.json() rejected *)
| ErrType.                      (* TypeError on a non-payload cache hit *)

Inductive outcome := Resolved | Rejected (e : err).

(** Where a [fetchResults] call is suspended. *)
Inductive phase := PhFetch | PhBody | PhDone (o : outcome).

Record req := mk_req { r_id : nat; r_query : str; r_phase : phase }.

(** The controller instance. *)
Record widget := mk_widget {
  children : list elem  (* the element children of [resultsTarget], in document order *);
  next_eid : nat  (* identity of the next element [document.createElement] returns *);
  item_count : nat  (* [this.item_count] *);
  results_shown : bool  (* [!this.resultsTarget.hidden] *);
  active_desc : option str  (* [aria-activedescendant] of [inputTarget] *);
  expanded : option bool  (* [aria-expanded] of [this.element] *);
  uniq_option_id : nat  (* [Autocomplete.uniqOptionId] *);
  events : list event  (* custom events dispatched on [this.element], oldest first *);
  input_value : str  (* [inputTarget.value] *);
  abort_ctrl : option nat  (* the request [this.abortController] aborts, if any *);
  requests : list req  (* pending and settled [fetchResults] calls, newest first *);
  next_req : nat  (* number of network requests issued so far *);
  wcache : cache  (* [this.autocomplete_cache.cache] (Cached build) *)
}.

Definition set_children (x : list elem) (w : widget) : widget :=
  mk_widget x (next_eid w) (item_count w) (results_shown w) (active_desc w) (expanded w) (uniq_option_id w) (events w) (input_value w) (abort_ctrl w) (requests w) (next_req w) (wcache w).
Definition set_next_eid (x : nat) (w : widget) : widget :=
  mk_widget (children w) x (item_count w) (results_shown w) (active_desc w) (expanded w) (uniq_option_id w) (events w) (input_value w) (abort_ctrl w) (requests w) (next_req w) (wcache w).
Definition set_item_count (x : nat) (w : widget) : widget :=
  mk_widget (children w) (next_eid w) x (results_shown w) (active_desc w) (expanded w) (uniq_option_id w) (events w) (input_value w) (abort_ctrl w) (requests w) (next_req w) (wcache w).
Definition set_results_shown (x : bool) (w : widget) : widget :=
  mk_widget (children w) (next_eid w) (item_count w) x (active_desc w) (expanded w) (uniq_option_id w) (events w) (input_value w) (abort_ctrl w) (requests w) (next_req w) (wcache w).
Definition set_active_desc (x : option str) (w : widget) : widget :=
  mk_widget (children w) (next_eid w) (item_count w) (results_shown w) x (expanded w) (uniq_option_id w) (events w) (input_value w) (abort_ctrl w) (requests w) (next_req w) (wcache w).
Definition set_expanded (x : option bool) (w : widget) : widget :=
  mk_widget (children w) (next_eid w) (item_count w) (results_shown w) (active_desc w) x (uniq_option_id w) (events w) (input_value w) (abort_ctrl w) (requests w) (next_req w) (wcache w).
Definition set_uniq_option_id (x : nat) (w : widget) : widget :=
  mk_widget (children w) (next_eid w) (item_count w) (results_shown w) (active_desc w) (expanded w) x (events w) (input_value w) (abort_ctrl w) (requests w) (next_req w) (wcache w).
Definition set_events (x : list event) (w : widget) : widget :=
  mk_widget (children w) (next_eid w) (item_count w) (results_shown w) (active_desc w) (expanded w) (uniq_option_id w) x (input_value w) (abort_ctrl w) (requests w) (next_req w) (wcache w).
Definition set_input_value (x : str) (w : widget) : widget :=
  mk_widget (children w) (next_eid w) (item_count w) (results_shown w) (active_desc w) (expanded w) (uniq_option_id w) (events w) x (abort_ctrl w) (requests w) (next_req w) (wcache w).
Definition set_abort_ctrl (x : option nat) (w : widget) : widget :=
  mk_widget (children w) (next_eid w) (item_count w) (results_shown w) (active_desc w) (expanded w) (uniq_option_id w) (events w) (input_value w) x (requests w) (next_req w) (wcache w).
Definition set_requests (x : list req) (w : widget) : widget :=
  mk_widget (children w) (next_eid w) (item_count w) (results_shown w) (active_desc w) (expanded w) (uniq_option_id w) (events w) (input_value w) (abort_ctrl w) x (next_req w) (wcache w).
Definition set_next_req (x : nat) (w : widget) : widget :=
  mk_widget (children w) (next_eid w) (item_count w) (results_shown w) (active_desc w) (expanded w) (uniq_option_id w) (events w) (input_value w) (abort_ctrl w) (requests w) x (wcache w).
Definition set_wcache (x : cache) (w : widget) : widget :=
  mk_widget (children w) (next_eid w) (item_count w) (results_shown w) (active_desc w) (expanded w) (uniq_option_id w) (events w) (input_value w) (abort_ctrl w) (requests w) (next_req w) x.

Definition add_event (ev : event) (w : widget) : widget :=
  set_events (events w ++ [ev]) w.

(** [get options]. *)
Definition options (w : widget) : list elem := filter is_option (children w).

(** [get selectedOption]: [querySelector("[aria-selected='true']")]. *)
Definition selected_option (w : widget) : option elem := find aria_selected (children w).

(** JavaScript values, for truthiness tests. *)
Inductive jsval := JUndefined | JNull | JBool (b : bool) | JNumber (n : Z)
                 | JString (s : str) | JObject.

Definition truthy (v : jsval) : bool :=
  match v with
  | JUndefined | JNull => false
  | JBool b => b
  | JNumber n => negb (n =? 0)
  | JString s => negb (str_eqb s [])
  | JObject => true
  end.

(** The value [Array.from(...)] returns: an Array object. *)
Definition array_value {A} (l : list A) : jsval := JObject.

(** ** [open], [close] and [hideAndRemoveOptions] *)

Definition open_results (w : widget) : widget :=
  if results_shown w then w
  else add_event (EvToggle true) (set_expanded (Some true) (set_results_shown true w)).

Definition close_results (w : widget) : widget :=
  if negb (results_shown w) then w
  else add_event (EvToggle false)
         (set_expanded (Some false) (set_active_desc None (set_results_shown false w))).

(** Plain: [innerHTML = null]; Cached: [clearOptions()].  Both leave
    [resultsTarget] without children. *)
Definition hide_and_remove_options (w : widget) : widget :=
  set_children [] (close_results w).

(** ** The render pass: [updateResults] *)

(** The three child nodes of a rendered item: the text before the match,
    the matched text inside [<em>], the text after it; [None] when
    [indexOf] finds no match and the item is dropped. *)
Definition highlight (item query : str) : option (list node) :=
  let lower_query := js_to_lower query in
  let pos := index_of (js_to_lower item) lower_query in
  if pos >=? 0 then
    Some [Text (js_slice item 0 pos);
          Em (js_slice item pos (pos + js_length query));
          Text (js_slice_from item (pos + js_length query))]
  else None.

Definition new_option (id : nat) (item : str) (parts : list node) : elem :=
  mk_elem id true false false [lit "list-group-item"] (Some item) None parts.

Definition value_is (item : str) (li : elem) : bool :=
  match value li with Some v => str_eqb v item | None => false end.

(** The [for (var item of items)] loop; returns the children, the next
    element identity, [item_count] and [shown_items]. *)
Fixpoint ur_loop (existing : list elem) (query : str) (its : list str)
    (last_li : option nat) (cs : list elem) (next : nat) (count : nat)
    (shown : list str) : list elem * nat * nat * list str :=
  match its with
  | [] => (cs, next, count, shown)
  | item :: rest =>
      match highlight item query with
      | None => ur_loop existing query rest last_li cs next count shown
      | Some parts =>
          match find (value_is item) existing with
          | Some li =>
              ur_loop existing query rest (Some (eid li))
                      (upd_first (eid li) (set_body parts) cs)
                      next (S count) (shown ++ [item])
          | None =>
              ur_loop existing query rest (Some next)
                      (insert_li last_li (new_option next item parts) cs)
                      (S next) (S count) (shown ++ [item])
          end
      end
  end.

(** [shown_items.includes(li.dataset.autocompleteValue)]. *)
Definition value_shown (shown : list str) (li : elem) : bool :=
  match value li with Some v => existsb (str_eqb v) shown | None => false end.

(** The removal loop over [existing_lis]. *)
Definition remove_unshown (existing : list elem) (shown : list str)
    (cs : list elem) : list elem :=
  fold_left (fun cs li => if value_shown shown li then cs else remove_node (eid li) cs)
            existing cs.

Definition sorry_text (query : str) : str :=
  lit "No results found for " ++ [34] ++ query ++ [34].

Definition sorry_elem (id : nat) (query : str) : elem :=
  mk_elem id false true false
          [lit "list-group-item"; lit "disabled"; lit "sorry-message"]
          None None [Text (sorry_text query)].

(** The selector of [hideSorryMessage]: Plain
    ["li.disabled.sorry-message"], Cached ["li.sorry-message"]. *)
Definition is_sorry (v : version) (e : elem) : bool :=
  match v with
  | Plain => has_class (lit "disabled") e && has_class (lit "sorry-message") e
  | Cached => has_class (lit "sorry-message") e
  end.

Definition hide_sorry (v : version) (w : widget) : widget :=
  match find (is_sorry v) (children w) with
  | Some li => set_children (remove_node (eid li) (children w)) w
  | None => w
  end.

(** [showSorryMessage]; the Cached build first calls [hideSorryMessage].
    ([setHeight] only writes the container's style height from layout
    measurements and is left out.) *)
Definition show_sorry (v : version) (query : str) (w : widget) : widget :=
  let w0 := match v with Plain => w | Cached => hide_sorry v w end in
  set_next_eid (S (next_eid w0))
    (set_children (children w0 ++ [sorry_elem (next_eid w0) query]) w0).

Definition update_results (v : version) (its : list str) (query : str)
    (w : widget) : widget :=
  let existing := options w in
  let '(cs, next, count, shown) :=
    ur_loop existing query its None (children w) (next_eid w) 0%nat [] in
  let w1 := set_item_count count
              (set_next_eid next (set_children (remove_unshown existing shown cs) w)) in
  if Nat.eqb count 0 then show_sorry v query w1 else hide_sorry v w1.

(** [identifyOptions]. *)
Fixpoint identify (prefix : str) (cs : list elem) (n : nat) : list elem * nat :=
  match cs with
  | [] => ([], n)
  | e :: cs' =>
      match is_option e, dom_id e with
      | true, None =>
          let '(cs'', n') := identify prefix cs' (S n) in
          (set_dom_id (prefix ++ lit "-option-" ++ nat_to_str n) e :: cs'', n')
      | _, _ =>
          let '(cs'', n') := identify prefix cs' n in (e :: cs'', n')
      end
  end.

Definition identify_options (cfg : config) (w : widget) : widget :=
  let prefix := if str_eqb (results_id cfg) [] then lit "stimulus-autocomplete"
                else results_id cfg in
  let '(cs, n) := identify prefix (children w) (uniq_option_id w) in
  set_uniq_option_id n (set_children cs w).

(** [replaceResults] ([setHeight] left out). *)
Definition replace_results (cfg : config) (json_response : payload) (query : str)
    (w : widget) : widget :=
  let all_items := get_unique_item_list json_response in
  let w1 := update_results (build cfg) all_items query w in
  let w2 := identify_options cfg w1 in
  if truthy (array_value (options w2)) then open_results w2 else close_results w2.

(** ** Selection and arrow keys *)

(** [select(target)] ([scrollIntoView] left out). *)
Definition unselect_previous (sel : list str) (w : widget) : widget :=
  match selected_option w with
  | Some prev =>
      set_children (upd_first (eid prev)
                      (fun e => set_selected false (remove_classes sel e))
                      (children w)) w
  | None => w
  end.

Definition select (cfg : config) (target : elem) (w : widget) : widget :=
  let sel := selected_classes cfg in
  let w1 := unselect_previous sel w in
  let t := match lookup_elem (eid target) (children w1) with
           | Some t => t | None => target end in
  if Nat.ltb 0 (item_count w1) && negb (has_class (lit "disabled") t) then
    set_active_desc (Some (match dom_id t with Some i => i | None => [] end))
      (set_children (upd_first (eid t) (fun e => set_selected true (add_classes sel e))
                               (children w1)) w1)
  else w1.

(** [options.indexOf(selected)], by node identity; -1 for [null]. *)
Fixpoint index_of_elem (l : list elem) (x : option elem) : Z :=
  match x with
  | None => -1
  | Some y =>
      match l with
      | [] => -1
      | e :: l' => if Nat.eqb (eid e) (eid y) then 0
                   else let i := index_of_elem l' x in if i <? 0 then -1 else i + 1
      end
  end.

(** [options[i]]: [undefined] for a negative or too large index. *)
Definition js_at {A} (l : list A) (i : Z) : option A :=
  if i <? 0 then None else nth_error l (Z.to_nat i).

Definition sibling (next : bool) (w : widget) : option elem :=
  let opts := options w in
  let index := index_of_elem opts (selected_option w) in
  let sib := if next then js_at opts (index + 1) else js_at opts (index - 1) in
  let def := if next then js_at opts 0 else js_at opts (Z.of_nat (length opts) - 1) in
  match sib with Some e => Some e | None => def end.

Definition arrow_down (cfg : config) (w : widget) : widget :=
  match sibling true w with Some item => select cfg item w | None => w end.

Definition arrow_up (cfg : config) (w : widget) : widget :=
  match sibling false w with Some item => select cfg item w | None => w end.

(** [onEscapeKeydown]. *)
Definition escape (w : widget) : widget :=
  if negb (results_shown w) then w else hide_and_remove_options w.

(** ** The fetch cycle

    The environment delivers the events below one at a time; each step
    runs the handler and the promise continuations it makes ready before
    the next task, so a step is atomic with respect to the others. *)
Inductive net_event :=
| Input (v : str)                  (* the debounced onInputChange fires; inputTarget.value = v *)
| NetHeaders (r : nat) (status : Z)  (* fetch() of request r resolves with a response *)
| NetFail (r : nat)                (* fetch() of request r rejects: network failure *)
| NetBody (r : nat) (json : option payload). (* response.json() of request r settles *)

Definition lookup_req (r : nat) (rs : list req) : option req :=
  find (fun x => Nat.eqb (r_id x) r) rs.

Fixpoint update_req (r : nat) (ph : phase) (rs : list req) : list req :=
  match rs with
  | [] => []
  | x :: rs' => if Nat.eqb (r_id x) r then mk_req (r_id x) (r_query x) ph :: rs'
                else x :: update_req r ph rs'
  end.

Definition set_phase (r : nat) (ph : phase) (w : widget) : widget :=
  set_requests (update_req r ph (requests w)) w.

(** The [catch] of [fetchResults]: [error], [loadend], rethrow. *)
Definition reject (r : nat) (e : err) (w : widget) : widget :=
  add_event EvLoadend (add_event EvError (set_phase r (PhDone (Rejected e)) w)).

(** [abortLastRequest]: aborting rejects a pending [fetch()] or body
    read with an AbortError; a settled one is unaffected. *)
Definition abort_last (w : widget) : widget :=
  match abort_ctrl w with
  | None => w
  | Some r =>
      let w' := set_abort_ctrl None w in
      match lookup_req r (requests w') with
      | Some (mk_req _ _ PhFetch) | Some (mk_req _ _ PhBody) => reject r ErrAbort w'
      | _ => w'
      end
  end.

(** [this.abortController = new AbortController()] and the [fetch()]. *)
Definition start_request (query : str) (w : widget) : widget :=
  let r := next_req w in
  set_abort_ctrl (Some r)
    (set_requests (mk_req r query PhFetch :: requests w) (set_next_req (S r) w)).

(** [fetchResults] up to its first suspension.  Plain: [doFetch];
    Cached: [autocomplete_cache.fetch], resolved at once on a cache hit
    (a hit that is not a payload makes [getUniqueItemList] throw a
    TypeError). *)
Definition fetch_results (cfg : config) (query : str) (w : widget) : widget :=
  if negb (has_url cfg) then w
  else
    let w := add_event EvLoadstart w in
    match build cfg with
    | Plain => start_request query (abort_last w)
    | Cached =>
        match find_in_cache (wcache w) query with
        | Some (CEntry p) => add_event EvLoadend (add_event EvLoad (replace_results cfg p query w))
        | Some CForeign => add_event EvLoadend (add_event EvError w)
        | None => start_request query (abort_last w)
        end
    end.

(** [onInputChange] (the Plain build also clears the hidden field, which
    is not part of this model). *)
Definition on_input (cfg : config) (v : str) (w : widget) : widget :=
  let w := set_input_value v w in
  let query := js_trim v in
  if negb (str_eqb query []) && (min_length cfg <=? js_length query)
  then fetch_results cfg query w
  else hide_and_remove_options w.

Definition response_ok (status : Z) : bool := (200 <=? status) && (status <=? 299).

Definition step (cfg : config) (ev : net_event) (w : widget) : widget :=
  match ev with
  | Input v => on_input cfg v w
  | NetHeaders r status =>
      match lookup_req r (requests w) with
      | Some (mk_req _ _ PhFetch) =>
          match build cfg with
          | Plain =>
              let w := set_abort_ctrl None w in
              if response_ok status then set_phase r PhBody w
              else reject r (ErrServerStatus status) w
          | Cached =>
              if response_ok status then set_phase r PhBody w
              else reject r (ErrStatusText status) w
          end
      | _ => w
      end
  | NetFail r =>
      match lookup_req r (requests w) with
      | Some (mk_req _ _ PhFetch) => reject r ErrTransport w
      | _ => w
      end
  | NetBody r json =>
      match lookup_req r (requests w) with
      | Some (mk_req _ query PhBody) =>
          match json with
          | None => reject r ErrJson w
          | Some data =>
              let w := set_phase r (PhDone Resolved) w in
              let w := match build cfg with
                       | Plain => w
                       | Cached => set_wcache (add_to_cache (wcache w) query data)
                                     (set_abort_ctrl None w)
                       end in
              add_event EvLoadend (add_event EvLoad (replace_results cfg data query w))
          end
      | _ => w
      end
  end.

Definition run (cfg : config) (evs : list net_event) (w : widget) : widget :=
  fold_left (fun w ev => step cfg ev w) evs w.

(** Requests whose [fetch()] or body read has not settled. *)
Definition in_flight (w : widget) : list nat :=
  map r_id (filter (fun x => match r_phase x with PhDone _ => false | _ => true end)
                   (requests w)).

Definition req_phase (r : nat) (w : widget) : option phase :=
  option_map r_phase (lookup_req r (requests w)).

(** ** Properties used in the statements *)

Definition count_p (P : elem -> bool) (l : list elem) : nat := length (filter P l).

(** Element identities are those of distinct DOM nodes, all created
    before [next_eid]. *)
Definition wf (w : widget) : Prop :=
  NoDup (map eid (children w)) /\ Forall (fun e => (eid e < next_eid w)%nat) (children w).

(** The items of [its] that [updateResults] renders for [query]. *)
Definition shown_items (its : list str) (query : str) : list str :=
  filter (fun item => match highlight item query with Some _ => true | None => false end) its.

(** An element with its highlighted-text children taken away. *)
Definition strip (e : elem) : elem := set_body [] e.

(** [l] keeps some elements of [l'] in their order. *)
Inductive subseq {A : Type} : list A -> list A -> Prop :=
| subseq_nil : subseq [] []
| subseq_keep : forall x l l', subseq l l' -> subseq (x :: l) (x :: l')
| subseq_drop : forall x l l', subseq l l' -> subseq l (x :: l').

(** A selected element is never [aria-disabled]. *)
Definition sel_enabled (e : elem) : Prop := aria_selected e = true -> aria_disabled e = false.

(** At most one element is [aria-selected], on a well-formed list. *)
Definition dom_ok (w : widget) : Prop :=
  wf w /\ (count_p aria_selected (children w) <= 1)%nat.

(** The operations that touch the results list. *)
Inductive ui_op :=
| OpDown | OpUp | OpEscape
| OpRender (json_response : payload) (query : str)
| OpNet (ev : net_event).

Definition ui_step (cfg : config) (op : ui_op) (w : widget) : widget :=
  match op with
  | OpDown => arrow_down cfg w
  | OpUp => arrow_up cfg w
  | OpEscape => escape w
  | OpRender p q => replace_results cfg p q w
  | OpNet ev => step cfg ev w
  end.

Definition run_ui (cfg : config) (ops : list ui_op) (w : widget) : widget :=
  fold_left (fun w op => ui_step cfg op w) ops w.

(** ** Concrete instances *)

(** A freshly connected widget: empty, closed results list. *)
Definition empty_widget : widget :=
  mk_widget [] 0%nat 0%nat false None None 0%nat [] [] None [] 0%nat empty_cache.

Definition demo_cfg (v : version) : config :=
  mk_config v true 0 [lit "active"] [].

(** A cache with two complete entries, one key a prefix of the other. *)
Definition p_jo : payload :=
  mk_payload [lit "jo"; lit "joan"; lit "john"] [lit "jo"] (lit "name") (lit "jo") (lit "jo") false.
Definition p_joh : payload :=
  mk_payload [lit "john"] [] (lit "name") (lit "joh") (lit "joh") false.
Definition prefix_cache : cache := mk_cache [(lit "jo", p_jo); (lit "joh", p_joh)] None.

(** A response with no items, and one with two. *)
Definition p_none : payload := mk_payload [] [] (lit "name") (lit "zz") (lit "zz") false.
Definition p_two : payload :=
  mk_payload [lit "ab"; lit "ac"] [] (lit "name") (lit "a") (lit "a") false.

(** Two options rendered for ["a"], none selected. *)
Definition nav_widget : widget := replace_results (demo_cfg Plain) p_two (lit "a") empty_widget.

(** Two items rendered, and the result of rendering nothing. *)
Definition two_rendered : widget := update_results Plain [lit "ab"; lit "ac"] (lit "a") empty_widget.
Definition zero_render : widget := update_results Cached [] (lit "zz") empty_widget.

(** ["İstanbul"]: its first code unit lowercases to two. *)
Definition istanbul : str := [304; 115; 116; 97; 110; 98; 117; 108].

(** Two requests overlapping in time. *)
Definition p_a_jo : payload :=
  mk_payload [lit "jo"; lit "joe"; lit "john"] [lit "jo"] (lit "name") (lit "jo") (lit "jo") false.
Definition p_a_joh : payload :=
  mk_payload [lit "john"] [] (lit "name") (lit "joh") (lit "joh") false.
Definition overlap_trace : list net_event :=
  [Input (lit "jo"); NetHeaders 0 200; Input (lit "joh"); NetHeaders 1 200;
   NetBody 1 (Some p_a_joh); NetBody 0 (Some p_a_jo)].

(** A Cached widget whose cache already answers ["a"]. *)
Definition p_a : payload := mk_payload [lit "a"; lit "ab"] [lit "a"] (lit "name") (lit "a") (lit "a") false.
Definition cached_widget : widget := set_wcache (mk_cache [(lit "a", p_a)] None) empty_widget.
Definition cache_hit_trace : list net_event :=
  [Input (lit "jo"); Input (lit "a"); NetHeaders 0 200; NetBody 0 (Some p_a_jo)].

(** ** Committing a choice, the other event handlers *)

(** [textContent] of a results child. *)
Definition node_text (n : node) : str := match n with Text t => t | Em t => t end.

Definition text_content (e : elem) : str := flat_map node_text (body e).

(** What [commit] produces besides the widget: the value written to
    [hiddenTarget] (which then dispatches [input] and [change]), and the
    [autocomplete.change] event with its [detail.value] (Plain build
    only) and [detail.textValue]. *)
Record commit_out := mk_commit_out {
  co_widget : widget;
  co_hidden : option str;
  co_change : option (option str * str)
}.

Definition no_commit (w : widget) : commit_out := mk_commit_out w None None.

(** [x || y] for an attribute [x] that may be missing ([null]) and a
    string [y]: the empty string is falsy. *)
Definition str_or (x : option str) (y : str) : str :=
  match x with Some s => if str_eqb s [] then y else s | None => y end.

(** Plain [commit(selected)].  The results children of this model are
    [li] elements made by [updateResults] or [showSorryMessage]: none is
    an [HTMLAnchorElement], none carries [data-autocomplete-label]
    (whose [getAttribute] is then [null]), and the only [aria-disabled]
    value they carry is ["true"].  ([focus()] is left out.) *)
Definition commit_plain (has_hidden : bool) (selected : elem) (w : widget) : commit_out :=
  if aria_disabled selected then no_commit w
  else
    let text_value := js_trim (text_content selected) in
    let v := str_or (value selected) text_value in
    let w := set_input_value text_value w in
    if has_hidden
    then mk_commit_out (hide_and_remove_options w) (Some v) (Some (Some v, text_value))
    else mk_commit_out (hide_and_remove_options (set_input_value v w)) None
                       (Some (Some v, text_value)).

(** Cached [commit(selected)]: [selected.ariaDisabled] is the attribute's
    value, truthy when present. *)
Definition commit_cached (selected : elem) (w : widget) : commit_out :=
  if aria_disabled selected then no_commit w
  else
    let text_value := str_or (value selected) (js_trim (text_content selected)) in
    mk_commit_out (hide_and_remove_options (set_input_value text_value w)) None
                  (Some (None, text_value)).

(** [has_hidden] is [hasHiddenTarget]; the Cached build declares no
    hidden target. *)
Definition commit (cfg : config) (has_hidden : bool) (selected : elem) (w : widget)
    : commit_out :=
  match build cfg with
  | Plain => commit_plain has_hidden selected w
  | Cached => commit_cached selected w
  end.

(** [onKeydown]: runs [this["on" + event.key + "Keydown"]] when there is
    such a handler; the boolean tells whether [event.preventDefault()]
    was called.  [has_submit_on_enter] is [hasSubmitOnEnterValue]. *)
Definition on_keydown (cfg : config) (has_hidden has_submit_on_enter : bool) (key : str)
    (w : widget) : commit_out * bool :=
  if str_eqb key (lit "Escape") then (no_commit (escape w), results_shown w)
  else if str_eqb key (lit "ArrowDown") then (no_commit (arrow_down cfg w), true)
  else if str_eqb key (lit "ArrowUp") then (no_commit (arrow_up cfg w), true)
  else if str_eqb key (lit "Tab") then
    match selected_option w with
    | Some s => (commit cfg has_hidden s w, false)
    | None => (no_commit w, false)
    end
  else if str_eqb key (lit "Enter") then
    match selected_option w with
    | Some s => if results_shown w then (commit cfg has_hidden s w, negb has_submit_on_enter)
                else (no_commit w, false)
    | None => (no_commit w, false)
    end
  else (no_commit w, false).

(** [onResultsClick] for a click inside the results child [target]:
    [closest(optionSelector)] is [target] when it matches (the results
    container and its ancestors are not options). *)
Definition on_results_click (cfg : config) (has_hidden : bool) (target : elem) (w : widget)
    : commit_out :=
  if is_option target then commit cfg has_hidden target w else no_commit w.

(** [onInputBlur]; [mouse_down] is [this.mouseDown]. *)
Definition on_input_blur (mouse_down : bool) (w : widget) : widget :=
  if mouse_down then w else close_results w.

(** An option displays its [data-autocomplete-value] as its text. *)
Definition shows_value (e : elem) : Prop :=
  is_option e = true -> value e = Some (text_content e).

Definition text_ok (w : widget) : Prop := Forall shows_value (children w).

(** ** [buildURL]

    A URL is modelled by its list of search parameters, in order; the
    rest of the URL is left unchanged by both builds. *)
Definition params := list (str * str).

(** [URLSearchParams.append]. *)
Definition usp_append (ps : params) (name v : str) : params := ps ++ [(name, v)].

(** [URLSearchParams.set]: the first pair named [name] gets the value,
    the other pairs with that name are removed; appended when none. *)
Fixpoint usp_set (ps : params) (name v : str) : params :=
  match ps with
  | [] => [(name, v)]
  | (k, x) :: ps' =>
      if str_eqb k name
      then (k, v) :: filter (fun kv => negb (str_eqb (fst kv) name)) ps'
      else (k, x) :: usp_set ps' name v
  end.

(** [URLSearchParams.getAll]. *)
Definition usp_get_all (ps : params) (name : str) : list str :=
  map snd (filter (fun kv => str_eqb (fst kv) name) ps).

(** Plain [buildURL(query)]: a fresh [URL] from [urlValue], whose
    parameters get [queryParam=query] appended. *)
Definition build_url_plain (url_params : params) (query_param query : str) : params :=
  usp_append url_params query_param query.

(** Cached [buildURL(query)]: [this.url.searchParams.set]; the result
    is also the new [this.url]. *)
Definition build_url_cached (url_params : params) (query_param query : str) : params :=
  usp_set url_params query_param query.

(** ** [debounce]

    [timeout_due] is the time at which the pending [setTimeout] is due,
    [fired] the times at which [fn] has run.  A timer due at or before
    the time of a call has run before the call. *)
Record debouncer := mk_debouncer { timeout_due : option Z; fired : list Z }.

Definition deb_due (now : Z) (d : debouncer) : debouncer :=
  match timeout_due d with
  | Some t => if t <=? now then mk_debouncer None (fired d ++ [t]) else d
  | None => d
  end.

(** A call at [now]: [clearTimeout(timeoutId)], then [setTimeout(fn,
    delay)] (a negative delay counts as 0). *)
Definition deb_call (delay now : Z) (d : debouncer) : debouncer :=
  mk_debouncer (Some (now + Z.max 0 delay)) (fired d).

(** The times [fn] runs for calls at the times [calls], once every timer
    has had time to run. *)
Definition deb_run (delay : Z) (calls : list Z) : list Z :=
  let d := fold_left (fun d t => deb_call delay t (deb_due t d)) calls (mk_debouncer None []) in
  match timeout_due d with
  | Some t => fired d ++ [t]
  | None => fired d
  end.

(** The calls each followed by no other call before its timer is due. *)
Fixpoint quiet_deadlines (delay : Z) (calls : list Z) : list Z :=
  match calls with
  | [] => []
  | [t] => [t + Z.max 0 delay]
  | t :: ((t' :: _) as rest) =>
      if t + Z.max 0 delay <=? t' then (t + Z.max 0 delay) :: quiet_deadlines delay rest
      else quiet_deadlines delay rest
  end.

(** ** Request bookkeeping *)

(** Requests the abort controller is meant to track: Plain [doFetch]
    drops the controller once the headers are in, Cached [performFetch]
    once the body is read. *)
Definition tracked (v : version) (ph : phase) : bool :=
  match ph, v with
  | PhFetch, _ => true
  | PhBody, Cached => true
  | _, _ => false
  end.

Definition tracked_reqs (v : version) (w : widget) : list nat :=
  map r_id (filter (fun x => tracked v (r_phase x)) (requests w)).

(** Request identities are distinct and below [next_req], and every
    tracked request is the one the abort controller aborts. *)
Definition req_inv (v : version) (w : widget) : Prop :=
  NoDup (map r_id (requests w))
  /\ Forall (fun x => (r_id x < next_req w)%nat) (requests w)
  /\ Forall (fun x => tracked v (r_phase x) = true -> abort_ctrl w = Some (r_id x)) (requests w).

(** ** Further concrete inputs *)

(** [nav_widget] after ArrowDown: the first option is selected. *)
Definition nav_selected : widget := arrow_down (demo_cfg Plain) nav_widget.

(** ** DOM ids of the options *)

(** The prefix [identifyOptions] gives the ids it assigns. *)
Definition id_prefix (cfg : config) : str :=
  if str_eqb (results_id cfg) [] then lit "stimulus-autocomplete" else results_id cfg.

Definition opt_id (cfg : config) (n : nat) : str :=
  id_prefix cfg ++ lit "-option-" ++ nat_to_str n.

(** The [id] attributes present on a list of elements, in order. *)
Definition ids_of (cs : list elem) : list str :=
  flat_map (fun e => match dom_id e with Some d => [d] | None => [] end) cs.

(** The ids in the results list are distinct, and each is one that
    [identifyOptions] assigned from a counter value already used. *)
Definition ids_ok (cfg : config) (w : widget) : Prop :=
  NoDup (ids_of (children w))
  /\ forall d, In d (ids_of (children w)) ->
       exists n, (n < uniq_option_id w)%nat /\ d = opt_id cfg n.

(** [l'] keeps only ids of [l], and keeps them distinct if they were. *)
Definition ids_shrink (l' l : list str) : Prop :=
  incl l' l /\ (NoDup l -> NoDup l').

(** ** Lemmas on strings *)

Lemma str_eqb_eq : forall a b, str_eqb a b = true <-> a = b.
Proof.
  induction a as [|x a IH]; destruct b as [|y b]; simpl; split; intro H;
    try congruence.
  - apply andb_true_iff in H as [H1 H2]. apply Z.eqb_eq in H1.
    apply IH in H2. subst. reflexivity.
  - inversion H; subst. rewrite Z.eqb_refl. simpl. apply IH. reflexivity.
Qed.

(** ** Lemmas on the cache lookup *)

Lemma in_insert_by_value : forall x k ks,
  In x (insert_by_value k ks) <-> x = k \/ In x ks.
Proof.
  intros x k ks. induction ks as [|k' ks IH]; simpl.
  - intuition congruence.
  - destruct (digits_value k <=? digits_value k'); simpl;
      [intuition congruence|].
    rewrite IH. intuition congruence.
Qed.

Lemma in_sorted_keys : forall x l,
  In x (fold_right insert_by_value [] l) <-> In x l.
Proof.
  intros x l. induction l as [|k l IH]; simpl; [tauto|].
  rewrite in_insert_by_value, IH. intuition congruence.
Qed.

Lemma in_object_keys : forall c k,
  In k (map fst (c_own c)) -> In k (object_keys c).
Proof.
  intros c k H. unfold object_keys. apply in_or_app.
  destruct (is_array_index k) eqn:E.
  - left. apply in_sorted_keys. apply filter_In. auto.
  - right. apply filter_In. rewrite E. auto.
Qed.

Lemma own_lookup_in_keys : forall own k p,
  own_lookup own k = Some p -> In k (map fst own).
Proof.
  induction own as [|[k' p'] own IH]; simpl; intros k p H; [discriminate|].
  destruct (str_eqb k k') eqn:E.
  - left. symmetry. apply str_eqb_eq. exact E.
  - right. eapply IH. exact H.
Qed.

Lemma scan_keys_app : forall c q ks1 ks2,
  scan_keys c q (ks1 ++ ks2) =
  match scan_keys c q ks1 with Some v => Some v | None => scan_keys c q ks2 end.
Proof.
  intros c q ks1 ks2. induction ks1 as [|k ks1 IH]; simpl; [reflexivity|].
  destruct (own_lookup (c_own c) k) as [e|]; [|exact IH].
  destruct (negb (partial e) && starts_with q k); [reflexivity|exact IH].
Qed.

Lemma scan_keys_none : forall c q ks,
  Forall (fun k => scan_keys c q [k] = None) ks -> scan_keys c q ks = None.
Proof.
  intros c q ks H. induction H as [|k ks Hk _ IH]; [reflexivity|].
  change (k :: ks) with ([k] ++ ks). rewrite scan_keys_app, Hk. exact IH.
Qed.

Lemma scan_keys_finds : forall c q ks k p,
  In k ks -> own_lookup (c_own c) k = Some p -> partial p = false ->
  starts_with q k = true -> exists v, scan_keys c q ks = Some v.
Proof.
  intros c q ks k p Hin Hl Hp Hs. induction ks as [|k' ks IH];
    [destruct Hin|].
  simpl. destruct Hin as [<-|Hin].
  - rewrite Hl, Hp, Hs. simpl. eauto.
  - destruct (own_lookup (c_own c) k') as [e|]; [|auto].
    destruct (negb (partial e) && starts_with q k'); eauto.
Qed.

(** ** Lemmas on element lists *)

Lemma map_eid_upd_first : forall id f cs,
  (forall e, eid (f e) = eid e) -> map eid (upd_first id f cs) = map eid cs.
Proof.
  intros id f cs Hf. induction cs as [|e cs IH]; simpl; [reflexivity|].
  destruct (Nat.eqb (eid e) id); simpl; rewrite ?Hf, ?IH; reflexivity.
Qed.

Lemma count_upd_first : forall P id f cs,
  (forall e, P (f e) = P e) -> count_p P (upd_first id f cs) = count_p P cs.
Proof.
  unfold count_p. intros P id f cs Hf. induction cs as [|e cs IH]; simpl; [reflexivity|].
  destruct (Nat.eqb (eid e) id); simpl; rewrite ?Hf;
    destruct (P e); simpl; rewrite ?IH; reflexivity.
Qed.

Lemma perm_insert_li : forall l li cs, Permutation (insert_li l li cs) (li :: cs).
Proof.
  intros [id|] li cs; simpl; [|reflexivity].
  induction cs as [|e cs IH]; simpl; [reflexivity|].
  destruct (Nat.eqb (eid e) id).
  - apply perm_swap.
  - rewrite IH. apply perm_swap.
Qed.

Lemma count_perm : forall P l l', Permutation l l' -> count_p P l = count_p P l'.
Proof.
  unfold count_p. intros P l l' H. induction H; simpl.
  - reflexivity.
  - destruct (P x); simpl; lia.
  - destruct (P x), (P y); simpl; reflexivity.
  - lia.
Qed.

Lemma count_remove_node_le : forall P id cs, (count_p P (remove_node id cs) <= count_p P cs)%nat.
Proof.
  unfold count_p. intros P id cs. induction cs as [|e cs IH]; simpl; [lia|].
  destruct (Nat.eqb (eid e) id); simpl; destruct (P e); simpl; lia.
Qed.

Lemma incl_remove_node : forall id cs, incl (remove_node id cs) cs.
Proof.
  intros id cs. induction cs as [|e cs IH]; simpl; [apply incl_refl|].
  destruct (Nat.eqb (eid e) id).
  - apply incl_tl, incl_refl.
  - apply incl_cons; [left; reflexivity|]. apply incl_tl, IH.
Qed.

Lemma nodup_remove_node : forall id cs,
  NoDup (map eid cs) -> NoDup (map eid (remove_node id cs)).
Proof.
  intros id cs. induction cs as [|e cs IH]; simpl; intro H; [constructor|].
  inversion H as [|x l Hn Hd]; subst.
  destruct (Nat.eqb (eid e) id); [exact Hd|].
  simpl. constructor; [|auto].
  intro Hin. apply Hn. apply in_map_iff in Hin as [e' [He' Hin]].
  apply in_map_iff. exists e'. split; [exact He'|]. eapply incl_remove_node; eauto.
Qed.

Lemma count_find_remove : forall P cs li,
  NoDup (map eid cs) -> find P cs = Some li ->
  S (count_p P (remove_node (eid li) cs)) = count_p P cs.
Proof.
  unfold count_p. intros P cs li. induction cs as [|e cs IH]; simpl; intros Hd Hf;
    [discriminate|].
  inversion Hd as [|x l Hn Hd']; subst.
  destruct (P e) eqn:Pe.
  - inversion Hf; subst. rewrite Nat.eqb_refl. reflexivity.
  - assert (Hne : Nat.eqb (eid e) (eid li) = false).
    { apply Nat.eqb_neq. intro Heq. apply Hn. rewrite Heq.
      apply in_map. eapply find_some. exact Hf. }
    rewrite Hne. simpl. rewrite Pe. apply IH; assumption.
Qed.

Lemma count_find_none : forall P cs, find P cs = None -> count_p P cs = 0%nat.
Proof.
  unfold count_p. intros P cs. induction cs as [|e cs IH]; simpl; [reflexivity|].
  destruct (P e); [discriminate|exact IH].
Qed.

Lemma count_app : forall P l1 l2, count_p P (l1 ++ l2) = (count_p P l1 + count_p P l2)%nat.
Proof. unfold count_p. intros. rewrite filter_app, length_app. reflexivity. Qed.

Lemma lookup_split : forall id cs t,
  lookup_elem id cs = Some t ->
  exists pre post, cs = pre ++ t :: post /\ Forall (fun e => eid e <> id) pre /\ eid t = id.
Proof.
  unfold lookup_elem. intros id cs t. induction cs as [|e cs IH]; simpl; intro H;
    [discriminate|].
  destruct (Nat.eqb (eid e) id) eqn:E.
  - inversion H; subst. exists [], cs. split; [reflexivity|]. split; [constructor|].
    apply Nat.eqb_eq. exact E.
  - destruct (IH H) as [pre [post [-> [Hpre Ht]]]].
    exists (e :: pre), post. split; [reflexivity|]. split; [|exact Ht].
    constructor; [apply Nat.eqb_neq; exact E|exact Hpre].
Qed.

Lemma upd_first_split : forall id f pre t post,
  Forall (fun e => eid e <> id) pre -> eid t = id ->
  upd_first id f (pre ++ t :: post) = pre ++ f t :: post.
Proof.
  intros id f pre t post Hpre Ht. induction Hpre as [|e pre He _ IH]; simpl.
  - rewrite Ht, Nat.eqb_refl. reflexivity.
  - apply Nat.eqb_neq in He. rewrite He, IH. reflexivity.
Qed.

Lemma lookup_in : forall cs x,
  NoDup (map eid cs) -> In x cs -> lookup_elem (eid x) cs = Some x.
Proof.
  unfold lookup_elem. intros cs x. induction cs as [|e cs IH]; simpl; intros Hd Hin;
    [destruct Hin|].
  inversion Hd as [|y l Hn Hd']; subst.
  destruct Hin as [<-|Hin].
  - rewrite Nat.eqb_refl. reflexivity.
  - destruct (Nat.eqb (eid e) (eid x)) eqn:E.
    + apply Nat.eqb_eq in E. exfalso. apply Hn. rewrite E. apply in_map. exact Hin.
    + apply IH; assumption.
Qed.

Lemma Forall_upd_first : forall (Q : elem -> Prop) id f cs,
  (forall e, Q e -> Q (f e)) -> Forall Q cs -> Forall Q (upd_first id f cs).
Proof.
  intros Q id f cs Hf H. induction H as [|e cs He Hcs IH]; simpl; [constructor|].
  destruct (Nat.eqb (eid e) id); constructor; auto.
Qed.

Lemma Forall_perm : forall (Q : elem -> Prop) l l',
  Permutation l l' -> Forall Q l' -> Forall Q l.
Proof.
  intros Q l l' Hp H. rewrite Forall_forall in *. intros x Hx.
  apply H. eapply Permutation_in; eauto.
Qed.

(** ** The render loop *)

Section RenderLoop.
Variable existing : list elem.
Variable query : str.

Lemma ur_loop_shown : forall its last cs next count shown cs' next' count' shown',
  ur_loop existing query its last cs next count shown = (cs', next', count', shown') ->
  shown' = shown ++ shown_items its query
  /\ count' = (count + length (shown_items its query))%nat.
Proof.
  induction its as [|item its IH]; simpl; intros last cs next count shown cs' next'
    count' shown' H.
  - inversion H; subst. rewrite app_nil_r. split; [reflexivity|lia].
  - destruct (highlight item query) as [parts|].
    + destruct (find (value_is item) existing) as [li|];
        apply IH in H as [-> ->]; rewrite <- app_assoc; simpl;
        split; (reflexivity || lia).
    + apply IH in H. exact H.
Qed.

Lemma ur_loop_count : forall (P : elem -> bool),
  (forall b e, P (set_body b e) = P e) ->
  (forall id item parts, P (new_option id item parts) = false) ->
  forall its last cs next count shown cs' next' count' shown',
  ur_loop existing query its last cs next count shown = (cs', next', count', shown') ->
  count_p P cs' = count_p P cs.
Proof.
  intros P Hb Hn. induction its as [|item its IH]; simpl;
    intros last cs next count shown cs' next' count' shown' H.
  - inversion H; subst. reflexivity.
  - destruct (highlight item query) as [parts|]; [|eapply IH; exact H].
    destruct (find (value_is item) existing) as [li|]; apply IH in H; rewrite H.
    + apply count_upd_first. intro e. apply Hb.
    + rewrite (count_perm P _ _ (perm_insert_li _ _ _)).
      unfold count_p. simpl. rewrite Hn. reflexivity.
Qed.

Lemma ur_loop_wf : forall its last cs next count shown cs' next' count' shown',
  ur_loop existing query its last cs next count shown = (cs', next', count', shown') ->
  NoDup (map eid cs) -> Forall (fun e => (eid e < next)%nat) cs ->
  NoDup (map eid cs') /\ Forall (fun e => (eid e < next')%nat) cs' /\ (next <= next')%nat.
Proof.
  induction its as [|item its IH]; simpl;
    intros last cs next count shown cs' next' count' shown' H Hd Hlt.
  - inversion H; subst. auto.
  - destruct (highlight item query) as [parts|]; [|eapply IH; eauto].
    destruct (find (value_is item) existing) as [li|].
    + eapply IH; [exact H| |].
      * rewrite map_eid_upd_first; [exact Hd|reflexivity].
      * apply Forall_upd_first; [|exact Hlt]. intros e He. exact He.
    + apply IH in H as [H1 [H2 H3]]; [split; [exact H1|split; [exact H2|lia]]| |].
      * eapply Permutation_NoDup;
          [apply Permutation_sym, Permutation_map, perm_insert_li|].
        simpl. constructor; [|exact Hd].
        intro Hin. apply in_map_iff in Hin as [e [He Hin]].
        rewrite Forall_forall in Hlt. specialize (Hlt e Hin). lia.
      * eapply Forall_perm; [apply perm_insert_li|].
        constructor; [simpl; lia|].
        eapply Forall_impl; [|exact Hlt]. intros e He. simpl in He. lia.
Qed.

(** When every rendered item already has an element, the loop only
    replaces element bodies. *)
Lemma ur_loop_reuse : forall its last cs next count shown cs' next' count' shown',
  (forall item, In item (shown_items its query) ->
     exists li, In li existing /\ value_is item li = true) ->
  ur_loop existing query its last cs next count shown = (cs', next', count', shown') ->
  map strip cs' = map strip cs /\ next' = next.
Proof.
  induction its as [|item its IH]; simpl;
    intros last cs next count shown cs' next' count' shown' Hall H.
  - inversion H; subst. auto.
  - unfold shown_items in Hall. simpl in Hall.
    destruct (highlight item query) as [parts|]; [|eapply IH; eauto].
    destruct (find (value_is item) existing) as [li|] eqn:Hf.
    + apply IH in H as [-> ->]; [|intros x Hx; apply Hall; right; exact Hx].
      split; [|reflexivity].
      clear. induction cs as [|e cs IH]; simpl; [reflexivity|].
      destruct (Nat.eqb (eid e) (eid li)); simpl; rewrite ?IH; reflexivity.
    + exfalso. destruct (Hall item (or_introl eq_refl)) as [li [Hin Hv]].
      eapply find_none in Hf; [|exact Hin]. congruence.
Qed.

Lemma ur_loop_none_shown : forall its last cs next count shown,
  shown_items its query = [] ->
  ur_loop existing query its last cs next count shown = (cs, next, count, shown).
Proof.
  induction its as [|item its IH]; simpl; intros last cs next count shown H;
    [reflexivity|].
  unfold shown_items in H. simpl in H.
  destruct (highlight item query); [discriminate|]. apply IH. exact H.
Qed.
End RenderLoop.

Lemma remove_unshown_count_le : forall P ex sh cs,
  (count_p P (remove_unshown ex sh cs) <= count_p P cs)%nat.
Proof.
  unfold remove_unshown. intros P ex sh. induction ex as [|li ex IH]; simpl; intro cs;
    [lia|].
  destruct (value_shown sh li).
  - apply IH.
  - etransitivity; [apply IH|]. apply count_remove_node_le.
Qed.

Lemma remove_unshown_wf : forall ex sh cs (Q : elem -> Prop),
  NoDup (map eid cs) -> Forall Q cs ->
  NoDup (map eid (remove_unshown ex sh cs)) /\ Forall Q (remove_unshown ex sh cs).
Proof.
  unfold remove_unshown. intros ex sh. induction ex as [|li ex IH]; simpl;
    intros cs Q Hd HQ; [auto|].
  destruct (value_shown sh li); apply IH; auto.
  - apply nodup_remove_node. exact Hd.
  - rewrite Forall_forall in *. intros x Hx. apply HQ. eapply incl_remove_node. exact Hx.
Qed.

Lemma remove_unshown_keep : forall ex sh cs,
  Forall (fun li => value_shown sh li = true) ex -> remove_unshown ex sh cs = cs.
Proof.
  unfold remove_unshown. intros ex sh cs H. revert cs.
  induction H as [|li ex Hli _ IH]; simpl; intro cs; [reflexivity|].
  rewrite Hli. apply IH.
Qed.

Lemma remove_unshown_none : forall ex cs,
  remove_unshown ex [] cs = fold_left (fun cs li => remove_node (eid li) cs) ex cs.
Proof.
  unfold remove_unshown, value_shown. intros ex. induction ex as [|li ex IH]; simpl;
    intro cs; [reflexivity|].
  destruct (value li); simpl; apply IH.
Qed.

(** ** [updateResults], [identifyOptions], [replaceResults] *)

Lemma wf_iff : forall w w',
  map eid (children w') = map eid (children w) -> next_eid w' = next_eid w ->
  wf w -> wf w'.
Proof.
  unfold wf. intros w w' Hm Hn [Hd Hlt]. rewrite Hm, Hn. split; [exact Hd|].
  rewrite Forall_forall in *. intros x Hx.
  assert (Hin : In (eid x) (map eid (children w))) by (rewrite <- Hm; apply in_map; exact Hx).
  apply in_map_iff in Hin as [y [Hy Hin]]. rewrite <- Hy. apply Hlt. exact Hin.
Qed.

Lemma wf_append_fresh : forall cs n e,
  NoDup (map eid cs) -> Forall (fun x => (eid x < n)%nat) cs -> eid e = n ->
  NoDup (map eid (cs ++ [e])) /\ Forall (fun x => (eid x < S n)%nat) (cs ++ [e]).
Proof.
  intros cs n e Hd Hlt He. split.
  - eapply Permutation_NoDup.
    + rewrite map_app. simpl. apply Permutation_cons_append.
    + constructor; [|exact Hd]. intro Hin. apply in_map_iff in Hin as [x [Hx Hin]].
      rewrite Forall_forall in Hlt. specialize (Hlt x Hin). lia.
  - apply Forall_app. split; [|constructor; [lia|constructor]].
    eapply Forall_impl; [|exact Hlt]. simpl. intros. lia.
Qed.

Lemma hide_sorry_wf : forall v w, wf w -> wf (hide_sorry v w).
Proof.
  unfold hide_sorry, wf. intros v w [Hd Hlt].
  destruct (find (is_sorry v) (children w)) as [li|]; [|split; assumption].
  simpl. split; [apply nodup_remove_node; exact Hd|].
  rewrite Forall_forall in *. intros x Hx. apply Hlt. eapply incl_remove_node. exact Hx.
Qed.

Lemma show_sorry_wf : forall v q w, wf w -> wf (show_sorry v q w).
Proof.
  intros v q w Hw. unfold show_sorry.
  assert (H0 : wf (match v with Plain => w | Cached => hide_sorry v w end)).
  { destruct v; [exact Hw|apply hide_sorry_wf; exact Hw]. }
  destruct H0 as [Hd Hlt]. unfold wf. simpl.
  apply wf_append_fresh; [exact Hd|exact Hlt|reflexivity].
Qed.

Lemma update_results_wf : forall v its q w, wf w -> wf (update_results v its q w).
Proof.
  intros v its q w [Hd Hlt]. unfold update_results.
  destruct (ur_loop (options w) q its None (children w) (next_eid w) 0%nat [])
    as [[[cs next] count] shown] eqn:E.
  apply ur_loop_wf in E as [Hd' [Hlt' _]]; [|exact Hd|exact Hlt].
  destruct (remove_unshown_wf (options w) shown cs _ Hd' Hlt') as [Hd2 Hlt2].
  assert (Hw1 : wf (set_item_count count
                      (set_next_eid next (set_children (remove_unshown (options w) shown cs) w)))).
  { split; assumption. }
  destruct (Nat.eqb count 0).
  - apply show_sorry_wf. exact Hw1.
  - apply hide_sorry_wf. exact Hw1.
Qed.

Lemma update_results_frame : forall v its q w,
  results_shown (update_results v its q w) = results_shown w
  /\ events (update_results v its q w) = events w
  /\ item_count (update_results v its q w) = length (shown_items its q).
Proof.
  intros v its q w. unfold update_results.
  destruct (ur_loop (options w) q its None (children w) (next_eid w) 0%nat [])
    as [[[cs next] count] shown] eqn:E.
  apply ur_loop_shown in E as [_ Hc]. simpl in Hc. subst count.
  destruct (Nat.eqb _ 0); unfold show_sorry, hide_sorry; destruct v; simpl;
    repeat match goal with |- context [match ?x with Some _ => _ | None => _ end] =>
                             destruct x end; simpl; auto.
Qed.

Lemma hide_sorry_count_le : forall P v w,
  (count_p P (children (hide_sorry v w)) <= count_p P (children w))%nat.
Proof.
  unfold hide_sorry. intros P v w.
  destruct (find (is_sorry v) (children w)); simpl; [apply count_remove_node_le|lia].
Qed.

(** Counts of element kinds the render pass never creates do not grow. *)
Lemma update_results_count_le : forall (P : elem -> bool) v its q w,
  (forall b e, P (set_body b e) = P e) ->
  (forall id item parts, P (new_option id item parts) = false) ->
  (forall id q', P (sorry_elem id q') = false) ->
  (count_p P (children (update_results v its q w)) <= count_p P (children w))%nat.
Proof.
  intros P v its q w Hb Hn Hs. unfold update_results.
  destruct (ur_loop (options w) q its None (children w) (next_eid w) 0%nat [])
    as [[[cs next] count] shown] eqn:E.
  apply (ur_loop_count _ _ P Hb Hn) in E.
  pose proof (remove_unshown_count_le P (options w) shown cs) as Hr.
  set (w1 := set_item_count count
               (set_next_eid next (set_children (remove_unshown (options w) shown cs) w))).
  assert (Hw1 : count_p P (children w1) = count_p P (remove_unshown (options w) shown cs))
    by reflexivity.
  destruct (Nat.eqb count 0).
  - unfold show_sorry.
    assert (H0 : (count_p P (children (match v with Plain => w1 | Cached => hide_sorry v w1 end))
                  <= count_p P (children w1))%nat).
    { destruct v; [lia|apply hide_sorry_count_le]. }
    simpl. rewrite count_app. unfold count_p at 2. simpl. rewrite Hs. simpl.
    fold (count_p P (children (match v with Plain => w1 | Cached => hide_sorry v w1 end))).
    lia.
  - etransitivity; [apply hide_sorry_count_le|]. lia.
Qed.

Lemma hide_sorry_clears : forall v w,
  wf w -> (count_p (is_sorry v) (children w) <= 1)%nat ->
  count_p (is_sorry v) (children (hide_sorry v w)) = 0%nat.
Proof.
  unfold hide_sorry. intros v w [Hd _] Hc.
  destruct (find (is_sorry v) (children w)) as [li|] eqn:Hf; simpl.
  - pose proof (count_find_remove _ _ _ Hd Hf). lia.
  - apply count_find_none. exact Hf.
Qed.

Lemma identify_eids : forall p cs n, map eid (fst (identify p cs n)) = map eid cs.
Proof.
  intros p cs. induction cs as [|e cs IH]; intro n; simpl; [reflexivity|].
  destruct (is_option e); destruct (dom_id e);
    match goal with |- context [identify p cs ?m] =>
      specialize (IH m); destruct (identify p cs m) as [cs' n'] end;
    simpl in *; rewrite IH; reflexivity.
Qed.

Lemma identify_count : forall P p cs n,
  (forall i e, P (set_dom_id i e) = P e) ->
  count_p P (fst (identify p cs n)) = count_p P cs.
Proof.
  unfold count_p. intros P p cs n HP. revert n.
  induction cs as [|e cs IH]; intro n; simpl; [reflexivity|].
  destruct (is_option e); destruct (dom_id e);
    match goal with |- context [identify p cs ?m] =>
      specialize (IH m); destruct (identify p cs m) as [cs' n'] end;
    simpl in *; rewrite ?HP; destruct (P e); simpl; rewrite ?IH; reflexivity.
Qed.

Lemma identify_app_last : forall p cs x n,
  is_option x = false ->
  fst (identify p (cs ++ [x]) n) = fst (identify p cs n) ++ [x].
Proof.
  intros p cs x n Hx. revert n. induction cs as [|e cs IH]; intro n; simpl.
  - rewrite Hx. reflexivity.
  - destruct (is_option e); destruct (dom_id e);
      match goal with |- context [identify p cs ?m] =>
        specialize (IH m); destruct (identify p cs m) as [b b'];
        destruct (identify p (cs ++ [x]) m) as [a a'] end;
      simpl in *; rewrite IH; reflexivity.
Qed.

Lemma identify_options_children : forall cfg w,
  exists n, children (identify_options cfg w) = fst (identify
    (if str_eqb (results_id cfg) [] then lit "stimulus-autocomplete" else results_id cfg)
    (children w) n)
  /\ next_eid (identify_options cfg w) = next_eid w
  /\ results_shown (identify_options cfg w) = results_shown w
  /\ events (identify_options cfg w) = events w.
Proof.
  intros cfg w. unfold identify_options.
  destruct (identify _ (children w) (uniq_option_id w)) as [cs n] eqn:E.
  exists (uniq_option_id w). rewrite E. simpl. auto.
Qed.

Lemma open_frame : forall w,
  children (open_results w) = children w /\ next_eid (open_results w) = next_eid w
  /\ results_shown (open_results w) = true
  /\ events (open_results w) = events w ++ (if results_shown w then [] else [EvToggle true]).
Proof.
  intro w. unfold open_results. destruct (results_shown w) eqn:E; simpl;
    rewrite ?app_nil_r, ?E; auto.
Qed.

Lemma replace_results_frame : forall cfg p q w,
  (exists n, children (replace_results cfg p q w) =
     fst (identify (if str_eqb (results_id cfg) [] then lit "stimulus-autocomplete"
                    else results_id cfg)
                   (children (update_results (build cfg) (get_unique_item_list p) q w)) n))
  /\ next_eid (replace_results cfg p q w)
     = next_eid (update_results (build cfg) (get_unique_item_list p) q w)
  /\ results_shown (replace_results cfg p q w) = true
  /\ events (replace_results cfg p q w)
     = events w ++ (if results_shown w then [] else [EvToggle true]).
Proof.
  intros cfg p q w. unfold replace_results. simpl truthy.
  destruct (identify_options_children cfg
              (update_results (build cfg) (get_unique_item_list p) q w))
    as [n [Hc [Hn [Hs He]]]].
  destruct (open_frame (identify_options cfg
              (update_results (build cfg) (get_unique_item_list p) q w)))
    as [Hc' [Hn' [Hs' He']]].
  destruct (update_results_frame (build cfg) (get_unique_item_list p) q w)
    as [Hs0 [He0 _]].
  rewrite Hc', Hn', Hs', He', Hs, He, Hc, Hn, Hs0, He0. eauto.
Qed.

Lemma replace_results_wf : forall cfg p q w, wf w -> wf (replace_results cfg p q w).
Proof.
  intros cfg p q w Hw.
  destruct (replace_results_frame cfg p q w) as [[n Hc] [Hn _]].
  eapply wf_iff; [| |apply (update_results_wf (build cfg) (get_unique_item_list p) q w Hw)].
  - rewrite Hc. apply identify_eids.
  - exact Hn.
Qed.

Lemma replace_results_count_le : forall (P : elem -> bool) cfg p q w,
  (forall b e, P (set_body b e) = P e) ->
  (forall i e, P (set_dom_id i e) = P e) ->
  (forall id item parts, P (new_option id item parts) = false) ->
  (forall id q', P (sorry_elem id q') = false) ->
  (count_p P (children (replace_results cfg p q w)) <= count_p P (children w))%nat.
Proof.
  intros P cfg p q w Hb Hi Hn Hs.
  destruct (replace_results_frame cfg p q w) as [[n Hc] _]. rewrite Hc.
  rewrite identify_count by exact Hi. apply update_results_count_le; assumption.
Qed.

(** ** Selection *)

Lemma find_none_forall : forall (P : elem -> bool) l,
  find P l = None -> Forall (fun e => P e = false) l.
Proof.
  intros P l. induction l as [|e l IH]; simpl; intro H; constructor;
    destruct (P e) eqn:E; try discriminate; auto.
Qed.

Lemma count_zero_forall : forall (P : elem -> bool) l,
  count_p P l = 0%nat -> Forall (fun e => P e = false) l.
Proof.
  unfold count_p. intros P l. induction l as [|e l IH]; simpl; intro H; constructor;
    destruct (P e) eqn:E; simpl in H; try discriminate; auto.
Qed.

Lemma nodup_map_filter : forall (P : elem -> bool) l,
  NoDup (map eid l) -> NoDup (map eid (filter P l)).
Proof.
  intros P l. induction l as [|e l IH]; simpl; intro H; [constructor|].
  inversion H as [|x l' Hn Hd]; subst.
  destruct (P e); simpl; [|auto].
  constructor; [|auto]. intro Hin. apply Hn.
  apply in_map_iff in Hin as [y [Hy Hin]]. apply filter_In in Hin as [Hin _].
  rewrite <- Hy. apply in_map. exact Hin.
Qed.

Lemma unselect_frame : forall sel w,
  map eid (children (unselect_previous sel w)) = map eid (children w)
  /\ next_eid (unselect_previous sel w) = next_eid w
  /\ item_count (unselect_previous sel w) = item_count w.
Proof.
  intros sel w. unfold unselect_previous.
  destruct (selected_option w); simpl; auto.
  rewrite map_eid_upd_first; auto.
Qed.

(** With at most one selected element, unselecting the previous one
    leaves none selected. *)
Lemma unselect_all : forall sel w,
  NoDup (map eid (children w)) -> (count_p aria_selected (children w) <= 1)%nat ->
  Forall (fun e => aria_selected e = false) (children (unselect_previous sel w)).
Proof.
  intros sel w. unfold unselect_previous, selected_option.
  destruct (find aria_selected (children w)) as [prev|] eqn:Hf;
    [|intros; apply find_none_forall; exact Hf].
  simpl. generalize (children w) Hf. clear w Hf. intros cs.
  unfold count_p. induction cs as [|e cs IH]; simpl; intros Hf Hd Hc; [constructor|].
  inversion Hd as [|x l Hn Hd']; subst.
  destruct (aria_selected e) eqn:Se.
  - inversion Hf; subst. rewrite Nat.eqb_refl. constructor; [reflexivity|].
    apply count_zero_forall. unfold count_p. simpl in Hc. lia.
  - assert (Hne : Nat.eqb (eid e) (eid prev) = false).
    { apply Nat.eqb_neq. intro Heq. apply Hn. rewrite Heq.
      apply in_map. eapply find_some. exact Hf. }
    rewrite Hne. constructor; [exact Se|]. apply IH; assumption.
Qed.

Lemma lookup_upd_first : forall id id' f cs,
  (forall e, eid (f e) = eid e) ->
  lookup_elem id (upd_first id' f cs)
  = option_map (fun e => if Nat.eqb id id' then f e else e) (lookup_elem id cs).
Proof.
  unfold lookup_elem. intros id id' f cs Hf.
  induction cs as [|e cs IH]; simpl; [reflexivity|].
  destruct (Nat.eqb (eid e) id') eqn:E1; simpl.
  - rewrite Hf. destruct (Nat.eqb (eid e) id) eqn:E2; simpl.
    + apply Nat.eqb_eq in E1, E2. subst. rewrite Nat.eqb_refl. reflexivity.
    + apply Nat.eqb_eq in E1. apply Nat.eqb_neq in E2. subst.
      destruct (Nat.eqb id (eid e)) eqn:E3; [apply Nat.eqb_eq in E3; congruence|].
      destruct (find _ cs); reflexivity.
  - destruct (Nat.eqb (eid e) id) eqn:E2; simpl; [|exact IH].
    apply Nat.eqb_eq in E2. subst. rewrite E1. reflexivity.
Qed.

(** Marking one element of a list with nothing selected selects it. *)
Lemma mark_selected : forall id g cs t,
  (forall e, eid (g e) = eid e) ->
  Forall (fun e => aria_selected e = false) cs -> lookup_elem id cs = Some t ->
  option_map eid (find aria_selected (upd_first id (fun e => set_selected true (g e)) cs))
  = Some id.
Proof.
  intros id g cs t Hg Hall Hl.
  destruct (lookup_split _ _ _ Hl) as [pre [post [-> [Hpre Ht]]]].
  rewrite upd_first_split by assumption.
  apply Forall_app in Hall as [Hpa _]. clear Hl.
  induction pre as [|e pre IH]; simpl.
  - simpl. rewrite Hg, Ht. reflexivity.
  - inversion Hpa; subst. inversion Hpre; subst.
    match goal with H : aria_selected e = false |- _ => rewrite H end. auto.
Qed.

Lemma count_mark_le1 : forall id f cs,
  Forall (fun e => aria_selected e = false) cs ->
  (count_p aria_selected (upd_first id f cs) <= 1)%nat.
Proof.
  unfold count_p. intros id f cs H. induction H as [|e cs He Hcs IH]; simpl; [lia|].
  destruct (Nat.eqb (eid e) id); simpl.
  - assert (length (filter aria_selected cs) = 0%nat).
    { clear -Hcs. induction Hcs as [|x l Hx _ IH]; simpl; [reflexivity|].
      rewrite Hx. exact IH. }
    destruct (aria_selected (f e)); simpl; lia.
  - rewrite He. exact IH.
Qed.

Lemma select_wf : forall cfg t w, wf w -> wf (select cfg t w).
Proof.
  intros cfg t w Hw. unfold select.
  destruct (unselect_frame (selected_classes cfg) w) as [Hm [Hn Hi]].
  assert (Hw1 : wf (unselect_previous (selected_classes cfg) w)) by (eapply wf_iff; eauto).
  destruct (_ && _); [|exact Hw1].
  eapply wf_iff; [| |exact Hw1]; simpl; [|reflexivity].
  apply map_eid_upd_first. reflexivity.
Qed.

Lemma select_dom_ok : forall cfg t w, dom_ok w -> dom_ok (select cfg t w).
Proof.
  intros cfg t w [Hw Hc]. split; [apply select_wf; exact Hw|].
  pose proof (unselect_all (selected_classes cfg) w (proj1 Hw) Hc) as Hall.
  unfold select. destruct (_ && _).
  - simpl. apply count_mark_le1. exact Hall.
  - clear -Hall. unfold count_p.
    induction Hall as [|e l He _ IH]; simpl; [lia|]. rewrite He. exact IH.
Qed.

(** ** The selection invariant across all operations *)

Lemma dom_ok_frame : forall w w',
  children w' = children w -> next_eid w' = next_eid w -> dom_ok w -> dom_ok w'.
Proof. unfold dom_ok, wf. intros w w' Hc Hn. rewrite Hc, Hn. tauto. Qed.

Ltac frame_ok H := eapply dom_ok_frame; [| |exact H]; reflexivity.

Lemma hide_and_remove_dom_ok : forall w, dom_ok (hide_and_remove_options w).
Proof.
  intros w. unfold dom_ok, wf, count_p. simpl. repeat split; try constructor. lia.
Qed.

Lemma replace_results_dom_ok : forall cfg p q w,
  dom_ok w -> dom_ok (replace_results cfg p q w).
Proof.
  intros cfg p q w [Hw Hc]. split; [apply replace_results_wf; exact Hw|].
  eapply Nat.le_trans; [apply replace_results_count_le|exact Hc]; intros; reflexivity.
Qed.

Lemma abort_last_frame : forall w,
  children (abort_last w) = children w /\ next_eid (abort_last w) = next_eid w.
Proof.
  intros w. unfold abort_last. destruct (abort_ctrl w) as [r|]; [|split; reflexivity].
  destruct (lookup_req r _) as [[? ? [| |?]]|]; split; reflexivity.
Qed.

Lemma start_abort_dom_ok : forall q w,
  dom_ok w -> dom_ok (start_request q (abort_last w)).
Proof.
  intros q w H. destruct (abort_last_frame w) as [Hc Hn].
  eapply dom_ok_frame; [| |exact H].
  - transitivity (children (abort_last w)); [reflexivity|exact Hc].
  - transitivity (next_eid (abort_last w)); [reflexivity|exact Hn].
Qed.

Lemma fetch_results_dom_ok : forall cfg q w,
  dom_ok w -> dom_ok (fetch_results cfg q w).
Proof.
  intros cfg q w H. unfold fetch_results.
  destruct (negb (has_url cfg)); [exact H|].
  assert (H1 : dom_ok (add_event EvLoadstart w)) by frame_ok H.
  destruct (build cfg); [apply start_abort_dom_ok; exact H1|].
  destruct (find_in_cache _ q) as [[p|]|].
  - pose proof (replace_results_dom_ok cfg p q _ H1) as H2. frame_ok H2.
  - frame_ok H1.
  - apply start_abort_dom_ok; exact H1.
Qed.

Lemma step_dom_ok : forall cfg ev w, dom_ok w -> dom_ok (step cfg ev w).
Proof.
  intros cfg ev w H. destruct ev as [v|r st|r|r json]; simpl.
  - unfold on_input.
    assert (H1 : dom_ok (set_input_value v w)) by frame_ok H.
    destruct (_ && _); [apply fetch_results_dom_ok; exact H1|apply hide_and_remove_dom_ok].
  - destruct (lookup_req r (requests w)) as [[? ? [| |?]]|]; try exact H.
    destruct (build cfg); destruct (response_ok st); frame_ok H.
  - destruct (lookup_req r (requests w)) as [[? ? [| |?]]|]; frame_ok H.
  - destruct (lookup_req r (requests w)) as [[? q [| |?]]|]; try exact H.
    destruct json as [data|]; [|frame_ok H].
    destruct (build cfg).
    + assert (H1 : dom_ok (set_phase r (PhDone Resolved) w)) by frame_ok H.
      pose proof (replace_results_dom_ok cfg data q _ H1) as H2. frame_ok H2.
    + assert (H1 : dom_ok (set_wcache (add_to_cache (wcache (set_phase r (PhDone Resolved) w))
                                         q data)
                             (set_abort_ctrl None (set_phase r (PhDone Resolved) w))))
        by frame_ok H.
      pose proof (replace_results_dom_ok cfg data q _ H1) as H2. frame_ok H2.
Qed.

Lemma ui_step_dom_ok : forall cfg op w, dom_ok w -> dom_ok (ui_step cfg op w).
Proof.
  intros cfg op w H. destruct op as [| | |p q|ev]; simpl.
  - unfold arrow_down. destruct (sibling true w); [apply select_dom_ok|]; exact H.
  - unfold arrow_up. destruct (sibling false w); [apply select_dom_ok|]; exact H.
  - unfold escape. destruct (negb (results_shown w)); [exact H|apply hide_and_remove_dom_ok].
  - apply replace_results_dom_ok; exact H.
  - apply step_dom_ok; exact H.
Qed.

Lemma run_ui_dom_ok : forall cfg ops w, dom_ok w -> dom_ok (run_ui cfg ops w).
Proof.
  intros cfg ops. unfold run_ui. induction ops as [|op ops IH]; simpl; intros w H;
    [exact H|].
  apply IH, ui_step_dom_ok, H.
Qed.

(** ** Arrow-key navigation *)

Lemma nth_error_last_cons : forall (A : Type) (os : list A) (o d : A),
  nth_error (o :: os) (length os) = Some (last (o :: os) d).
Proof.
  intros A os. induction os as [|o' os IH]; intros o d; [reflexivity|].
  change (nth_error (o' :: os) (length os) = Some (last (o' :: os) d)). apply IH.
Qed.

Lemma in_last_cons : forall (A : Type) (os : list A) (o d : A), In (last (o :: os) d) (o :: os).
Proof.
  intros A os. induction os as [|o' os IH]; intros o d; [left; reflexivity|].
  right. change (In (last (o' :: os) d) (o' :: os)). apply IH.
Qed.

Lemma index_of_elem_nth : forall l n x y,
  NoDup (map eid l) -> nth_error l n = Some x -> eid y = eid x ->
  index_of_elem l (Some y) = Z.of_nat n.
Proof.
  intros l. induction l as [|e l IH]; intros n x y Hd Hn Hy;
    [destruct n; discriminate|].
  inversion Hd as [|z l' Hni Hd']; subst. simpl.
  destruct n as [|n]; simpl in Hn.
  - inversion Hn; subst. rewrite Hy, Nat.eqb_refl. reflexivity.
  - assert (Hne : Nat.eqb (eid e) (eid y) = false).
    { apply Nat.eqb_neq. rewrite Hy. intro Heq. apply Hni. rewrite Heq.
      apply in_map. eapply nth_error_In. exact Hn. }
    rewrite Hne, (IH n x y Hd' Hn Hy).
    destruct (Z.of_nat n <? 0) eqn:E; [apply Z.ltb_lt in E; lia|lia].
Qed.

Lemma sibling_no_selection : forall w o os,
  selected_option w = None -> options w = o :: os ->
  sibling true w = Some o /\ sibling false w = Some (last (o :: os) o).
Proof.
  intros w o os Hs Ho. unfold sibling. rewrite Hs, Ho. simpl index_of_elem.
  split; [reflexivity|].
  assert (Hm : js_at (o :: os) (-1 - 1) = None) by reflexivity. rewrite Hm.
  unfold js_at.
  replace (Z.of_nat (length (o :: os)) - 1 <? 0) with false
    by (symmetry; apply Z.ltb_ge; simpl length; lia).
  replace (Z.to_nat (Z.of_nat (length (o :: os)) - 1)) with (length os)
    by (simpl length; lia).
  apply nth_error_last_cons.
Qed.

Lemma sibling_from_last : forall w o os s,
  NoDup (map eid (children w)) -> options w = o :: os ->
  selected_option w = Some s -> eid s = eid (last (o :: os) o) ->
  sibling true w = Some o.
Proof.
  intros w o os s Hd Ho Hs He. unfold sibling. rewrite Hs, Ho.
  assert (Hdo : NoDup (map eid (o :: os))).
  { rewrite <- Ho. apply nodup_map_filter. exact Hd. }
  rewrite (index_of_elem_nth (o :: os) (length os) (last (o :: os) o) s Hdo
             (nth_error_last_cons _ os o o) He).
  unfold js_at.
  replace (Z.of_nat (length os) + 1 <? 0) with false by (symmetry; apply Z.ltb_ge; lia).
  replace (Z.to_nat (Z.of_nat (length os) + 1)) with (length (o :: os)) by (simpl; lia).
  rewrite (proj2 (nth_error_None _ _) (Nat.le_refl _)). reflexivity.
Qed.

Lemma existsb_filter_false : forall (f g : str -> bool) l,
  existsb f l = false -> existsb f (filter g l) = false.
Proof.
  intros f g l. induction l as [|x l IH]; simpl; intro H; [reflexivity|].
  apply orb_false_iff in H as [H1 H2].
  destruct (g x); simpl; rewrite ?H1; auto.
Qed.

Lemma unselect_lookup : forall sel w id t,
  lookup_elem id (children w) = Some t ->
  exists t', lookup_elem id (children (unselect_previous sel w)) = Some t'
    /\ eid t' = eid t /\ aria_disabled t' = aria_disabled t
    /\ (forall c, has_class c t = false -> has_class c t' = false).
Proof.
  intros sel w id t Hl. unfold unselect_previous.
  destruct (selected_option w) as [prev|]; [|exists t; auto].
  simpl. rewrite lookup_upd_first by reflexivity. rewrite Hl. simpl.
  destruct (Nat.eqb id (eid prev)).
  - eexists; split; [reflexivity|]. repeat split.
    intros c Hc. unfold has_class in *. simpl. apply existsb_filter_false. exact Hc.
  - exists t; auto.
Qed.

Lemma unselect_keeps : forall (Q : elem -> Prop) sel w,
  (forall e, Q (set_selected false (remove_classes sel e))) ->
  Forall Q (children w) -> Forall Q (children (unselect_previous sel w)).
Proof.
  intros Q sel w HQ H. unfold unselect_previous.
  destruct (selected_option w); [|exact H].
  apply Forall_upd_first; [intros; apply HQ|exact H].
Qed.

(** [select] on an enabled element of a well-formed list selects it. *)
Lemma select_marks : forall cfg t w,
  wf w -> (count_p aria_selected (children w) <= 1)%nat -> In t (children w) ->
  (0 < item_count w)%nat -> has_class (lit "disabled") t = false ->
  option_map eid (selected_option (select cfg t w)) = Some (eid t).
Proof.
  intros cfg t w [Hd Hlt] Hc Hin Hi Hdis.
  set (sel := selected_classes cfg).
  destruct (unselect_lookup sel w (eid t) t (lookup_in _ _ Hd Hin))
    as [t' [Hl' [He [_ Hcl]]]].
  pose proof (unselect_all sel w Hd Hc) as Hall.
  destruct (unselect_frame sel w) as [_ [_ Hic]].
  unfold select. cbv beta zeta. fold sel. rewrite Hl', Hic.
  rewrite (proj2 (Nat.ltb_lt _ _) Hi), (Hcl _ Hdis). cbn [andb negb].
  unfold selected_option. cbn [children set_active_desc set_children].
  rewrite <- He.
  apply (mark_selected (eid t') (add_classes sel) _ t'); [reflexivity|exact Hall|].
  rewrite He. exact Hl'.
Qed.

(** [select] on an element of the options list never selects an
    [aria-disabled] element. *)
Lemma select_enabled : forall cfg t w,
  NoDup (map eid (children w)) -> In t (options w) ->
  Forall sel_enabled (children w) -> Forall sel_enabled (children (select cfg t w)).
Proof.
  intros cfg t w Hd Hin H.
  apply filter_In in Hin as [Hin Ho].
  set (sel := selected_classes cfg).
  destruct (unselect_lookup sel w (eid t) t (lookup_in _ _ Hd Hin))
    as [t' [Hl' [He [Ha _]]]].
  assert (H1 : Forall sel_enabled (children (unselect_previous sel w))).
  { apply unselect_keeps; [|exact H]. intros e Hs. discriminate. }
  unfold select. cbv beta zeta. fold sel. rewrite Hl'.
  destruct (_ && _); [|exact H1]. cbn [children set_active_desc set_children].
  destruct (lookup_split _ _ _ Hl') as [pre [post [Hsplit [Hpre Ht]]]].
  rewrite Hsplit in *. rewrite upd_first_split by (rewrite ?Ht; auto).
  apply Forall_app in H1 as [Hp Hpost]. inversion Hpost; subst.
  apply Forall_app; split; [exact Hp|]. constructor; [|assumption].
  intros _. simpl. rewrite Ha. unfold is_option in Ho.
  apply andb_true_iff in Ho as [_ Ho]. apply negb_true_iff in Ho. exact Ho.
Qed.

Lemma sibling_in : forall next w t, sibling next w = Some t -> In t (options w).
Proof.
  intros next w t. unfold sibling, js_at.
  destruct next; repeat match goal with |- context [if ?b then _ else _] => destruct b end;
    intro H; try discriminate;
    repeat match goal with
    | H : match ?x with Some _ => _ | None => _ end = _ |- _ => destruct x eqn:?
    end; try discriminate;
    repeat match goal with H : Some _ = Some _ |- _ => inversion H; subst; clear H end;
    try (eapply nth_error_In; eassumption).
Qed.

(** ** The two outcomes of the render pass *)

Lemma count_zero_find : forall (P : elem -> bool) l, count_p P l = 0%nat -> find P l = None.
Proof.
  unfold count_p. intros P l. induction l as [|e l IH]; simpl; intro H; [reflexivity|].
  destruct (P e); [discriminate|auto].
Qed.

Lemma count_strip : forall (P : elem -> bool) l l',
  (forall e, P (strip e) = P e) -> map strip l = map strip l' -> count_p P l = count_p P l'.
Proof.
  unfold count_p. intros P l. induction l as [|e l IH]; intros [|e' l'] HP H;
    cbn [map] in H; try discriminate; [reflexivity|].
  pose proof (f_equal (hd (strip e)) H) as He. pose proof (f_equal (@tl elem) H) as Hl.
  cbn [hd tl] in He, Hl. cbn [filter].
  rewrite <- (HP e), <- (HP e'), He.
  destruct (P (strip e')); cbn [length]; rewrite (IH l' HP Hl); reflexivity.
Qed.

Lemma update_results_cases : forall v its q w,
  exists w1,
    update_results v its q w
    = (if Nat.eqb (length (shown_items its q)) 0 then show_sorry v q w1 else hide_sorry v w1)
    /\ (wf w -> wf w1)
    /\ (forall P : elem -> bool, (forall b e, P (set_body b e) = P e) ->
          (forall id item parts, P (new_option id item parts) = false) ->
          (count_p P (children w1) <= count_p P (children w))%nat)
    /\ (shown_items its q = [] -> next_eid w1 = next_eid w).
Proof.
  intros v its q w. unfold update_results.
  destruct (ur_loop (options w) q its None (children w) (next_eid w) 0%nat [])
    as [[[cs next] count] shown] eqn:E.
  pose proof E as E1. apply ur_loop_shown in E1 as [Hsh Hc]. simpl in Hsh, Hc. subst.
  eexists. split; [reflexivity|]. split; [|split].
  - intros [Hd Hlt]. apply ur_loop_wf in E as [Hd' [Hlt' _]]; [|exact Hd|exact Hlt].
    destruct (remove_unshown_wf (options w) (shown_items its q) cs _ Hd' Hlt').
    split; assumption.
  - intros P Hb Hn. simpl.
    rewrite <- (ur_loop_count _ _ P Hb Hn _ _ _ _ _ _ _ _ _ _ E).
    apply remove_unshown_count_le.
  - intros H0. rewrite ur_loop_none_shown in E by exact H0.
    inversion E; subst. reflexivity.
Qed.

(** Re-rendering the items that are already on display. *)
Lemma update_results_reuse : forall v its q w,
  map value (options w) = map Some (shown_items its q) ->
  count_p (is_sorry v) (children w) = 0%nat -> shown_items its q <> [] ->
  map strip (children (update_results v its q w)) = map strip (children w)
  /\ next_eid (update_results v its q w) = next_eid w.
Proof.
  intros v its q w Hv Hs Hne. unfold update_results.
  destruct (ur_loop (options w) q its None (children w) (next_eid w) 0%nat [])
    as [[[cs next] count] shown] eqn:E.
  pose proof E as E1. apply ur_loop_shown in E1 as [Hsh Hc]. simpl in Hsh, Hc. subst.
  pose proof E as E2.
  apply ur_loop_reuse in E2 as [Hcs Hnx].
  2:{ intros item Hin. apply (in_map Some) in Hin. rewrite <- Hv in Hin.
      apply in_map_iff in Hin as [li [Hli Hin]]. exists li. split; [exact Hin|].
      unfold value_is. rewrite Hli. apply str_eqb_eq. reflexivity. }
  subst next.
  rewrite remove_unshown_keep.
  2:{ apply Forall_forall. intros li Hin. unfold value_shown.
      assert (Hm : In (value li) (map Some (shown_items its q)))
        by (rewrite <- Hv; apply in_map; exact Hin).
      apply in_map_iff in Hm as [x [Hx Hin']]. rewrite <- Hx.
      apply existsb_exists. exists x. split; [exact Hin'|]. apply str_eqb_eq. reflexivity. }
  assert (Hlen : Nat.eqb (length (shown_items its q)) 0 = false).
  { apply Nat.eqb_neq. destruct (shown_items its q); [congruence|simpl; lia]. }
  rewrite Hlen. unfold hide_sorry. simpl children.
  rewrite count_zero_find.
  - simpl. split; [exact Hcs|reflexivity].
  - rewrite (count_strip _ cs (children w)); [exact Hs| |exact Hcs].
    intro e. destruct v; reflexivity.
Qed.

Lemma update_results_nothing_shown : forall v its q w,
  map value (options w) = map Some (shown_items its q) ->
  count_p (is_sorry v) (children w) = 0%nat -> shown_items its q = [] ->
  children (update_results v its q w) = children w ++ [sorry_elem (next_eid w) q]
  /\ next_eid (update_results v its q w) = S (next_eid w).
Proof.
  intros v its q w Hv Hs H0. unfold update_results.
  rewrite ur_loop_none_shown by exact H0. rewrite H0 in Hv.
  destruct (options w) eqn:Ho; [|discriminate].
  simpl. unfold show_sorry. destruct v; [split; reflexivity|].
  unfold hide_sorry. simpl children. rewrite count_zero_find by exact Hs.
  split; reflexivity.
Qed.

(** ** The merged item list *)

Lemma existsb_str_in : forall x l, existsb (str_eqb x) l = true <-> In x l.
Proof.
  intros x l. rewrite existsb_exists. split.
  - intros [y [Hy He]]. apply str_eqb_eq in He. subst. exact Hy.
  - intros H. exists x. split; [exact H|]. apply str_eqb_eq. reflexivity.
Qed.

Lemma subseq_filter : forall (A : Type) (f : A -> bool) l, subseq (filter f l) l.
Proof.
  intros A f l. induction l as [|x l IH]; simpl; [constructor|].
  destruct (f x); constructor; exact IH.
Qed.

Lemma count_occ_filter_keep : forall (f : str -> bool) l x,
  f x = true ->
  count_occ (list_eq_dec Z.eq_dec) (filter f l) x = count_occ (list_eq_dec Z.eq_dec) l x.
Proof.
  intros f l x Hx. induction l as [|y l IH]; simpl; [reflexivity|].
  destruct (f y) eqn:Hy; simpl; destruct (list_eq_dec Z.eq_dec y x) as [->|Hne];
    try congruence; rewrite IH; reflexivity.
Qed.

(** ** Requests through the fetch cycle *)

Lemma abort_last_req : forall w,
  next_req (abort_last w) = next_req w /\ wcache (abort_last w) = wcache w.
Proof.
  intros w. unfold abort_last. destruct (abort_ctrl w) as [r|]; [|split; reflexivity].
  destruct (lookup_req r _) as [[? ? [| |?]]|]; split; reflexivity.
Qed.

Lemma input_starts_request : forall cfg v w,
  has_url cfg = true ->
  negb (str_eqb (js_trim v) []) && (min_length cfg <=? js_length (js_trim v)) = true ->
  (build cfg = Cached -> find_in_cache (wcache w) (js_trim v) = None) ->
  exists rs, requests (step cfg (Input v) w) = mk_req (next_req w) (js_trim v) PhFetch :: rs.
Proof.
  intros cfg v w Hu Hq Hc. unfold step, on_input. cbv beta zeta. rewrite Hq.
  unfold fetch_results. rewrite Hu. cbv beta zeta iota.
  set (w0 := add_event EvLoadstart (set_input_value v w)).
  assert (Hs : exists rs, requests (start_request (js_trim v) (abort_last w0))
                          = mk_req (next_req w) (js_trim v) PhFetch :: rs).
  { exists (requests (abort_last w0)). unfold start_request.
    rewrite (proj1 (abort_last_req w0)). reflexivity. }
  destruct (build cfg); [exact Hs|].
  replace (find_in_cache (wcache w0) (js_trim v)) with (@None cval)
    by (symmetry; apply Hc; reflexivity).
  exact Hs.
Qed.

Lemma req_phase_set : forall r q ph ph' rs w,
  requests w = mk_req r q ph' :: rs -> req_phase r (set_phase r ph w) = Some ph.
Proof.
  intros r q ph ph' rs w H. unfold req_phase, set_phase, lookup_req. simpl.
  rewrite H. simpl. rewrite Nat.eqb_refl. simpl. rewrite Nat.eqb_refl. reflexivity.
Qed.

Lemma lookup_head : forall r q ph rs w,
  requests w = mk_req r q ph :: rs -> lookup_req r (requests w) = Some (mk_req r q ph).
Proof.
  intros r q ph rs w H. unfold lookup_req. rewrite H. simpl. rewrite Nat.eqb_refl.
  reflexivity.
Qed.

Lemma reject_head : forall r q ph rs e w,
  requests w = mk_req r q ph :: rs ->
  events (reject r e w) = events w ++ [EvError; EvLoadend]
  /\ req_phase r (reject r e w) = Some (PhDone (Rejected e)).
Proof.
  intros r q ph rs e w H. split.
  - unfold reject, add_event. simpl. rewrite <- app_assoc. reflexivity.
  - apply (req_phase_set r q _ ph rs w H).
Qed.

Lemma replace_results_requests : forall cfg p q w,
  requests (replace_results cfg p q w) = requests w.
Proof.
  intros cfg p q w. unfold replace_results. simpl truthy. cbv beta zeta iota.
  transitivity (requests (update_results (build cfg) (get_unique_item_list p) q w)).
  - unfold open_results, identify_options.
    destruct (identify _ _ _) as [cs n].
    destruct (results_shown _); reflexivity.
  - unfold update_results.
    destruct (ur_loop _ _ _ _ _ _ _ _) as [[[cs next] count] shown].
    unfold show_sorry, hide_sorry.
    destruct (Nat.eqb count 0); destruct (build cfg);
      repeat match goal with |- context [match ?x with Some _ => _ | None => _ end] =>
                               destruct x end; reflexivity.
Qed.

Lemma body_resolves : forall cfg r q rs p w,
  requests w = mk_req r q PhBody :: rs ->
  exists pre, events (step cfg (NetBody r (Some p)) w) = pre ++ [EvLoad; EvLoadend]
    /\ req_phase r (step cfg (NetBody r (Some p)) w) = Some (PhDone Resolved).
Proof.
  intros cfg r q rs p w H. unfold step. rewrite (lookup_head _ _ _ _ _ H).
  cbv beta zeta iota.
  set (w3 := set_phase r (PhDone Resolved) w).
  assert (H3 : req_phase r w3 = Some (PhDone Resolved))
    by (apply (req_phase_set r q _ PhBody rs w H)).
  destruct (build cfg); eexists; split;
    try (cbn [add_event set_events events]; rewrite <- app_assoc; reflexivity);
    unfold req_phase; cbn [add_event set_events requests];
    rewrite replace_results_requests; exact H3.
Qed.

(** * The specification's claims *)

(** C1 (amended): when the cache holds a complete ([partial = false])
    entry under the lowercased [q1], and lowercased [q1] is a prefix of
    lowercased [q2], [fetch(q2)] is answered from the cache with no
    network request.  An entry stored under lowercased [q2] itself is
    returned first.  Otherwise, if lowercased [q2] is not a property
    inherited from [Object.prototype], the answer is the entry of the
    first key in [Object.keys] order that is complete and a prefix of
    lowercased [q2]; it is [q1]'s payload when no such key comes before
    lowercased [q1].  A network request is made only when there is no
    exact entry and no complete prefix entry. *)
Theorem cache_prefix_hit : forall c q1 q2 p1,
  own_lookup (c_own c) (js_to_lower q1) = Some p1 -> partial p1 = false ->
  starts_with (js_to_lower q2) (js_to_lower q1) = true ->
  (exists v, cache_fetch c q2 = FromCache v)
  /\ (forall p2, own_lookup (c_own c) (js_to_lower q2) = Some p2 ->
        cache_fetch c q2 = FromCache (CEntry p2))
  /\ (own_lookup (c_own c) (js_to_lower q2) = None -> proto_get c (js_to_lower q2) = None ->
      forall ks1 ks2, object_keys c = ks1 ++ js_to_lower q1 :: ks2 ->
      Forall (fun k => scan_keys c (js_to_lower q2) [k] = None) ks1 ->
      cache_fetch c q2 = FromCache (CEntry p1))
  /\ (forall q, cache_fetch c q = Network q ->
        own_lookup (c_own c) (js_to_lower q) = None
        /\ forall k p, own_lookup (c_own c) k = Some p -> partial p = false ->
             starts_with (js_to_lower q) k = false).
Proof.
  intros c q1 q2 p1 Hl Hp Hs.
  assert (Hin : In (js_to_lower q1) (object_keys c))
    by (apply in_object_keys; eapply own_lookup_in_keys; exact Hl).
  split; [|split; [|split]].
  - unfold cache_fetch, find_in_cache, cache_get.
    destruct (own_lookup (c_own c) (js_to_lower q2)); [eexists; reflexivity|].
    destruct (proto_get c (js_to_lower q2)) as [[|]|];
      [eexists; reflexivity| |];
      destruct (scan_keys_finds c (js_to_lower q2) _ _ _ Hin Hl Hp Hs) as [v Hv];
      rewrite Hv; eexists; reflexivity.
  - intros p2 H2. unfold cache_fetch, find_in_cache, cache_get. rewrite H2. reflexivity.
  - intros H2 Hpr ks1 ks2 Hk Hf. unfold cache_fetch, find_in_cache, cache_get.
    rewrite H2, Hpr, Hk, scan_keys_app, scan_keys_none by exact Hf.
    simpl. rewrite Hl, Hp, Hs. reflexivity.
  - intros q Hn. unfold cache_fetch, find_in_cache, cache_get in Hn.
    destruct (own_lookup (c_own c) (js_to_lower q)); [discriminate|].
    split; [reflexivity|]. intros k p Hk Hpk.
    destruct (starts_with (js_to_lower q) k) eqn:Hsk; [|reflexivity].
    assert (Hink : In k (object_keys c))
      by (apply in_object_keys; eapply own_lookup_in_keys; exact Hk).
    destruct (scan_keys_finds c (js_to_lower q) _ _ _ Hink Hk Hpk Hsk) as [v Hv].
    destruct (proto_get c (js_to_lower q)) as [[|]|]; [discriminate| |];
      rewrite Hv in Hn; discriminate.
Qed.

Lemma cache_prefix_hit_witness :
  own_lookup (c_own prefix_cache) (js_to_lower (lit "jo")) = Some p_jo
  /\ partial p_jo = false
  /\ starts_with (js_to_lower (lit "John")) (js_to_lower (lit "jo")) = true
  /\ cache_fetch prefix_cache (lit "John") = FromCache (CEntry p_jo).
Proof.
  refine (conj _ (conj _ (conj _ _))); [vm_compute; reflexivity..|].
  apply (proj1 (proj2 (proj2 (cache_prefix_hit prefix_cache (lit "jo") (lit "John") p_jo
            ltac:(vm_compute; reflexivity) ltac:(vm_compute; reflexivity)
            ltac:(vm_compute; reflexivity)))))
    with (ks1 := []) (ks2 := [lit "joh"]); vm_compute; first [reflexivity|constructor].
Defined.

(** C1 counterexample: ["joh"] has a complete entry and is a
    case-insensitive prefix of ["John"], yet [fetch("John")] answers with
    the entry of ["jo"], the first complete prefix key. *)
Lemma cache_prefix_counterexample :
  own_lookup (c_own prefix_cache) (js_to_lower (lit "joh")) = Some p_joh
  /\ partial p_joh = false
  /\ starts_with (js_to_lower (lit "John")) (js_to_lower (lit "joh")) = true
  /\ cache_fetch prefix_cache (lit "John") = FromCache (CEntry p_jo)
  /\ p_jo <> p_joh.
Proof.
  refine (conj _ (conj _ (conj _ (conj _ _)))); [vm_compute; reflexivity..|].
  intro H. discriminate H.
Qed.

(** C2 (amended): when the merged list renders no item, the pass ends
    with the disabled placeholder [sorry_elem] (no option role,
    [aria-disabled], class [disabled], text [No results found for
    "<query>"]) as the last child of the results container, and
    [replaceResults] leaves the list open.  That placeholder is then the
    only one when none was there before, and in the Cached build
    whenever at most one was there before.  When at least one item
    renders, no placeholder is left if at most one was there before. *)
Theorem render_no_results : forall cfg p q w,
  (shown_items (get_unique_item_list p) q = [] ->
     (exists pre id, children (replace_results cfg p q w) = pre ++ [sorry_elem id q])
     /\ results_shown (replace_results cfg p q w) = true
     /\ (wf w ->
         (count_p (is_sorry (build cfg)) (children w) = 0%nat
          \/ (build cfg = Cached /\ (count_p (is_sorry (build cfg)) (children w) <= 1)%nat)) ->
         count_p (is_sorry (build cfg)) (children (replace_results cfg p q w)) = 1%nat))
  /\ (shown_items (get_unique_item_list p) q <> [] -> wf w ->
      (count_p (is_sorry (build cfg)) (children w) <= 1)%nat ->
      count_p (is_sorry (build cfg)) (children (replace_results cfg p q w)) = 0%nat).
Proof.
  intros cfg p q w.
  destruct (replace_results_frame cfg p q w) as [[n Hc] [_ [Hrs _]]].
  destruct (update_results_cases (build cfg) (get_unique_item_list p) q w)
    as [w1 [Hu [Hwf [Hcnt _]]]].
  set (v := build cfg) in *.
  assert (HP : forall P : elem -> bool, (forall i e, P (set_dom_id i e) = P e) ->
                 count_p P (children (replace_results cfg p q w))
                 = count_p P (children (update_results v (get_unique_item_list p) q w))).
  { intros P HP. rewrite Hc. apply identify_count. exact HP. }
  assert (Hv1 : forall i e, is_sorry v (set_dom_id i e) = is_sorry v e)
    by (intros; destruct v; reflexivity).
  assert (Hc1 : (count_p (is_sorry v) (children w1) <= count_p (is_sorry v) (children w))%nat)
    by (apply Hcnt; intros; destruct v; reflexivity).
  split.
  - intros H0. rewrite H0 in Hu. simpl in Hu. rewrite Hu in Hc, HP.
    set (w0 := match v with Plain => w1 | Cached => hide_sorry v w1 end).
    assert (Hch : children (show_sorry v q w1) = children w0 ++ [sorry_elem (next_eid w0) q])
      by reflexivity.
    rewrite Hch in Hc, HP. rewrite identify_app_last in Hc by reflexivity.
    split; [eexists; eexists; exact Hc|split; [exact Hrs|]].
    intros Hw Hpre. rewrite (HP _ Hv1), count_app.
    assert (Hs1 : count_p (is_sorry v) [sorry_elem (next_eid w0) q] = 1%nat)
      by (destruct v; reflexivity).
    rewrite Hs1.
    assert (H00 : count_p (is_sorry v) (children w0) = 0%nat).
    { unfold w0. destruct Hpre as [Hz|[Hcached Hle]].
      - destruct v; [lia|].
        pose proof (hide_sorry_count_le (is_sorry Cached) Cached w1). lia.
      - rewrite Hcached. rewrite Hcached in Hc1, Hle.
        apply hide_sorry_clears; [apply Hwf; exact Hw|lia]. }
    lia.
  - intros Hne Hw Hle.
    assert (Hlen : Nat.eqb (length (shown_items (get_unique_item_list p) q)) 0 = false).
    { apply Nat.eqb_neq. destruct (shown_items _ q); [congruence|simpl; lia]. }
    rewrite Hlen in Hu. rewrite (HP _ Hv1), Hu.
    apply hide_sorry_clears; [apply Hwf; exact Hw|lia].
Qed.

Lemma render_no_results_witness :
  (exists pre id, children (replace_results (demo_cfg Cached) p_none (lit "zz") zero_render)
                  = pre ++ [sorry_elem id (lit "zz")])
  /\ results_shown (replace_results (demo_cfg Cached) p_none (lit "zz") zero_render) = true
  /\ count_p (is_sorry Cached)
       (children (replace_results (demo_cfg Cached) p_none (lit "zz") zero_render)) = 1%nat.
Proof.
  destruct (proj1 (render_no_results (demo_cfg Cached) p_none (lit "zz") zero_render)
              ltac:(vm_compute; reflexivity)) as [H1 [H2 H3]].
  split; [exact H1|split; [exact H2|]].
  apply H3.
  - split; vm_compute; repeat constructor; simpl; intuition discriminate.
  - right. split; [reflexivity|vm_compute; repeat constructor].
Defined.

(** C2 counterexample: a response with no items leaves the results list
    open, showing the placeholder. *)
Lemma render_no_results_counterexample :
  shown_items (get_unique_item_list p_none) (lit "zz") = []
  /\ results_shown (replace_results (demo_cfg Plain) p_none (lit "zz") empty_widget) = true
  /\ children (replace_results (demo_cfg Plain) p_none (lit "zz") empty_widget)
     = [sorry_elem 0 (lit "zz")].
Proof. vm_compute. split; [reflexivity|split; reflexivity]. Qed.

(** C3: the merged list is [exact_items] followed by a tail that keeps
    the elements of [items] not in [exact_items], in their order and
    with their multiplicity; no element of [exact_items] is in the tail. *)
Theorem unique_item_list_shape : forall p,
  exists tail, get_unique_item_list p = exact_items p ++ tail
    /\ subseq tail (items p)
    /\ (forall x, In x tail <-> In x (items p) /\ ~ In x (exact_items p))
    /\ (forall x, ~ In x (exact_items p) ->
          count_occ (list_eq_dec Z.eq_dec) tail x
          = count_occ (list_eq_dec Z.eq_dec) (items p) x).
Proof.
  intros p. eexists. split; [reflexivity|]. split; [apply subseq_filter|]. split.
  - intros x. rewrite filter_In, negb_true_iff.
    split; intros [H1 H2]; split; try exact H1.
    + intro Hx. apply existsb_str_in in Hx. congruence.
    + destruct (existsb (str_eqb x) (exact_items p)) eqn:E; [|reflexivity].
      apply existsb_str_in in E. contradiction.
  - intros x Hx. apply count_occ_filter_keep.
    destruct (existsb (str_eqb x) (exact_items p)) eqn:E; [|reflexivity].
    apply existsb_str_in in E. contradiction.
Qed.

(** C4 (code bug): ["İstanbul"] contains ["stan"] from its second code
    unit, but the match position is taken in the lowercased item, which
    is one code unit longer, and applied to the original item: the
    rendered option emphasises ["tanb"], after the unhighlighted ["İs"]. *)
Theorem highlight_dotted_capital :
  index_of istanbul (lit "stan") = 1
  /\ index_of (js_to_lower istanbul) (js_to_lower (lit "stan")) = 2
  /\ map body (children (update_results Plain [istanbul] (lit "stan") empty_widget))
     = [[Text [304; 115]; Em (lit "tanb"); Text (lit "ul")]].
Proof. vm_compute. split; [reflexivity|split; reflexivity]. Qed.

(** C5 (amended): re-running the render pass with an item list whose
    rendered items are those of the options on display, with no
    placeholder present, neither creates nor removes an element when at
    least one item renders: every child keeps its identity and
    attributes, only its highlighted-text children are replaced.  When
    no item renders, the pass appends a newly created placeholder. *)
Theorem rerender_keeps_elements : forall v its q w,
  map value (options w) = map Some (shown_items its q) ->
  count_p (is_sorry v) (children w) = 0%nat ->
  (shown_items its q <> [] ->
     map strip (children (update_results v its q w)) = map strip (children w)
     /\ next_eid (update_results v its q w) = next_eid w)
  /\ (shown_items its q = [] ->
     children (update_results v its q w) = children w ++ [sorry_elem (next_eid w) q]
     /\ next_eid (update_results v its q w) = S (next_eid w)).
Proof.
  intros v its q w Hv Hs. split.
  - intros Hne. apply update_results_reuse; assumption.
  - intros H0. apply update_results_nothing_shown; assumption.
Qed.

Lemma rerender_keeps_elements_witness :
  map strip (children (update_results Plain [lit "ab"; lit "ac"] (lit "a") two_rendered))
  = map strip (children two_rendered)
  /\ next_eid (update_results Plain [lit "ab"; lit "ac"] (lit "a") two_rendered)
     = next_eid two_rendered.
Proof.
  apply (proj1 (rerender_keeps_elements Plain [lit "ab"; lit "ac"] (lit "a") two_rendered
                  ltac:(vm_compute; reflexivity) ltac:(vm_compute; reflexivity))).
  vm_compute. discriminate.
Defined.

(** C5 counterexample: rendering an empty item list twice replaces the
    placeholder element [0] by a new element [1]. *)
Lemma rerender_counterexample :
  options zero_render = [] /\ shown_items [] (lit "zz") = []
  /\ map eid (children zero_render) = [0%nat]
  /\ map eid (children (update_results Cached [] (lit "zz") zero_render)) = [1%nat].
Proof. vm_compute. repeat split. Qed.

(** C6: on a well-formed list with at most one selected element, a
    positive item count and no option carrying class [disabled]:
    ArrowDown with nothing selected selects the first option, ArrowUp
    with nothing selected the last one, ArrowDown from the last option
    selects the first one; and no arrow key ever selects an element that
    is [aria-disabled] (the placeholder). *)
Theorem arrow_keys_navigation : forall cfg w o os,
  wf w -> (count_p aria_selected (children w) <= 1)%nat -> (0 < item_count w)%nat ->
  options w = o :: os ->
  Forall (fun e => has_class (lit "disabled") e = false) (options w) ->
  (selected_option w = None ->
     option_map eid (selected_option (arrow_down cfg w)) = Some (eid o)
     /\ option_map eid (selected_option (arrow_up cfg w)) = Some (eid (last (o :: os) o)))
  /\ (option_map eid (selected_option w) = Some (eid (last (o :: os) o)) ->
     option_map eid (selected_option (arrow_down cfg w)) = Some (eid o))
  /\ (forall w', NoDup (map eid (children w')) -> Forall sel_enabled (children w') ->
       Forall sel_enabled (children (arrow_down cfg w'))
       /\ Forall sel_enabled (children (arrow_up cfg w'))).
Proof.
  intros cfg w o os Hw Hc Hi Ho Hdis.
  assert (Hopt : forall t, In t (o :: os) -> In t (children w)
                             /\ has_class (lit "disabled") t = false).
  { intros t Ht. rewrite <- Ho in Ht. split.
    - apply filter_In in Ht as [Ht _]. exact Ht.
    - rewrite Forall_forall in Hdis. apply Hdis. exact Ht. }
  split; [|split].
  - intros Hs. destruct (sibling_no_selection w o os Hs Ho) as [Hd Hu].
    unfold arrow_down, arrow_up. rewrite Hd, Hu.
    destruct (Hopt o (or_introl eq_refl)) as [Hin Hnd].
    destruct (Hopt _ (in_last_cons _ os o o)) as [Hin' Hnd'].
    split; apply select_marks; assumption.
  - intros Hs. destruct (selected_option w) as [s|] eqn:Es; [|discriminate].
    injection Hs as Hs.
    unfold arrow_down. rewrite (sibling_from_last w o os s (proj1 Hw) Ho Es Hs).
    destruct (Hopt o (or_introl eq_refl)) as [Hin Hnd].
    apply select_marks; assumption.
  - intros w' Hd He. unfold arrow_down, arrow_up. split.
    + destruct (sibling true w') as [t|] eqn:Et; [|exact He].
      apply select_enabled; [exact Hd|eapply sibling_in; exact Et|exact He].
    + destruct (sibling false w') as [t|] eqn:Et; [|exact He].
      apply select_enabled; [exact Hd|eapply sibling_in; exact Et|exact He].
Qed.

Lemma arrow_keys_navigation_witness :
  option_map eid (selected_option (arrow_down (demo_cfg Plain) nav_widget))
  = Some (eid (hd (sorry_elem 0 []) (options nav_widget)))
  /\ option_map eid (selected_option (arrow_up (demo_cfg Plain) nav_widget))
     = Some (eid (last (options nav_widget) (hd (sorry_elem 0 []) (options nav_widget)))).
Proof.
  apply (proj1 (arrow_keys_navigation (demo_cfg Plain) nav_widget
                  (hd (sorry_elem 0 []) (options nav_widget)) (tl (options nav_widget))
                  ltac:(split; vm_compute; repeat constructor; simpl; intuition discriminate)
                  ltac:(vm_compute; repeat constructor)
                  ltac:(vm_compute; repeat constructor)
                  ltac:(vm_compute; reflexivity)
                  ltac:(vm_compute; repeat constructor))).
  vm_compute. reflexivity.
Defined.

(** C7: once the input starts a request [r] (URL set, trimmed query
    long enough, and for the Cached build not answered by the cache): a
    response with a non-2xx status, or a transport failure, dispatches
    [error] then [loadend] and rejects the request (with the status
    error, or the transport error); a 2xx response whose body parses
    ends with [load] then [loadend] and resolves the request. *)
Theorem fetch_failure_events : forall cfg v w,
  has_url cfg = true ->
  negb (str_eqb (js_trim v) []) && (min_length cfg <=? js_length (js_trim v)) = true ->
  (build cfg = Cached -> find_in_cache (wcache w) (js_trim v) = None) ->
  (forall st, response_ok st = false ->
     events (step cfg (NetHeaders (next_req w) st) (step cfg (Input v) w))
     = events (step cfg (Input v) w) ++ [EvError; EvLoadend]
     /\ req_phase (next_req w) (step cfg (NetHeaders (next_req w) st) (step cfg (Input v) w))
        = Some (PhDone (Rejected (match build cfg with
                                  | Plain => ErrServerStatus st
                                  | Cached => ErrStatusText st end))))
  /\ (events (step cfg (NetFail (next_req w)) (step cfg (Input v) w))
      = events (step cfg (Input v) w) ++ [EvError; EvLoadend]
      /\ req_phase (next_req w) (step cfg (NetFail (next_req w)) (step cfg (Input v) w))
         = Some (PhDone (Rejected ErrTransport)))
  /\ (forall st p, response_ok st = true ->
      exists pre,
        events (run cfg [NetHeaders (next_req w) st; NetBody (next_req w) (Some p)]
                    (step cfg (Input v) w)) = pre ++ [EvLoad; EvLoadend]
        /\ req_phase (next_req w)
             (run cfg [NetHeaders (next_req w) st; NetBody (next_req w) (Some p)]
                  (step cfg (Input v) w)) = Some (PhDone Resolved)).
Proof.
  intros cfg v w Hu Hq Hc.
  destruct (input_starts_request cfg v w Hu Hq Hc) as [rs Hrs].
  set (w1 := step cfg (Input v) w) in *. set (r := next_req w) in *.
  pose proof (lookup_head _ _ _ _ _ Hrs) as Hl.
  split; [|split].
  - intros st Hst. unfold step. rewrite Hl.
    destruct (build cfg); rewrite Hst.
    + apply (reject_head r (js_trim v) PhFetch rs _ (set_abort_ctrl None w1) Hrs).
    + apply (reject_head r (js_trim v) PhFetch rs _ w1 Hrs).
  - unfold step. rewrite Hl. apply (reject_head r (js_trim v) PhFetch rs _ w1 Hrs).
  - intros st p Hst. unfold run. simpl fold_left.
    set (w2 := step cfg (NetHeaders r st) w1).
    assert (H2 : requests w2 = mk_req r (js_trim v) PhBody :: rs).
    { unfold w2, step. rewrite Hl. unfold set_phase.
      destruct (build cfg); rewrite Hst; simpl; rewrite Hrs; simpl;
        rewrite Nat.eqb_refl; reflexivity. }
    apply (body_resolves cfg r (js_trim v) rs p w2 H2).
Qed.

Lemma fetch_failure_events_witness :
  events (step (demo_cfg Plain) (NetFail 0) (step (demo_cfg Plain) (Input (lit "jo")) empty_widget))
  = events (step (demo_cfg Plain) (Input (lit "jo")) empty_widget) ++ [EvError; EvLoadend]
  /\ req_phase 0 (step (demo_cfg Plain) (NetFail 0)
                    (step (demo_cfg Plain) (Input (lit "jo")) empty_widget))
     = Some (PhDone (Rejected ErrTransport)).
Proof.
  apply (proj1 (proj2 (fetch_failure_events (demo_cfg Plain) (lit "jo") empty_widget
                         eq_refl ltac:(vm_compute; reflexivity)
                         ltac:(intro H; discriminate H)))).
Defined.

(** C8 (code bug): in the Plain build [doFetch] clears the abort
    controller as soon as the headers arrive, so a second input does not
    abort a request that is reading its body: two requests are in flight
    at once, and the older response, settling last, replaces the list
    for ["joh"] by the results for ["jo"].  In the Cached build a cache
    hit does not abort the request in flight either: the results for
    ["jo"] are rendered (and cached) while the input reads ["a"]. *)
Theorem stale_response_rendered :
  in_flight (run (demo_cfg Plain) (firstn 4 overlap_trace) empty_widget) = [1%nat; 0%nat]
  /\ input_value (run (demo_cfg Plain) overlap_trace empty_widget) = lit "joh"
  /\ map value (options (run (demo_cfg Plain) overlap_trace empty_widget))
     = [Some (lit "jo"); Some (lit "joe"); Some (lit "john")]
  /\ input_value (run (demo_cfg Cached) cache_hit_trace cached_widget) = lit "a"
  /\ map value (options (run (demo_cfg Cached) cache_hit_trace cached_widget))
     = [Some (lit "jo"); Some (lit "joe"); Some (lit "john")]
  /\ own_lookup (c_own (wcache (run (demo_cfg Cached) cache_hit_trace cached_widget)))
       (lit "jo") = Some p_a_jo.
Proof. vm_compute. repeat split. Qed.

(** C9: from a well-formed list with at most one [aria-selected]
    element, every sequence of arrow keys, Escape, renders and network
    steps keeps at most one selected element; [select] first clears the
    previously selected element, leaving none selected before it marks
    the target. *)
Theorem selection_unique : forall cfg ops w,
  dom_ok w ->
  (count_p aria_selected (children (run_ui cfg ops w)) <= 1)%nat
  /\ Forall (fun e => aria_selected e = false)
       (children (unselect_previous (selected_classes cfg) (run_ui cfg ops w))).
Proof.
  intros cfg ops w H. destruct (run_ui_dom_ok cfg ops w H) as [[Hd Hlt] Hc].
  split; [exact Hc|]. apply unselect_all; assumption.
Qed.

Lemma selection_unique_witness :
  (count_p aria_selected
     (children (run_ui (demo_cfg Plain) [OpRender p_two (lit "a"); OpDown; OpDown; OpUp; OpUp]
                  empty_widget)) <= 1)%nat.
Proof.
  apply (proj1 (selection_unique (demo_cfg Plain)
                  [OpRender p_two (lit "a"); OpDown; OpDown; OpUp; OpUp] empty_widget
                  ltac:(split; [split; constructor|vm_compute; repeat constructor]))).
Defined.

(** C10: [replaceResults] always opens the results list: the truthiness
    test of the options array never fails, the list ends up shown, and
    the only event it adds is the [toggle] of opening a closed list. *)
Theorem replace_results_always_opens : forall cfg p q w,
  (forall w', truthy (array_value (options w')) = true)
  /\ results_shown (replace_results cfg p q w) = true
  /\ events (replace_results cfg p q w)
     = events w ++ (if results_shown w then [] else [EvToggle true]).
Proof.
  intros cfg p q w. split; [reflexivity|].
  destruct (replace_results_frame cfg p q w) as [_ [_ [Hs He]]]. auto.
Qed.

(** * Further properties of the code *)

(** ** Slices and highlighted text *)

Lemma slice_concat : forall s p q, 0 <= p <= q ->
  js_slice s 0 p ++ js_slice s p q ++ js_slice_from s q = s.
Proof.
  intros s p q Hpq. unfold js_slice_from, js_slice, rel_index, js_length.
  set (n := length s).
  replace (0 <? 0) with false by reflexivity.
  replace (p <? 0) with false by (symmetry; apply Z.ltb_ge; lia).
  replace (q <? 0) with false by (symmetry; apply Z.ltb_ge; lia).
  replace (Z.of_nat n <? 0) with false by (symmetry; apply Z.ltb_ge; lia).
  replace (Z.min 0 (Z.of_nat n)) with 0 by lia.
  replace (Z.min (Z.of_nat n) (Z.of_nat n)) with (Z.of_nat n) by lia.
  set (a := Z.to_nat (Z.min p (Z.of_nat n))).
  set (b := Z.to_nat (Z.min q (Z.of_nat n))).
  replace (Z.to_nat (Z.min p (Z.of_nat n) - 0)) with a by (unfold a; f_equal; lia).
  replace (Z.to_nat (Z.min q (Z.of_nat n) - Z.min p (Z.of_nat n))) with (b - a)%nat
    by (unfold a, b; lia).
  replace (Z.to_nat (Z.of_nat n - Z.min q (Z.of_nat n))) with (n - b)%nat
    by (unfold b; lia).
  assert (Hab : (a <= b <= n)%nat) by (unfold a, b; lia).
  simpl skipn.
  rewrite (firstn_all2 (n := (n - b)%nat)) by (rewrite length_skipn; unfold n; lia).
  replace (skipn b s) with (skipn (b - a) (skipn a s))
    by (rewrite skipn_skipn; f_equal; lia).
  rewrite !firstn_skipn. reflexivity.
Qed.

(** The three parts [highlight] renders spell out the item. *)
Lemma highlight_text : forall item query parts,
  highlight item query = Some parts -> flat_map node_text parts = item.
Proof.
  intros item query parts. unfold highlight.
  set (pos := index_of (js_to_lower item) (js_to_lower query)).
  destruct (pos >=? 0) eqn:E; [|discriminate]. intro H. inversion H; subst. clear H.
  apply Z.geb_le in E. simpl. rewrite !app_nil_r.
  apply slice_concat. unfold js_length. lia.
Qed.

(** ** Options display their values *)

Lemma nodup_eid_inj : forall l x y,
  NoDup (map eid l) -> In x l -> In y l -> eid x = eid y -> x = y.
Proof.
  intros l. induction l as [|e l IH]; simpl; intros x y Hd Hx Hy He; [destruct Hx|].
  inversion Hd as [|z l' Hn Hd']; subst.
  destruct Hx as [<-|Hx], Hy as [<-|Hy]; auto.
  - exfalso. apply Hn. rewrite He. apply in_map. exact Hy.
  - exfalso. apply Hn. rewrite <- He. apply in_map. exact Hx.
Qed.

Lemma Forall_upd_first_id : forall (Q : elem -> Prop) id f cs,
  (forall e, In e cs -> eid e = id -> Q (f e)) -> Forall Q cs -> Forall Q (upd_first id f cs).
Proof.
  intros Q id f cs Hf H. induction H as [|e cs He Hcs IH]; simpl; [constructor|].
  destruct (Nat.eqb (eid e) id) eqn:E.
  - constructor; [apply Hf; [left; reflexivity|apply Nat.eqb_eq; exact E]|exact Hcs].
  - constructor; [exact He|]. apply IH. intros x Hx. apply Hf. right. exact Hx.
Qed.

Lemma ur_loop_text : forall existing query its last cs next count shown cs' next' count' shown',
  ur_loop existing query its last cs next count shown = (cs', next', count', shown') ->
  Forall (fun x => (eid x < next)%nat) existing ->
  Forall (fun e => forall x, In x existing -> eid x = eid e -> value e = value x) cs ->
  Forall shows_value cs -> Forall shows_value cs'.
Proof.
  intros existing query. induction its as [|item its IH]; simpl;
    intros last cs next count shown cs' next' count' shown' H Hlt Hsame Hshow.
  - inversion H; subst. exact Hshow.
  - destruct (highlight item query) as [parts|] eqn:Hh; [|eapply IH; eauto].
    destruct (find (value_is item) existing) as [li|] eqn:Hf.
    + apply find_some in Hf as [Hin Hv].
      eapply IH; [exact H|exact Hlt| |].
      * apply Forall_upd_first; [|exact Hsame]. intros e He. exact He.
      * apply Forall_upd_first_id; [|exact Hshow]. intros e He Hid.
        rewrite Forall_forall in Hsame.
        assert (Hve : value e = value li) by (apply (Hsame e He li Hin); congruence).
        unfold shows_value, text_content. simpl. intros _. rewrite Hve.
        unfold value_is in Hv. destruct (value li) as [v|]; [|discriminate].
        apply str_eqb_eq in Hv. subst v. rewrite (highlight_text _ _ _ Hh). reflexivity.
    + eapply IH; [exact H| | |].
      * eapply Forall_impl; [|exact Hlt]. intros x Hx. simpl in Hx. lia.
      * eapply Forall_perm; [apply perm_insert_li|]. constructor.
        -- intros x Hx Heq. simpl in Heq. rewrite Forall_forall in Hlt.
           specialize (Hlt x Hx). lia.
        -- exact Hsame.
      * eapply Forall_perm; [apply perm_insert_li|]. constructor; [|exact Hshow].
        intros _. unfold text_content. simpl. rewrite (highlight_text _ _ _ Hh).
        reflexivity.
Qed.

Lemma hide_sorry_forall : forall (Q : elem -> Prop) v w,
  Forall Q (children w) -> Forall Q (children (hide_sorry v w)).
Proof.
  unfold hide_sorry. intros Q v w H.
  destruct (find (is_sorry v) (children w)); [|exact H]. simpl.
  rewrite Forall_forall in *. intros x Hx. apply H. eapply incl_remove_node. exact Hx.
Qed.

Lemma update_results_text : forall v its q w,
  wf w -> text_ok w -> text_ok (update_results v its q w).
Proof.
  intros v its q w [Hd Hlt] Ht. unfold update_results.
  destruct (ur_loop (options w) q its None (children w) (next_eid w) 0%nat [])
    as [[[cs next] count] shown] eqn:E.
  pose proof E as E1. apply ur_loop_wf in E1 as [Hd' _]; [|exact Hd|exact Hlt].
  apply ur_loop_text in E; [| | |exact Ht].
  2:{ apply Forall_forall. intros x Hx. apply filter_In in Hx as [Hx _].
      rewrite Forall_forall in Hlt. apply Hlt. exact Hx. }
  2:{ apply Forall_forall. intros e He x Hx Heq. apply filter_In in Hx as [Hx _].
      rewrite (nodup_eid_inj _ _ _ Hd Hx He Heq). reflexivity. }
  destruct (remove_unshown_wf (options w) shown cs shows_value Hd' E) as [_ Hr].
  set (w1 := set_item_count count
               (set_next_eid next (set_children (remove_unshown (options w) shown cs) w))).
  assert (Hw1 : text_ok w1) by exact Hr.
  destruct (Nat.eqb count 0).
  - unfold show_sorry, text_ok.
    assert (H0 : text_ok (match v with Plain => w1 | Cached => hide_sorry v w1 end))
      by (destruct v; [exact Hw1|apply hide_sorry_forall; exact Hw1]).
    simpl. apply Forall_app. split; [exact H0|]. constructor; [|constructor].
    intro Hc. discriminate.
  - apply hide_sorry_forall. exact Hw1.
Qed.

Lemma identify_forall : forall (Q : elem -> Prop) p cs n,
  (forall i e, Q e -> Q (set_dom_id i e)) -> Forall Q cs -> Forall Q (fst (identify p cs n)).
Proof.
  intros Q p cs n HQ H. revert n. induction H as [|e cs He Hcs IH]; intro n; simpl;
    [constructor|].
  destruct (is_option e); destruct (dom_id e);
    match goal with |- context [identify p cs ?m] =>
      specialize (IH m); destruct (identify p cs m) as [cs' n'] end;
    simpl in *; constructor; auto.
Qed.

Lemma replace_results_text : forall cfg p q w,
  wf w -> text_ok w -> text_ok (replace_results cfg p q w).
Proof.
  intros cfg p q w Hw Ht. destruct (replace_results_frame cfg p q w) as [[n Hc] _].
  unfold text_ok. rewrite Hc. apply identify_forall; [|apply update_results_text; assumption].
  intros i e He. exact He.
Qed.

Lemma text_ok_frame : forall w w', children w' = children w -> text_ok w -> text_ok w'.
Proof. unfold text_ok. intros w w' H. rewrite H. tauto. Qed.

Ltac text_frame H := eapply text_ok_frame; [|exact H]; reflexivity.

Lemma select_text : forall cfg t w, text_ok w -> text_ok (select cfg t w).
Proof.
  intros cfg t w H. unfold select.
  assert (H1 : text_ok (unselect_previous (selected_classes cfg) w)).
  { unfold unselect_previous. destruct (selected_option w); [|exact H].
    unfold text_ok. simpl. apply Forall_upd_first; [|exact H]. intros x Hx. exact Hx. }
  destruct (_ && _); [|exact H1].
  unfold text_ok. simpl. apply Forall_upd_first; [|exact H1]. intros e He. exact He.
Qed.

Lemma fetch_results_text : forall cfg q w,
  dom_ok w -> text_ok w -> text_ok (fetch_results cfg q w).
Proof.
  intros cfg q w Hd H. unfold fetch_results.
  destruct (negb (has_url cfg)); [exact H|].
  assert (H1 : text_ok (add_event EvLoadstart w)) by text_frame H.
  assert (Hs : forall w0, text_ok w0 -> text_ok (start_request q (abort_last w0))).
  { intros w0 H0. eapply text_ok_frame; [|exact H0].
    transitivity (children (abort_last w0)); [reflexivity|apply abort_last_frame]. }
  destruct (build cfg); [apply Hs; exact H1|].
  destruct (find_in_cache _ q) as [[p|]|].
  - pose proof (replace_results_text cfg p q (add_event EvLoadstart w)
                  (proj1 Hd) H1) as H2. text_frame H2.
  - text_frame H1.
  - apply Hs; exact H1.
Qed.

Lemma step_text : forall cfg ev w, dom_ok w -> text_ok w -> text_ok (step cfg ev w).
Proof.
  intros cfg ev w Hd H. destruct ev as [v|r st|r|r json]; simpl.
  - unfold on_input.
    assert (H1 : text_ok (set_input_value v w)) by text_frame H.
    destruct (_ && _).
    + apply fetch_results_text; [frame_ok Hd|exact H1].
    + constructor.
  - destruct (lookup_req r (requests w)) as [[? ? [| |?]]|]; try exact H.
    destruct (build cfg); destruct (response_ok st); text_frame H.
  - destruct (lookup_req r (requests w)) as [[? ? [| |?]]|]; text_frame H.
  - destruct (lookup_req r (requests w)) as [[? q [| |?]]|]; try exact H.
    destruct json as [data|]; [|text_frame H].
    destruct (build cfg).
    + pose proof (replace_results_text cfg data q (set_phase r (PhDone Resolved) w)
                    (proj1 Hd) H) as H2. text_frame H2.
    + pose proof (replace_results_text cfg data q
                    (set_wcache (add_to_cache (wcache (set_phase r (PhDone Resolved) w)) q data)
                       (set_abort_ctrl None (set_phase r (PhDone Resolved) w)))
                    (proj1 Hd) H) as H2. text_frame H2.
Qed.

Lemma ui_step_text : forall cfg op w, dom_ok w -> text_ok w -> text_ok (ui_step cfg op w).
Proof.
  intros cfg op w Hd H. destruct op as [| | |p q|ev]; simpl.
  - unfold arrow_down. destruct (sibling true w); [apply select_text|]; exact H.
  - unfold arrow_up. destruct (sibling false w); [apply select_text|]; exact H.
  - unfold escape. destruct (negb (results_shown w)); [exact H|constructor].
  - apply replace_results_text; [exact (proj1 Hd)|exact H].
  - apply step_text; assumption.
Qed.

(** X1: through any sequence of renders, network events and arrow or
    Escape keys, every option in the results list has a
    [data-autocomplete-value] equal to its text content: the
    highlighting splits the item but never drops or repeats a
    character. *)
Theorem options_show_their_value : forall cfg ops w,
  dom_ok w -> text_ok w -> text_ok (run_ui cfg ops w).
Proof.
  intros cfg ops. unfold run_ui. induction ops as [|op ops IH]; simpl; intros w Hd H;
    [exact H|].
  apply IH; [apply ui_step_dom_ok; exact Hd|apply ui_step_text; assumption].
Qed.

Lemma options_show_their_value_witness :
  text_ok (run_ui (demo_cfg Plain)
             [OpNet (Input (lit "jo")); OpNet (NetHeaders 0 200);
              OpNet (NetBody 0 (Some p_a_jo)); OpDown; OpRender p_a_joh (lit "JOH")]
             empty_widget).
Proof.
  apply (options_show_their_value (demo_cfg Plain)
           [OpNet (Input (lit "jo")); OpNet (NetHeaders 0 200);
            OpNet (NetBody 0 (Some p_a_jo)); OpDown; OpRender p_a_joh (lit "JOH")]
           empty_widget).
  - split; [split; constructor|vm_compute; repeat constructor].
  - constructor.
Defined.

(** ** Committing an option *)

Lemma option_enabled : forall e, is_option e = true -> aria_disabled e = false.
Proof.
  unfold is_option. intros e H. apply andb_true_iff in H as [_ H].
  apply negb_true_iff. exact H.
Qed.

Lemma str_or_nonempty : forall t y, t <> [] -> str_or (Some t) y = t.
Proof.
  intros t y H. unfold str_or. destruct (str_eqb t []) eqn:E; [|reflexivity].
  apply str_eqb_eq in E. contradiction.
Qed.

(** X2: committing an option whose text is its non-empty value [t]
    empties and closes the results list and writes [t] back.  Plain:
    with a hidden target, the hidden field gets [t] and the visible
    input the trimmed [t]; without one, the input gets [t]; the change
    event carries value [t] and textValue [trim t].  Cached: the input
    gets [t], and the change event's textValue is [t]. *)
Theorem commit_writes_value : forall cfg has_hidden s w,
  is_option s = true -> shows_value s -> text_content s <> [] ->
  let out := commit cfg has_hidden s w in
  let t := text_content s in
  children (co_widget out) = [] /\ results_shown (co_widget out) = false
  /\ match build cfg with
     | Plain =>
         input_value (co_widget out) = (if has_hidden then js_trim t else t)
         /\ co_hidden out = (if has_hidden then Some t else None)
         /\ co_change out = Some (Some t, js_trim t)
     | Cached =>
         input_value (co_widget out) = t /\ co_hidden out = None
         /\ co_change out = Some (None, t)
     end.
Proof.
  intros cfg hh s w Ho Hv Hne. cbv zeta.
  pose proof (option_enabled s Ho) as Hd. specialize (Hv Ho).
  unfold commit, commit_plain, commit_cached. rewrite Hd, Hv.
  cbv beta zeta iota. rewrite !str_or_nonempty by exact Hne.
  assert (Hc : forall w0, results_shown (close_results w0) = false
                          /\ input_value (close_results w0) = input_value w0).
  { intro w0. unfold close_results. destruct (results_shown w0) eqn:E; simpl;
      auto. }
  destruct (build cfg); [destruct hh|]; simpl;
    repeat split; try reflexivity; apply Hc.
Qed.

Lemma commit_writes_value_witness :
  let s := new_option 0 (lit "ab") [Text []; Em (lit "a"); Text (lit "b")] in
  (is_option s = true /\ shows_value s /\ text_content s <> [])
  /\ (let out := commit (demo_cfg Plain) true s nav_widget in
      let t := text_content s in
      children (co_widget out) = [] /\ results_shown (co_widget out) = false
      /\ match build (demo_cfg Plain) with
         | Plain =>
             input_value (co_widget out) = (if true then js_trim t else t)
             /\ co_hidden out = (if true then Some t else None)
             /\ co_change out = Some (Some t, js_trim t)
         | Cached =>
             input_value (co_widget out) = t /\ co_hidden out = None
             /\ co_change out = Some (None, t)
         end).
Proof.
  cbv zeta.
  assert (H1 : is_option (new_option 0 (lit "ab") [Text []; Em (lit "a"); Text (lit "b")])
               = true) by reflexivity.
  assert (H2 : shows_value (new_option 0 (lit "ab") [Text []; Em (lit "a"); Text (lit "b")]))
    by (intros _; vm_compute; reflexivity).
  assert (H3 : text_content (new_option 0 (lit "ab") [Text []; Em (lit "a"); Text (lit "b")])
               <> []) by (vm_compute; discriminate).
  split; [split; [exact H1|split; [exact H2|exact H3]]|].
  exact (commit_writes_value (demo_cfg Plain) true _ nav_widget H1 H2 H3).
Defined.

(** ** Keys after the input loses focus *)

(** X3: while the results list is shown with an option selected, Enter
    commits it (preventing the default action unless
    [submitOnEnter] is set).  Once the input loses focus (outside a
    mouse press on the list) the list is closed and loses its
    [aria-activedescendant], but its options and the selection stay: Tab
    still commits the selected option, while Enter does nothing.  A blur
    during a mouse press changes nothing. *)
Theorem blur_keeps_selection : forall cfg has_hidden has_submit w s,
  selected_option w = Some s -> results_shown w = true ->
  on_keydown cfg has_hidden has_submit (lit "Enter") w
    = (commit cfg has_hidden s w, negb has_submit)
  /\ on_input_blur true w = w
  /\ let w' := on_input_blur false w in
     results_shown w' = false /\ children w' = children w /\ active_desc w' = None
     /\ on_keydown cfg has_hidden has_submit (lit "Enter") w' = (no_commit w', false)
     /\ on_keydown cfg has_hidden has_submit (lit "Tab") w' = (commit cfg has_hidden s w', false).
Proof.
  intros cfg hh sub w s Hs Hr.
  assert (K1 : str_eqb (lit "Enter") (lit "Escape") = false) by reflexivity.
  assert (K2 : str_eqb (lit "Enter") (lit "ArrowDown") = false) by reflexivity.
  assert (K3 : str_eqb (lit "Enter") (lit "ArrowUp") = false) by reflexivity.
  assert (K4 : str_eqb (lit "Enter") (lit "Tab") = false) by reflexivity.
  assert (K5 : str_eqb (lit "Enter") (lit "Enter") = true) by reflexivity.
  assert (T1 : str_eqb (lit "Tab") (lit "Escape") = false) by reflexivity.
  assert (T2 : str_eqb (lit "Tab") (lit "ArrowDown") = false) by reflexivity.
  assert (T3 : str_eqb (lit "Tab") (lit "ArrowUp") = false) by reflexivity.
  assert (T4 : str_eqb (lit "Tab") (lit "Tab") = true) by reflexivity.
  split; [|split; [reflexivity|]].
  - unfold on_keydown. rewrite K1, K2, K3, K4, K5, Hs, Hr. reflexivity.
  - cbv zeta. unfold on_input_blur, close_results. rewrite Hr. cbn [negb].
    set (w' := add_event (EvToggle false)
                 (set_expanded (Some false) (set_active_desc None (set_results_shown false w)))).
    assert (Hs' : selected_option w' = Some s) by exact Hs.
    repeat split; try reflexivity.
    + unfold on_keydown. rewrite K1, K2, K3, K4, K5, Hs'. reflexivity.
    + unfold on_keydown. rewrite T1, T2, T3, T4, Hs'. reflexivity.
Qed.

Lemma blur_keeps_selection_witness :
  selected_option (open_results nav_selected)
    = Some (hd (sorry_elem 0 []) (options nav_selected))
  /\ results_shown (open_results nav_selected) = true
  /\ (on_keydown (demo_cfg Plain) false false (lit "Enter") (open_results nav_selected)
        = (commit (demo_cfg Plain) false (hd (sorry_elem 0 []) (options nav_selected))
                  (open_results nav_selected), negb false)
      /\ on_input_blur true (open_results nav_selected) = open_results nav_selected
      /\ let w' := on_input_blur false (open_results nav_selected) in
         results_shown w' = false /\ children w' = children (open_results nav_selected)
         /\ active_desc w' = None
         /\ on_keydown (demo_cfg Plain) false false (lit "Enter") w' = (no_commit w', false)
         /\ on_keydown (demo_cfg Plain) false false (lit "Tab") w'
            = (commit (demo_cfg Plain) false (hd (sorry_elem 0 []) (options nav_selected)) w',
               false)).
Proof.
  assert (H1 : selected_option (open_results nav_selected)
               = Some (hd (sorry_elem 0 []) (options nav_selected))) by (vm_compute; reflexivity).
  assert (H2 : results_shown (open_results nav_selected) = true) by (vm_compute; reflexivity).
  split; [exact H1|split; [exact H2|]].
  exact (blur_keeps_selection (demo_cfg Plain) false false _ _ H1 H2).
Defined.

(** ** Query parameters of the request URL *)

Lemma str_eqb_refl : forall a, str_eqb a a = true.
Proof. intro a. apply str_eqb_eq. reflexivity. Qed.

Lemma str_eqb_sym : forall a b, str_eqb a b = str_eqb b a.
Proof.
  intros a b. destruct (str_eqb a b) eqn:E, (str_eqb b a) eqn:E'; try reflexivity.
  - apply str_eqb_eq in E. subst. rewrite str_eqb_refl in E'. discriminate.
  - apply str_eqb_eq in E'. subst. rewrite str_eqb_refl in E. discriminate.
Qed.

Lemma get_all_app : forall ps ps' name,
  usp_get_all (ps ++ ps') name = usp_get_all ps name ++ usp_get_all ps' name.
Proof. intros. unfold usp_get_all. rewrite filter_app, map_app. reflexivity. Qed.

Lemma get_all_drop_same : forall ps name,
  usp_get_all (filter (fun kv => negb (str_eqb (fst kv) name)) ps) name = [].
Proof.
  intros ps name. induction ps as [|[k x] ps IH]; [reflexivity|].
  unfold usp_get_all in *. simpl. destruct (str_eqb k name) eqn:E; simpl; [exact IH|].
  rewrite E. exact IH.
Qed.

Lemma get_all_drop_other : forall ps name n,
  str_eqb n name = false ->
  usp_get_all (filter (fun kv => negb (str_eqb (fst kv) name)) ps) n = usp_get_all ps n.
Proof.
  intros ps name n Hn. induction ps as [|[k x] ps IH]; [reflexivity|].
  unfold usp_get_all in *. simpl. destruct (str_eqb k name) eqn:E; simpl.
  - apply str_eqb_eq in E. subst k. rewrite str_eqb_sym, Hn. exact IH.
  - destruct (str_eqb k n); simpl; rewrite IH; reflexivity.
Qed.

Lemma filter_drop_idem : forall ps name,
  filter (fun kv : str * str => negb (str_eqb (fst kv) name))
         (filter (fun kv : str * str => negb (str_eqb (fst kv) name)) ps)
  = filter (fun kv : str * str => negb (str_eqb (fst kv) name)) ps.
Proof.
  intros ps name. induction ps as [|kv ps IH]; [reflexivity|]. simpl.
  destruct (negb (str_eqb (fst kv) name)) eqn:E; simpl; rewrite ?E, IH; reflexivity.
Qed.

(** X4: Plain [buildURL] keeps every parameter of [urlValue] and adds
    the query as the last value of [queryParam]: when [urlValue]
    already carries [queryParam], the request carries both values. *)
Theorem build_url_plain_params : forall ps query_param query name,
  usp_get_all (build_url_plain ps query_param query) name
  = usp_get_all ps name ++ (if str_eqb query_param name then [query] else []).
Proof.
  intros ps qp q name. unfold build_url_plain, usp_append. rewrite get_all_app.
  unfold usp_get_all at 2. simpl. destruct (str_eqb qp name); reflexivity.
Qed.

(** X5: Cached [buildURL] leaves exactly one value for [queryParam],
    the query, and keeps the values of every other parameter.  Since it
    writes into the shared [this.url], a later build only replaces the
    earlier query: building for [q1] and then for [q2] gives the same
    URL as building for [q2] alone. *)
Theorem build_url_cached_params : forall ps query_param query,
  usp_get_all (build_url_cached ps query_param query) query_param = [query]
  /\ (forall name, str_eqb name query_param = false ->
        usp_get_all (build_url_cached ps query_param query) name = usp_get_all ps name)
  /\ (forall query',
        build_url_cached (build_url_cached ps query_param query') query_param query
        = build_url_cached ps query_param query).
Proof.
  intros ps qp q. unfold build_url_cached. split; [|split].
  - induction ps as [|[k x] ps IH].
    + unfold usp_get_all. simpl. rewrite str_eqb_refl. reflexivity.
    + simpl. destruct (str_eqb k qp) eqn:E.
      * unfold usp_get_all in *. simpl. rewrite E. simpl. f_equal.
        apply get_all_drop_same.
      * unfold usp_get_all in *. simpl. rewrite E. exact IH.
  - intros name Hn. induction ps as [|[k x] ps IH].
    + unfold usp_get_all. simpl. rewrite str_eqb_sym, Hn. reflexivity.
    + simpl. destruct (str_eqb k qp) eqn:E.
      * apply str_eqb_eq in E. subst k. unfold usp_get_all. simpl.
        rewrite str_eqb_sym, Hn. simpl. fold (usp_get_all ps name).
        fold (usp_get_all (filter (fun kv => negb (str_eqb (fst kv) qp)) ps) name).
        apply get_all_drop_other. exact Hn.
      * unfold usp_get_all in *. simpl. destruct (str_eqb k name); simpl; rewrite IH;
          reflexivity.
  - intros q'. induction ps as [|[k x] ps IH].
    + simpl. rewrite str_eqb_refl. reflexivity.
    + simpl. destruct (str_eqb k qp) eqn:E.
      * simpl. rewrite E, filter_drop_idem. reflexivity.
      * simpl. rewrite E, IH. reflexivity.
Qed.

(** ** [debounce] *)

Lemma deb_step : forall delay t t' fired0,
  deb_call delay t' (deb_due t' (mk_debouncer (Some (t + Z.max 0 delay)) fired0))
  = mk_debouncer (Some (t' + Z.max 0 delay))
      (if t + Z.max 0 delay <=? t' then fired0 ++ [t + Z.max 0 delay] else fired0).
Proof.
  intros. unfold deb_due, deb_call. simpl. destruct (_ <=? _); reflexivity.
Qed.

Lemma deb_fold_pending : forall delay calls t fired0,
  match timeout_due (fold_left (fun d t => deb_call delay t (deb_due t d)) calls
                       (mk_debouncer (Some (t + Z.max 0 delay)) fired0)) with
  | Some u => fired (fold_left (fun d t => deb_call delay t (deb_due t d)) calls
                       (mk_debouncer (Some (t + Z.max 0 delay)) fired0)) ++ [u]
  | None => fired (fold_left (fun d t => deb_call delay t (deb_due t d)) calls
                     (mk_debouncer (Some (t + Z.max 0 delay)) fired0))
  end
  = fired0 ++ quiet_deadlines delay (t :: calls).
Proof.
  intros delay calls. induction calls as [|t' calls IH]; intros t fired0.
  - reflexivity.
  - change (quiet_deadlines delay (t :: t' :: calls))
      with (if t + Z.max 0 delay <=? t'
            then (t + Z.max 0 delay) :: quiet_deadlines delay (t' :: calls)
            else quiet_deadlines delay (t' :: calls)).
    cbn [fold_left]. rewrite deb_step.
    destruct (t + Z.max 0 delay <=? t') eqn:E.
    + rewrite (IH t' (fired0 ++ [t + Z.max 0 delay])), <- app_assoc. reflexivity.
    + exact (IH t' fired0).
Qed.

Lemma last_cons_default : forall (l : list Z) x d d', last (x :: l) d = last (x :: l) d'.
Proof.
  induction l as [|y l IH]; intros x d d'; [reflexivity|].
  change (last (y :: l) d = last (y :: l) d'). apply IH.
Qed.

Lemma quiet_deadlines_length : forall delay calls,
  (length (quiet_deadlines delay calls) <= length calls)%nat.
Proof.
  intros delay calls. induction calls as [|t calls IH]; [simpl; lia|].
  destruct calls as [|t' calls]; [simpl; lia|].
  change (quiet_deadlines delay (t :: t' :: calls))
    with (if t + Z.max 0 delay <=? t'
          then (t + Z.max 0 delay) :: quiet_deadlines delay (t' :: calls)
          else quiet_deadlines delay (t' :: calls)).
  destruct (_ <=? _); simpl in *; lia.
Qed.




(** ** Requests: what the abort controller tracks *)

Lemma update_req_ids : forall r ph rs, map r_id (update_req r ph rs) = map r_id rs.
Proof.
  intros r ph rs. induction rs as [|x rs IH]; simpl; [reflexivity|].
  destruct (Nat.eqb (r_id x) r); simpl; rewrite ?IH; reflexivity.
Qed.

Lemma update_req_in : forall r ph rs y,
  In y (update_req r ph rs) -> In y rs \/ (y = mk_req r (r_query y) ph).
Proof.
  intros r ph rs y. induction rs as [|x rs IH]; simpl; [tauto|].
  destruct (Nat.eqb (r_id x) r) eqn:E; simpl; intros [<-|H]; auto.
  - right. apply Nat.eqb_eq in E. rewrite E. reflexivity.
  - destruct (IH H); auto.
Qed.

(** With distinct identities, the request [r] has the new phase. *)
Lemma update_req_phase : forall r ph rs y,
  NoDup (map r_id rs) -> In y (update_req r ph rs) -> r_id y = r -> r_phase y = ph.
Proof.
  intros r ph rs y. induction rs as [|x rs IH]; simpl; intros Hd Hin Hy; [destruct Hin|].
  apply NoDup_cons_iff in Hd as [Hn Hd'].
  destruct (Nat.eqb (r_id x) r) eqn:E; simpl in Hin; destruct Hin as [<-|Hin].
  - reflexivity.
  - exfalso. apply Hn. apply Nat.eqb_eq in E. rewrite E, <- Hy.
    apply in_map. exact Hin.
  - rewrite Hy, Nat.eqb_refl in E. discriminate.
  - apply IH; assumption.
Qed.

Lemma lookup_req_in : forall r rs x,
  NoDup (map r_id rs) -> In x rs -> r_id x = r -> lookup_req r rs = Some x.
Proof.
  unfold lookup_req. intros r rs x. induction rs as [|y rs IH]; simpl; intros Hd Hin Hx;
    [destruct Hin|].
  inversion Hd as [|z l Hn Hd']; subst.
  destruct Hin as [<-|Hin]; [rewrite Nat.eqb_refl; reflexivity|].
  destruct (Nat.eqb (r_id y) (r_id x)) eqn:E; [|apply IH; auto].
  exfalso. apply Hn. apply Nat.eqb_eq in E. rewrite E. apply in_map. exact Hin.
Qed.

Lemma lookup_req_update : forall r ph rs,
  lookup_req r (update_req r ph rs)
  = option_map (fun x => mk_req (r_id x) (r_query x) ph) (lookup_req r rs).
Proof.
  unfold lookup_req. intros r ph rs. induction rs as [|x rs IH]; simpl; [reflexivity|].
  destruct (Nat.eqb (r_id x) r) eqn:E; simpl; rewrite ?E; [reflexivity|exact IH].
Qed.

Lemma lookup_req_other : forall r r' ph rs,
  r <> r' -> lookup_req r (update_req r' ph rs) = lookup_req r rs.
Proof.
  unfold lookup_req. intros r r' ph rs Hne. induction rs as [|x rs IH]; simpl;
    [reflexivity|].
  destruct (Nat.eqb (r_id x) r') eqn:E; simpl.
  - apply Nat.eqb_eq in E. subst r'.
    replace (Nat.eqb (r_id x) r) with false by (symmetry; apply Nat.eqb_neq; congruence).
    reflexivity.
  - destruct (Nat.eqb (r_id x) r); [reflexivity|exact IH].
Qed.

Lemma tracked_only_current : forall v w r,
  req_inv v w -> abort_ctrl w = Some r ->
  Forall (fun y => r_id y <> r -> tracked v (r_phase y) = false) (requests w).
Proof.
  intros v w r [_ [_ Ht]] Ha. eapply Forall_impl; [|exact Ht].
  intros y Hy Hne. destruct (tracked v (r_phase y)) eqn:E; [|reflexivity].
  specialize (Hy E). congruence.
Qed.

(** Settling the tracked request [r] into an untracked phase leaves no
    tracked request. *)
Lemma settle_current : forall v w r ph rs',
  req_inv v w -> abort_ctrl w = Some r -> tracked v ph = false ->
  rs' = update_req r ph (requests w) ->
  Forall (fun y => tracked v (r_phase y) = false) rs'.
Proof.
  intros v w r ph rs' Hi Ha Hph ->.
  pose proof (tracked_only_current v w r Hi Ha) as Ho. destruct Hi as [Hd _].
  apply Forall_forall. intros y Hy.
  destruct (Nat.eq_dec (r_id y) r) as [He|Hne].
  - rewrite (update_req_phase r ph (requests w) y Hd Hy He). exact Hph.
  - destruct (update_req_in _ _ _ _ Hy) as [Hin|Heq].
    + rewrite Forall_forall in Ho. apply Ho; assumption.
    + exfalso. apply Hne. rewrite Heq. reflexivity.
Qed.

Lemma req_inv_untracked : forall v w,
  NoDup (map r_id (requests w)) -> Forall (fun x => (r_id x < next_req w)%nat) (requests w) ->
  Forall (fun y => tracked v (r_phase y) = false) (requests w) -> req_inv v w.
Proof.
  intros v w Hd Hlt Hn. split; [exact Hd|split; [exact Hlt|]].
  eapply Forall_impl; [|exact Hn]. intros y Hy Ht. congruence.
Qed.

Lemma req_inv_update_lt : forall r ph w,
  Forall (fun x => (r_id x < next_req w)%nat) (requests w) ->
  Forall (fun x => (r_id x < next_req w)%nat) (update_req r ph (requests w)).
Proof.
  intros r ph w H. apply Forall_forall. intros y Hy.
  assert (Hm : In (r_id y) (map r_id (requests w)))
    by (rewrite <- (update_req_ids r ph); apply in_map; exact Hy).
  apply in_map_iff in Hm as [x [Hx Hin]]. rewrite <- Hx.
  rewrite Forall_forall in H. apply H. exact Hin.
Qed.

(** Moving a request to a phase the controller may track, under the
    current controller. *)
Lemma req_inv_set : forall v w w' r ph,
  req_inv v w -> (tracked v ph = true -> abort_ctrl w = Some r) ->
  requests w' = update_req r ph (requests w) -> next_req w' = next_req w ->
  abort_ctrl w' = abort_ctrl w -> req_inv v w'.
Proof.
  intros v w w' r ph [Hd [Hlt Ht]] Hph Hr Hn Ha. split; [|split].
  - rewrite Hr, update_req_ids. exact Hd.
  - rewrite Hr, Hn. apply req_inv_update_lt. exact Hlt.
  - rewrite Hr, Ha. apply Forall_forall. intros y Hy.
    destruct (update_req_in _ _ _ _ Hy) as [Hin|Heq].
    + rewrite Forall_forall in Ht. apply Ht. exact Hin.
    + rewrite Heq. simpl. exact Hph.
Qed.

Lemma req_inv_settle : forall v w w' r ph,
  req_inv v w -> abort_ctrl w = Some r -> tracked v ph = false ->
  requests w' = update_req r ph (requests w) -> next_req w' = next_req w ->
  req_inv v w'.
Proof.
  intros v w w' r ph Hi Ha Hph Hr Hn. pose proof Hi as [Hd [Hlt _]].
  apply req_inv_untracked.
  - rewrite Hr, update_req_ids. exact Hd.
  - rewrite Hr, Hn. apply req_inv_update_lt. exact Hlt.
  - eapply settle_current; eauto.
Qed.

Lemma abort_last_settles : forall v w,
  req_inv v w ->
  Forall (fun y => tracked v (r_phase y) = false) (requests (abort_last w))
  /\ map r_id (requests (abort_last w)) = map r_id (requests w)
  /\ next_req (abort_last w) = next_req w.
Proof.
  intros v w Hi. pose proof Hi as [Hd [Hlt Ht]]. unfold abort_last.
  destruct (abort_ctrl w) as [r|] eqn:Ha.
  - pose proof (tracked_only_current v w r Hi Ha) as Ho.
    cbv zeta. change (requests (set_abort_ctrl None w)) with (requests w).
    destruct (lookup_req r (requests w)) as [[r0 q0 ph0]|] eqn:Hl.
    + assert (Hsettle : forall ph, tracked v ph = false ->
                Forall (fun y => tracked v (r_phase y) = false) (update_req r ph (requests w)))
        by (intros ph Hph; eapply settle_current; eauto).
      assert (Hcur : tracked v ph0 = false ->
                Forall (fun y => tracked v (r_phase y) = false) (requests w)).
      { intros Hph. apply Forall_forall. intros y Hy.
        destruct (Nat.eq_dec (r_id y) r) as [He|Hne].
        - rewrite (lookup_req_in r _ y Hd Hy He) in Hl. inversion Hl; subst. exact Hph.
        - rewrite Forall_forall in Ho. apply Ho; assumption. }
      destruct ph0 as [| |o]; simpl; (split; [|split]);
        try rewrite update_req_ids; try reflexivity.
      * apply Hsettle. reflexivity.
      * apply Hsettle. destruct v; reflexivity.
      * apply Hcur. destruct v; reflexivity.
    + simpl. split; [|split; reflexivity].
      apply Forall_forall. intros y Hy.
      destruct (Nat.eq_dec (r_id y) r) as [He|Hne].
      * rewrite (lookup_req_in r _ y Hd Hy He) in Hl. discriminate.
      * rewrite Forall_forall in Ho. apply Ho; assumption.
  - split; [|split; reflexivity].
    eapply Forall_impl; [|exact Ht]. intros y Hy.
    destruct (tracked v (r_phase y)) eqn:E; [discriminate (Hy E)|reflexivity].
Qed.

Lemma start_abort_inv : forall v q w,
  req_inv v w -> req_inv v (start_request q (abort_last w)).
Proof.
  intros v q w Hi. pose proof Hi as [Hd [Hlt _]].
  destruct (abort_last_settles v w Hi) as [Hn [Hm Hx]].
  remember (abort_last w) as w0 eqn:Hw0. clear Hw0.
  unfold start_request. split; [|split]; simpl.
  - constructor; [|rewrite Hm; exact Hd].
    rewrite Hm, Hx. intro Hin. apply in_map_iff in Hin as [y [Hy Hin]].
    rewrite Forall_forall in Hlt. specialize (Hlt y Hin). lia.
  - constructor; [simpl; lia|]. rewrite Hx. apply Forall_forall. intros y Hy.
    assert (Hmy : In (r_id y) (map r_id (requests w)))
      by (rewrite <- Hm; apply in_map; exact Hy).
    apply in_map_iff in Hmy as [x [Hxy Hin]].
    rewrite Forall_forall in Hlt. specialize (Hlt x Hin). lia.
  - constructor; [reflexivity|]. eapply Forall_impl; [|exact Hn].
    intros y Hy Ht. congruence.
Qed.

Lemma req_inv_frame : forall v w w',
  requests w' = requests w -> next_req w' = next_req w -> abort_ctrl w' = abort_ctrl w ->
  req_inv v w -> req_inv v w'.
Proof. unfold req_inv. intros v w w' Hr Hn Ha. rewrite Hr, Hn, Ha. tauto. Qed.

Lemma replace_results_reqs : forall cfg p q w,
  requests (replace_results cfg p q w) = requests w
  /\ next_req (replace_results cfg p q w) = next_req w
  /\ abort_ctrl (replace_results cfg p q w) = abort_ctrl w
  /\ wcache (replace_results cfg p q w) = wcache w.
Proof.
  intros cfg p q w. split; [apply replace_results_requests|].
  unfold replace_results. simpl truthy. cbv beta zeta iota.
  enough (H : next_req (update_results (build cfg) (get_unique_item_list p) q w) = next_req w
              /\ abort_ctrl (update_results (build cfg) (get_unique_item_list p) q w)
                 = abort_ctrl w
              /\ wcache (update_results (build cfg) (get_unique_item_list p) q w) = wcache w).
  { unfold open_results, identify_options.
    destruct (identify _ _ _) as [cs n].
    destruct (results_shown _); exact H. }
  unfold update_results.
  destruct (ur_loop _ _ _ _ _ _ _ _) as [[[cs next] count] shown].
  unfold show_sorry, hide_sorry.
  destruct (Nat.eqb count 0); destruct (build cfg);
    repeat match goal with |- context [match ?x with Some _ => _ | None => _ end] =>
                             destruct x end; repeat split.
Qed.

Lemma req_tracked_current : forall v w r x,
  req_inv v w -> lookup_req r (requests w) = Some x -> tracked v (r_phase x) = true ->
  abort_ctrl w = Some r.
Proof.
  intros v w r x [_ [_ Ht]] Hl Hx. unfold lookup_req in Hl.
  apply find_some in Hl as [Hin He]. apply Nat.eqb_eq in He.
  rewrite Forall_forall in Ht. rewrite <- He. apply Ht; assumption.
Qed.

Ltac req_frame H := eapply req_inv_frame; [reflexivity|reflexivity|reflexivity|exact H].

Lemma step_req_inv : forall cfg ev w,
  req_inv (build cfg) w -> req_inv (build cfg) (step cfg ev w).
Proof.
  intros cfg ev w H. destruct ev as [v|r st|r|r json]; simpl.
  - unfold on_input.
    assert (H1 : req_inv (build cfg) (set_input_value v w)) by req_frame H.
    destruct (_ && _).
    + unfold fetch_results. destruct (negb (has_url cfg)); [exact H1|].
      assert (H2 : req_inv (build cfg) (add_event EvLoadstart (set_input_value v w)))
        by req_frame H1.
      destruct (build cfg) eqn:Hb; [apply start_abort_inv; exact H2|].
      destruct (find_in_cache _ _) as [[p|]|].
      * destruct (replace_results_reqs cfg p (js_trim v)
                    (add_event EvLoadstart (set_input_value v w))) as [Hr [Hn [Ha _]]].
        eapply req_inv_frame; [exact Hr|exact Hn|exact Ha|exact H2].
      * req_frame H2.
      * apply start_abort_inv; exact H2.
    + unfold hide_and_remove_options, close_results.
      destruct (negb (results_shown _)); req_frame H1.
  - destruct (lookup_req r (requests w)) as [[r0 q0 [| |o]]|] eqn:Hl; try exact H.
    assert (Hc : abort_ctrl w = Some r)
      by (eapply req_tracked_current; [exact H|exact Hl|destruct (build cfg); reflexivity]).
    destruct (build cfg) eqn:Hb; destruct (response_ok st).
    + eapply (req_inv_settle Plain w _ r PhBody); try reflexivity; assumption.
    + eapply (req_inv_settle Plain w _ r (PhDone (Rejected (ErrServerStatus st))));
        try reflexivity; assumption.
    + eapply (req_inv_set Cached w _ r PhBody); try reflexivity; [exact H|intros; exact Hc].
    + eapply (req_inv_set Cached w _ r (PhDone (Rejected (ErrStatusText st))));
        try reflexivity; [exact H|discriminate].
  - destruct (lookup_req r (requests w)) as [[r0 q0 [| |o]]|]; try exact H.
    eapply (req_inv_set _ w _ r (PhDone (Rejected ErrTransport)));
      try reflexivity; [exact H|destruct (build cfg); discriminate].
  - destruct (lookup_req r (requests w)) as [[r0 q0 [| |o]]|] eqn:Hl; try exact H.
    destruct json as [data|].
    2:{ eapply (req_inv_set _ w _ r (PhDone (Rejected ErrJson)));
          try reflexivity; [exact H|destruct (build cfg); discriminate]. }
    destruct (build cfg) eqn:Hb.
    + assert (H1 : req_inv Plain (set_phase r (PhDone Resolved) w))
        by (eapply (req_inv_set Plain w _ r (PhDone Resolved)); try reflexivity;
            [exact H|discriminate]).
      destruct (replace_results_reqs cfg data q0 (set_phase r (PhDone Resolved) w))
        as [Hr [Hn [Ha _]]].
      eapply req_inv_frame; [exact Hr|exact Hn|exact Ha|exact H1].
    + assert (Hc : abort_ctrl w = Some r)
        by (eapply req_tracked_current; [exact H|exact Hl|reflexivity]).
      set (w1 := set_wcache (add_to_cache (wcache (set_phase r (PhDone Resolved) w)) q0 data)
                   (set_abort_ctrl None (set_phase r (PhDone Resolved) w))).
      assert (H1 : req_inv Cached w1)
        by (eapply (req_inv_settle Cached w w1 r (PhDone Resolved)); try reflexivity;
            assumption).
      destruct (replace_results_reqs cfg data q0 w1) as [Hr [Hn [Ha _]]].
      eapply req_inv_frame; [exact Hr|exact Hn|exact Ha|exact H1].
Qed.

Lemma run_req_inv : forall cfg evs w,
  req_inv (build cfg) w -> req_inv (build cfg) (run cfg evs w).
Proof.
  intros cfg evs. unfold run. induction evs as [|ev evs IH]; simpl; intros w H; [exact H|].
  apply IH, step_req_inv, H.
Qed.

Lemma tracked_at_most_one : forall v w,
  req_inv v w ->
  (length (tracked_reqs v w) <= 1)%nat
  /\ Forall (fun r => abort_ctrl w = Some r) (tracked_reqs v w).
Proof.
  intros v w [Hd [_ Ht]]. unfold tracked_reqs.
  assert (Hall : Forall (fun r => abort_ctrl w = Some r)
                   (map r_id (filter (fun x => tracked v (r_phase x)) (requests w)))).
  { apply Forall_forall. intros r Hr. apply in_map_iff in Hr as [x [<- Hx]].
    apply filter_In in Hx as [Hin Hx]. rewrite Forall_forall in Ht. apply Ht; assumption. }
  split; [|exact Hall].
  assert (Hnd : NoDup (map r_id (filter (fun x => tracked v (r_phase x)) (requests w)))).
  { clear Hall Ht. induction (requests w) as [|x rs IH]; simpl; [constructor|].
    apply NoDup_cons_iff in Hd as [Hn Hd'].
    destruct (tracked v (r_phase x)); simpl; [|apply IH; exact Hd'].
    constructor; [|apply IH; exact Hd'].
    intro Hin. apply Hn. apply in_map_iff in Hin as [y [Hy Hin]].
    apply filter_In in Hin as [Hin _]. rewrite <- Hy. apply in_map. exact Hin. }
  destruct (map r_id (filter _ _)) as [|a [|b l]]; simpl; [lia|lia|].
  exfalso. inversion Hall as [|? ? Ha Hrest]; subst. inversion Hrest as [|? ? Hb _]; subst.
  rewrite Ha in Hb. inversion Hb; subst. inversion Hnd as [|? ? Hn _]; subst.
  apply Hn. left. reflexivity.
Qed.

Lemma in_flight_tracked : forall w, in_flight w = tracked_reqs Cached w.
Proof.
  intros w. unfold in_flight, tracked_reqs.
  induction (requests w) as [|[? ? [| |?]] rs IH]; simpl; rewrite ?IH; reflexivity.
Qed.

(** X8: in the Cached build, starting with no requests, at most one
    network request is ever in flight (its [fetch()] or its body read
    not settled), and it is the one [abortController] aborts. *)
Theorem cached_single_in_flight : forall cfg evs w,
  build cfg = Cached -> requests w = [] ->
  (length (in_flight (run cfg evs w)) <= 1)%nat
  /\ Forall (fun r => abort_ctrl (run cfg evs w) = Some r) (in_flight (run cfg evs w)).
Proof.
  intros cfg evs w Hb Hr.
  assert (H0 : req_inv (build cfg) w) by (unfold req_inv; rewrite Hr; repeat constructor).
  pose proof (run_req_inv cfg evs w H0) as H. rewrite Hb in H.
  rewrite in_flight_tracked. apply tracked_at_most_one. exact H.
Qed.

Lemma cached_single_in_flight_witness :
  (length (in_flight (run (demo_cfg Cached) overlap_trace empty_widget)) <= 1)%nat
  /\ Forall (fun r => abort_ctrl (run (demo_cfg Cached) overlap_trace empty_widget) = Some r)
       (in_flight (run (demo_cfg Cached) overlap_trace empty_widget)).
Proof.
  exact (cached_single_in_flight (demo_cfg Cached) overlap_trace empty_widget
           eq_refl eq_refl).
Defined.

(** X9: in the Plain build, starting with no requests, at most one
    request ever awaits its response headers, and it is the one
    [abortController] aborts. *)
Theorem plain_single_awaiting_headers : forall cfg evs w,
  build cfg = Plain -> requests w = [] ->
  (length (tracked_reqs Plain (run cfg evs w)) <= 1)%nat
  /\ Forall (fun r => abort_ctrl (run cfg evs w) = Some r) (tracked_reqs Plain (run cfg evs w)).
Proof.
  intros cfg evs w Hb Hr.
  assert (H0 : req_inv (build cfg) w) by (unfold req_inv; rewrite Hr; repeat constructor).
  pose proof (run_req_inv cfg evs w H0) as H. rewrite Hb in H.
  apply tracked_at_most_one. exact H.
Qed.

Lemma plain_single_awaiting_headers_witness :
  (length (tracked_reqs Plain (run (demo_cfg Plain) overlap_trace empty_widget)) <= 1)%nat
  /\ Forall (fun r => abort_ctrl (run (demo_cfg Plain) overlap_trace empty_widget) = Some r)
       (tracked_reqs Plain (run (demo_cfg Plain) overlap_trace empty_widget)).
Proof.
  exact (plain_single_awaiting_headers (demo_cfg Plain) overlap_trace empty_widget
           eq_refl eq_refl).
Defined.

(** ** New input *)

(** The condition of [onInputChange] for fetching. *)
Lemma input_fetch_cond : forall cfg v w,
  negb (str_eqb (js_trim v) []) && (min_length cfg <=? js_length (js_trim v)) = true ->
  step cfg (Input v) w = fetch_results cfg (js_trim v) (set_input_value v w).
Proof.
  intros cfg v w Hq. unfold step, on_input. cbv beta zeta. rewrite Hq. reflexivity.
Qed.

(** X10: a new query that goes to the network aborts the request the
    abort controller tracks while its [fetch()] or body read is pending:
    that request is rejected with an AbortError, so the input dispatches
    [loadstart] for the new request and then [error] and [loadend] for
    the aborted one, and the controller now tracks the new request. *)
Theorem new_query_aborts_previous : forall cfg v w r ph,
  has_url cfg = true ->
  negb (str_eqb (js_trim v) []) && (min_length cfg <=? js_length (js_trim v)) = true ->
  (build cfg = Cached -> find_in_cache (wcache w) (js_trim v) = None) ->
  abort_ctrl w = Some r -> req_phase r w = Some ph -> ph = PhFetch \/ ph = PhBody ->
  (r < next_req w)%nat ->
  req_phase r (step cfg (Input v) w) = Some (PhDone (Rejected ErrAbort))
  /\ events (step cfg (Input v) w) = events w ++ [EvLoadstart; EvError; EvLoadend]
  /\ abort_ctrl (step cfg (Input v) w) = Some (next_req w).
Proof.
  intros cfg v w r ph Hu Hq Hc Ha Hp Hph Hlt. rewrite input_fetch_cond by exact Hq.
  unfold fetch_results. rewrite Hu. cbv beta zeta iota.
  set (w0 := add_event EvLoadstart (set_input_value v w)).
  assert (Hs : start_request (js_trim v) (abort_last w0)
               = start_request (js_trim v) (reject r ErrAbort (set_abort_ctrl None w0))).
  { unfold abort_last. replace (abort_ctrl w0) with (Some r) by (symmetry; exact Ha).
    cbv zeta. unfold req_phase in Hp.
    replace (lookup_req r (requests (set_abort_ctrl None w0)))
      with (lookup_req r (requests w)) by reflexivity.
    destruct (lookup_req r (requests w)) as [[r0 q0 ph0]|]; [|discriminate].
    simpl in Hp. inversion Hp; subst. destruct Hph as [->| ->]; reflexivity. }
  assert (Hgoal : req_phase r (start_request (js_trim v) (abort_last w0))
                    = Some (PhDone (Rejected ErrAbort))
                  /\ events (start_request (js_trim v) (abort_last w0))
                     = events w ++ [EvLoadstart; EvError; EvLoadend]
                  /\ abort_ctrl (start_request (js_trim v) (abort_last w0)) = Some (next_req w)).
  { rewrite Hs. split; [|split].
    - unfold req_phase, start_request, lookup_req. cbn [requests set_abort_ctrl set_requests
        set_next_req next_req reject add_event set_events set_phase find].
      cbn [r_id].
      replace (Nat.eqb (next_req w0) r) with false
        by (symmetry; apply Nat.eqb_neq; change (next_req w0) with (next_req w); lia).
      change (requests w0) with (requests w).
      fold (lookup_req r (update_req r (PhDone (Rejected ErrAbort)) (requests w))).
      rewrite lookup_req_update. unfold req_phase in Hp.
      destruct (lookup_req r (requests w)); [|discriminate]. reflexivity.
    - unfold start_request, reject, add_event, w0. simpl. rewrite <- !app_assoc. reflexivity.
    - reflexivity. }
  destruct (build cfg); [exact Hgoal|].
  replace (find_in_cache (wcache w0) (js_trim v)) with (@None cval)
    by (symmetry; apply Hc; reflexivity).
  exact Hgoal.
Qed.

Lemma new_query_aborts_previous_witness :
  let w := step (demo_cfg Plain) (Input (lit "jo")) empty_widget in
  req_phase 0 (step (demo_cfg Plain) (Input (lit "joh")) w) = Some (PhDone (Rejected ErrAbort))
  /\ events (step (demo_cfg Plain) (Input (lit "joh")) w)
     = events w ++ [EvLoadstart; EvError; EvLoadend]
  /\ abort_ctrl (step (demo_cfg Plain) (Input (lit "joh")) w) = Some (next_req w).
Proof.
  cbv zeta.
  exact (new_query_aborts_previous (demo_cfg Plain) (lit "joh")
           (step (demo_cfg Plain) (Input (lit "jo")) empty_widget) 0 PhFetch
           eq_refl ltac:(vm_compute; reflexivity) ltac:(discriminate)
           ltac:(vm_compute; reflexivity) ltac:(vm_compute; reflexivity)
           ltac:(left; reflexivity) ltac:(vm_compute; lia)).
Defined.

(** X11: a query that is blank or shorter than [minLength] after
    trimming empties and closes the results list (a [toggle] event only
    if it was shown) and starts no request; a request still in flight
    is not aborted.  When the list was already closed,
    [aria-activedescendant] is left as it was. *)
Theorem short_query_clears : forall cfg v w,
  negb (str_eqb (js_trim v) []) && (min_length cfg <=? js_length (js_trim v)) = false ->
  let w' := step cfg (Input v) w in
  children w' = [] /\ results_shown w' = false /\ input_value w' = v
  /\ requests w' = requests w /\ next_req w' = next_req w /\ abort_ctrl w' = abort_ctrl w
  /\ events w' = events w ++ (if results_shown w then [EvToggle false] else [])
  /\ active_desc w' = (if results_shown w then None else active_desc w).
Proof.
  intros cfg v w Hq. cbv zeta. unfold step, on_input. cbv beta zeta. rewrite Hq.
  unfold hide_and_remove_options, close_results. cbn [results_shown set_input_value].
  destruct (results_shown w) eqn:E; cbn [negb].
  - repeat split; reflexivity.
  - rewrite app_nil_r. repeat split; try reflexivity. exact E.
Qed.

Lemma short_query_clears_witness :
  let w' := step (demo_cfg Plain) (Input (lit " ")) nav_selected in
  children w' = [] /\ results_shown w' = false /\ input_value w' = lit " "
  /\ requests w' = requests nav_selected /\ next_req w' = next_req nav_selected
  /\ abort_ctrl w' = abort_ctrl nav_selected
  /\ events w' = events nav_selected
                 ++ (if results_shown nav_selected then [EvToggle false] else [])
  /\ active_desc w' = (if results_shown nav_selected then None else active_desc nav_selected).
Proof.
  exact (short_query_clears (demo_cfg Plain) (lit " ") nav_selected
           ltac:(vm_compute; reflexivity)).
Defined.



(** ** Answers reused from the cache *)

Lemma own_lookup_assign : forall own k p, own_lookup (assign_own own k p) k = Some p.
Proof.
  intros own k p. induction own as [|[k' p'] own IH]; simpl.
  - rewrite str_eqb_refl. reflexivity.
  - destruct (str_eqb k k') eqn:E; simpl; rewrite E; [reflexivity|exact IH].
Qed.

Lemma hide_sorry_dom : forall v w w',
  children w = children w' -> next_eid w = next_eid w' -> uniq_option_id w = uniq_option_id w' ->
  children (hide_sorry v w) = children (hide_sorry v w')
  /\ next_eid (hide_sorry v w) = next_eid (hide_sorry v w')
  /\ uniq_option_id (hide_sorry v w) = uniq_option_id (hide_sorry v w').
Proof.
  intros v w w' Hc Hn Hu. unfold hide_sorry. rewrite Hc.
  destruct (find (is_sorry v) (children w')); cbn [children next_eid uniq_option_id set_children];
    rewrite ?Hc; auto.
Qed.

Lemma show_sorry_dom : forall v q w w',
  children w = children w' -> next_eid w = next_eid w' -> uniq_option_id w = uniq_option_id w' ->
  children (show_sorry v q w) = children (show_sorry v q w')
  /\ uniq_option_id (show_sorry v q w) = uniq_option_id (show_sorry v q w').
Proof.
  intros v q w w' Hc Hn Hu. unfold show_sorry. destruct v.
  - cbn [children next_eid uniq_option_id set_next_eid set_children]. rewrite Hc, Hn, Hu. auto.
  - destruct (hide_sorry_dom Cached w w' Hc Hn Hu) as [Hc' [Hn' Hu']].
    cbn [children next_eid uniq_option_id set_next_eid set_children]. rewrite Hc', Hn', Hu'. auto.
Qed.

Lemma update_results_dom : forall v its q w w',
  children w = children w' -> next_eid w = next_eid w' -> uniq_option_id w = uniq_option_id w' ->
  children (update_results v its q w) = children (update_results v its q w')
  /\ uniq_option_id (update_results v its q w) = uniq_option_id (update_results v its q w').
Proof.
  intros v its q w w' Hc Hn Hu. unfold update_results, options. rewrite Hc, Hn.
  destruct (ur_loop _ _ _ _ _ _ _ _) as [[[cs nx] cnt] sh].
  destruct (Nat.eqb cnt 0).
  - apply show_sorry_dom; [reflexivity|reflexivity|exact Hu].
  - destruct (hide_sorry_dom v
      (set_item_count cnt (set_next_eid nx (set_children (remove_unshown (filter is_option (children w')) sh cs) w)))
      (set_item_count cnt (set_next_eid nx (set_children (remove_unshown (filter is_option (children w')) sh cs) w')))
      eq_refl eq_refl Hu) as [H1 [_ H2]].
    split; assumption.
Qed.

Lemma children_add_event : forall e w, children (add_event e w) = children w.
Proof. reflexivity. Qed.

Lemma replace_results_children_input : forall cfg p q e v w,
  children (replace_results cfg p q (add_event e (set_input_value v w)))
  = children (replace_results cfg p q w).
Proof.
  intros. unfold replace_results. simpl truthy. cbv iota.
  rewrite !(proj1 (open_frame _)).
  destruct (update_results_dom (build cfg) (get_unique_item_list p) q
              (add_event e (set_input_value v w)) w eq_refl eq_refl eq_refl) as [Hc Hu].
  unfold identify_options. rewrite Hc, Hu.
  destruct (identify _ _ _). reflexivity.
Qed.

Lemma find_added : forall c q q' p,
  js_to_lower q' = js_to_lower q -> js_to_lower q <> lit "__proto__" ->
  find_in_cache (add_to_cache c q p) q' = Some (CEntry p).
Proof.
  intros c q q' p Hl Hp. unfold add_to_cache.
  destruct (str_eqb (js_to_lower q) (lit "__proto__")) eqn:E.
  - apply str_eqb_eq in E. contradiction.
  - unfold find_in_cache, cache_get. simpl. rewrite Hl, own_lookup_assign. reflexivity.
Qed.

(** X13: in the Cached build, once the body of a request for [q] is
    read, a later query equal to [q] up to case (and not ["__proto__"])
    is answered from the cache with that body, even a partial one: no
    request is made or aborted, the results are rendered from it, and
    the input dispatches [loadstart], [load], [loadend]. *)
Theorem cached_response_reused : forall cfg w r r' q p v,
  build cfg = Cached -> has_url cfg = true ->
  lookup_req r (requests w) = Some (mk_req r' q PhBody) ->
  negb (str_eqb (js_trim v) []) && (min_length cfg <=? js_length (js_trim v)) = true ->
  js_to_lower (js_trim v) = js_to_lower q -> js_to_lower q <> lit "__proto__" ->
  let w1 := step cfg (NetBody r (Some p)) w in
  let w2 := step cfg (Input v) w1 in
  requests w2 = requests w1 /\ next_req w2 = next_req w1 /\ abort_ctrl w2 = abort_ctrl w1
  /\ events w2 = events w1 ++ [EvLoadstart; EvLoad; EvLoadend]
  /\ results_shown w2 = true
  /\ children w2 = children (replace_results cfg p (js_trim v) w1).
Proof.
  intros cfg w r r' q p v Hb Hu Hl Hq Hlow Hp. cbv zeta.
  set (w1 := step cfg (NetBody r (Some p)) w).
  assert (Hc : wcache w1 = add_to_cache (wcache w) q p /\ results_shown w1 = true).
  { unfold w1, step. rewrite Hl, Hb. cbv beta zeta iota.
    set (w3 := set_wcache _ _).
    destruct (replace_results_reqs cfg p q w3) as [_ [_ [_ Hw]]].
    destruct (replace_results_frame cfg p q w3) as [_ [_ [Hs _]]].
    split; [exact Hw|exact Hs]. }
  destruct Hc as [Hc Hs1].
  rewrite input_fetch_cond by exact Hq. unfold fetch_results. rewrite Hu, Hb.
  cbv beta zeta iota.
  set (w0 := add_event EvLoadstart (set_input_value v w1)).
  replace (find_in_cache (wcache w0) (js_trim v)) with (Some (CEntry p))
    by (symmetry; change (wcache w0) with (wcache w1); rewrite Hc;
        apply find_added; assumption).
  destruct (replace_results_reqs cfg p (js_trim v) w0) as [Hr [Hn [Ha _]]].
  destruct (replace_results_frame cfg p (js_trim v) w0) as [_ [_ [Hs He]]].
  split; [exact Hr|split; [exact Hn|split; [exact Ha|split; [|split]]]].
  - transitivity (events (replace_results cfg p (js_trim v) w0) ++ [EvLoad; EvLoadend]).
    { unfold add_event at 1 2. cbn [events set_events]. rewrite <- app_assoc. reflexivity. }
    rewrite He. change (results_shown w0) with (results_shown w1). rewrite Hs1.
    change (events w0) with (events w1 ++ [EvLoadstart]).
    rewrite <- !app_assoc. reflexivity.
  - exact Hs.
  - cbn [negb]. unfold w0. clearbody w1. rewrite !children_add_event.
    exact (replace_results_children_input cfg p (js_trim v) EvLoadstart v w1).
Qed.

Lemma cached_response_reused_witness :
  let w := step (demo_cfg Cached) (NetHeaders 0 200)
             (step (demo_cfg Cached) (Input (lit "jo")) empty_widget) in
  let w1 := step (demo_cfg Cached) (NetBody 0 (Some p_a_jo)) w in
  let w2 := step (demo_cfg Cached) (Input (lit " JO ")) w1 in
  requests w2 = requests w1 /\ next_req w2 = next_req w1 /\ abort_ctrl w2 = abort_ctrl w1
  /\ events w2 = events w1 ++ [EvLoadstart; EvLoad; EvLoadend]
  /\ results_shown w2 = true
  /\ children w2 = children (replace_results (demo_cfg Cached) p_a_jo (js_trim (lit " JO ")) w1).
Proof.
  cbv zeta.
  exact (cached_response_reused (demo_cfg Cached)
           (step (demo_cfg Cached) (NetHeaders 0 200)
              (step (demo_cfg Cached) (Input (lit "jo")) empty_widget))
           0 0 (lit "jo") p_a_jo (lit " JO ")
           eq_refl eq_refl ltac:(vm_compute; reflexivity) ltac:(vm_compute; reflexivity)
           ltac:(vm_compute; reflexivity) ltac:(vm_compute; discriminate)).
Defined.

Lemma sibling_next : forall w i x y s,
  NoDup (map eid (children w)) ->
  nth_error (options w) i = Some x -> nth_error (options w) (S i) = Some y ->
  selected_option w = Some s -> eid s = eid x -> sibling true w = Some y.
Proof.
  intros w i x y s Hd Hx Hy Hs He. unfold sibling. cbv zeta. rewrite Hs.
  assert (Hdo : NoDup (map eid (options w))) by (apply nodup_map_filter; exact Hd).
  rewrite (index_of_elem_nth _ i x s Hdo Hx He).
  unfold js_at. replace (Z.of_nat i + 1 <? 0) with false by (symmetry; apply Z.ltb_ge; lia).
  replace (Z.to_nat (Z.of_nat i + 1)) with (S i) by lia. rewrite Hy. reflexivity.
Qed.

Lemma sibling_prev : forall w i x y s,
  NoDup (map eid (children w)) ->
  nth_error (options w) i = Some x -> nth_error (options w) (S i) = Some y ->
  selected_option w = Some s -> eid s = eid y -> sibling false w = Some x.
Proof.
  intros w i x y s Hd Hx Hy Hs He. unfold sibling. cbv zeta. rewrite Hs.
  assert (Hdo : NoDup (map eid (options w))) by (apply nodup_map_filter; exact Hd).
  rewrite (index_of_elem_nth _ (S i) y s Hdo Hy He).
  unfold js_at. replace (Z.of_nat (S i) - 1 <? 0) with false by (symmetry; apply Z.ltb_ge; lia).
  replace (Z.to_nat (Z.of_nat (S i) - 1)) with i by lia. rewrite Hx. reflexivity.
Qed.

Lemma sibling_first_up : forall w o os s,
  NoDup (map eid (children w)) -> options w = o :: os ->
  selected_option w = Some s -> eid s = eid o -> sibling false w = Some (last (o :: os) o).
Proof.
  intros w o os s Hd Ho Hs He. unfold sibling. cbv zeta. rewrite Hs.
  assert (Hdo : NoDup (map eid (options w))) by (apply nodup_map_filter; exact Hd).
  rewrite (index_of_elem_nth _ 0 o s Hdo ltac:(rewrite Ho; reflexivity) He).
  rewrite Ho. unfold js_at.
  replace (Z.of_nat (length (o :: os)) - 1 <? 0) with false
    by (symmetry; apply Z.ltb_ge; simpl length; lia).
  replace (Z.to_nat (Z.of_nat (length (o :: os)) - 1)) with (length os)
    by (simpl length; lia).
  simpl (Z.of_nat 0 - 1 <? 0). cbv iota.
  rewrite (nth_error_last_cons _ os o o). reflexivity.
Qed.

Lemma option_in_children : forall w t, In t (options w) -> In t (children w).
Proof. intros w t H. apply filter_In in H as [H _]. exact H. Qed.

(** X14: on a well-formed list with at most one selected element, a
    positive item count and no option carrying class [disabled]: ArrowDown
    moves the selection from an option to the next one, ArrowUp from an
    option to the previous one, and ArrowUp from the first option wraps
    to the last one. *)
Theorem arrow_keys_step : forall cfg w,
  wf w -> (count_p aria_selected (children w) <= 1)%nat -> (0 < item_count w)%nat ->
  Forall (fun e => has_class (lit "disabled") e = false) (options w) ->
  (forall i x y, nth_error (options w) i = Some x -> nth_error (options w) (S i) = Some y ->
     (option_map eid (selected_option w) = Some (eid x) ->
        option_map eid (selected_option (arrow_down cfg w)) = Some (eid y))
     /\ (option_map eid (selected_option w) = Some (eid y) ->
        option_map eid (selected_option (arrow_up cfg w)) = Some (eid x)))
  /\ (forall o os, options w = o :: os ->
       option_map eid (selected_option w) = Some (eid o) ->
       option_map eid (selected_option (arrow_up cfg w)) = Some (eid (last (o :: os) o))).
Proof.
  intros cfg w Hw Hc Hi Hdis. rewrite Forall_forall in Hdis.
  split.
  - intros i x y Hx Hy. split; intro Hs;
      destruct (selected_option w) as [s|] eqn:Es; try discriminate;
      injection Hs as Hs.
    + unfold arrow_down. rewrite (sibling_next w i x y s (proj1 Hw) Hx Hy Es Hs).
      apply select_marks; try assumption.
      * apply option_in_children. eapply nth_error_In. exact Hy.
      * apply Hdis. eapply nth_error_In. exact Hy.
    + unfold arrow_up. rewrite (sibling_prev w i x y s (proj1 Hw) Hx Hy Es Hs).
      apply select_marks; try assumption.
      * apply option_in_children. eapply nth_error_In. exact Hx.
      * apply Hdis. eapply nth_error_In. exact Hx.
  - intros o os Ho Hs. destruct (selected_option w) as [s|] eqn:Es; try discriminate.
    injection Hs as Hs.
    unfold arrow_up. rewrite (sibling_first_up w o os s (proj1 Hw) Ho Es Hs).
    assert (Hl : In (last (o :: os) o) (options w)) by (rewrite Ho; apply in_last_cons).
    apply select_marks; try assumption.
    + apply option_in_children. exact Hl.
    + apply Hdis. exact Hl.
Qed.

Lemma arrow_keys_step_witness :
  option_map eid (selected_option (arrow_up (demo_cfg Plain) nav_selected))
  = Some (eid (last (options nav_selected) (hd (sorry_elem 0 []) (options nav_selected)))).
Proof.
  apply (proj2 (arrow_keys_step (demo_cfg Plain) nav_selected
                  ltac:(split; vm_compute; repeat constructor; simpl; intuition discriminate)
                  ltac:(vm_compute; repeat constructor)
                  ltac:(vm_compute; repeat constructor)
                  ltac:(vm_compute; repeat constructor))
                (hd (sorry_elem 0 []) (options nav_selected)) (tl (options nav_selected))
                ltac:(vm_compute; reflexivity)).
  vm_compute. reflexivity.
Defined.

(** X15: with no option in the list, ArrowDown and ArrowUp leave the
    widget unchanged. *)
Theorem arrow_keys_no_options : forall cfg w,
  options w = [] -> arrow_down cfg w = w /\ arrow_up cfg w = w.
Proof.
  intros cfg w Ho.
  assert (Hj : forall i, js_at (options w) i = None).
  { intro i. rewrite Ho. unfold js_at. destruct (i <? 0); [reflexivity|apply nth_error_nil]. }
  unfold arrow_down, arrow_up, sibling. cbv zeta. rewrite !Hj. split; reflexivity.
Qed.

Lemma arrow_keys_no_options_witness :
  options zero_render = [] /\ arrow_down (demo_cfg Cached) zero_render = zero_render
  /\ arrow_up (demo_cfg Cached) zero_render = zero_render.
Proof.
  split; [vm_compute; reflexivity|].
  apply (arrow_keys_no_options (demo_cfg Cached) zero_render). vm_compute. reflexivity.
Defined.

(** ** Distinct DOM ids *)

Lemma uint_digits_inj : forall a b, uint_digits a = uint_digits b -> a = b.
Proof.
  induction a; destruct b; simpl; intro H; try discriminate; try reflexivity;
    injection H as H; f_equal; apply IHa; exact H.
Qed.

Lemma nat_to_str_inj : forall m n, nat_to_str m = nat_to_str n -> m = n.
Proof.
  unfold nat_to_str. intros m n H. apply uint_digits_inj in H.
  rewrite <- (DecimalNat.Unsigned.of_to m), <- (DecimalNat.Unsigned.of_to n), H.
  reflexivity.
Qed.

Lemma prefix_id_inj : forall p m n,
  p ++ lit "-option-" ++ nat_to_str m = p ++ lit "-option-" ++ nat_to_str n -> m = n.
Proof.
  intros p m n H. apply app_inv_head in H. apply app_inv_head in H.
  apply nat_to_str_inj. exact H.
Qed.

Lemma ids_of_cons : forall e cs,
  ids_of (e :: cs) = (match dom_id e with Some d => [d] | None => [] end) ++ ids_of cs.
Proof. reflexivity. Qed.

Lemma ids_of_app : forall a b, ids_of (a ++ b) = ids_of a ++ ids_of b.
Proof. intros a b. unfold ids_of. apply flat_map_app. Qed.

Lemma ids_of_upd_first : forall id f cs,
  (forall e, dom_id (f e) = dom_id e) -> ids_of (upd_first id f cs) = ids_of cs.
Proof.
  intros id f cs Hf. induction cs as [|e cs IH]; [reflexivity|].
  cbn [upd_first]. destruct (Nat.eqb (eid e) id); rewrite !ids_of_cons.
  - rewrite Hf. reflexivity.
  - rewrite IH. reflexivity.
Qed.

Lemma ids_of_perm : forall l l', Permutation l l' -> Permutation (ids_of l) (ids_of l').
Proof.
  intros l l' H. induction H as [|x l l' H IH|x y l|l l' l'' H1 IH1 H2 IH2].
  - constructor.
  - rewrite !ids_of_cons. apply Permutation_app_head. exact IH.
  - rewrite !ids_of_cons, !app_assoc. apply Permutation_app_tail, Permutation_app_comm.
  - etransitivity; eassumption.
Qed.

Lemma shrink_refl : forall l, ids_shrink l l.
Proof. intro l. split; [apply incl_refl|tauto]. Qed.

Lemma shrink_trans : forall l1 l2 l3, ids_shrink l1 l2 -> ids_shrink l2 l3 -> ids_shrink l1 l3.
Proof.
  intros l1 l2 l3 [H1 H1'] [H2 H2']. split; [eapply incl_tran; eassumption|tauto].
Qed.

Lemma shrink_perm : forall l l', Permutation l l' -> ids_shrink l l'.
Proof.
  intros l l' H. split.
  - intros x Hx. eapply Permutation_in; [exact H|exact Hx].
  - intro Hd. eapply Permutation_NoDup; [apply Permutation_sym; exact H|exact Hd].
Qed.

Lemma nodup_app_disj : forall (a l : list str) x, NoDup (a ++ l) -> In x a -> In x l -> False.
Proof.
  intros a l x. induction a as [|y a IH]; simpl; intros Hd Ha Hl; [exact Ha|].
  apply NoDup_cons_iff in Hd as [Hn Hd]. destruct Ha as [<-|Ha].
  - apply Hn. apply in_or_app. right. exact Hl.
  - exact (IH Hd Ha Hl).
Qed.

Lemma nodup_app_frame : forall (a l l' : list str),
  NoDup (a ++ l) -> NoDup l' -> (forall x, In x l' -> In x a -> False) -> NoDup (a ++ l').
Proof.
  intros a l l' Hd Hl' H. apply NoDup_app.
  - eapply NoDup_app_remove_r. exact Hd.
  - exact Hl'.
  - intros x Ha Hx. exact (H x Hx Ha).
Qed.

Lemma remove_node_ids : forall id cs, ids_shrink (ids_of (remove_node id cs)) (ids_of cs).
Proof.
  intros id cs. induction cs as [|e cs IH]; [apply shrink_refl|].
  cbn [remove_node]. destruct (Nat.eqb (eid e) id); rewrite ?ids_of_cons.
  - split; [apply incl_appr, incl_refl|apply NoDup_app_remove_l].
  - destruct IH as [Hi Hn]. split.
    + apply incl_app; [apply incl_appl, incl_refl|apply incl_appr, Hi].
    + intro Hd. apply (nodup_app_frame _ (ids_of cs)); [exact Hd| |].
      * apply Hn. eapply NoDup_app_remove_l. exact Hd.
      * intros x Hx Ha. apply (nodup_app_disj _ _ x Hd Ha). apply Hi. exact Hx.
Qed.

Lemma remove_unshown_ids : forall ex sh cs,
  ids_shrink (ids_of (remove_unshown ex sh cs)) (ids_of cs).
Proof.
  unfold remove_unshown. intros ex sh. induction ex as [|li ex IH]; simpl; intro cs;
    [apply shrink_refl|].
  destruct (value_shown sh li); [apply IH|].
  eapply shrink_trans; [apply IH|apply remove_node_ids].
Qed.

Lemma ur_loop_ids : forall existing query its last cs next count shown cs' next' count' shown',
  ur_loop existing query its last cs next count shown = (cs', next', count', shown') ->
  Permutation (ids_of cs') (ids_of cs).
Proof.
  intros existing query. induction its as [|item its IH]; simpl;
    intros last cs next count shown cs' next' count' shown' H.
  - inversion H; subst. reflexivity.
  - destruct (highlight item query) as [parts|]; [|eapply IH; exact H].
    destruct (find (value_is item) existing) as [li|].
    + etransitivity; [eapply IH; exact H|].
      rewrite ids_of_upd_first by reflexivity. reflexivity.
    + etransitivity; [eapply IH; exact H|].
      etransitivity; [apply ids_of_perm, perm_insert_li|]. reflexivity.
Qed.

Lemma hide_sorry_ids : forall v w,
  ids_shrink (ids_of (children (hide_sorry v w))) (ids_of (children w))
  /\ uniq_option_id (hide_sorry v w) = uniq_option_id w.
Proof.
  intros v w. unfold hide_sorry. destruct (find (is_sorry v) (children w)).
  - split; [apply remove_node_ids|reflexivity].
  - split; [apply shrink_refl|reflexivity].
Qed.

Lemma show_sorry_ids : forall v q w,
  ids_shrink (ids_of (children (show_sorry v q w))) (ids_of (children w))
  /\ uniq_option_id (show_sorry v q w) = uniq_option_id w.
Proof.
  intros v q w.
  assert (H0 : ids_shrink (ids_of (children (match v with Plain => w | Cached => hide_sorry v w end)))
                          (ids_of (children w))
               /\ uniq_option_id (match v with Plain => w | Cached => hide_sorry v w end)
                  = uniq_option_id w)
    by (destruct v; [split; [apply shrink_refl|reflexivity]|apply hide_sorry_ids]).
  unfold show_sorry. cbv zeta.
  generalize dependent (match v with Plain => w | Cached => hide_sorry v w end).
  intros w0 [Hs Hu]. cbn [children uniq_option_id set_next_eid set_children].
  split; [|exact Hu].
  rewrite ids_of_app. cbn [ids_of flat_map sorry_elem dom_id app]. rewrite app_nil_r. exact Hs.
Qed.

Lemma update_results_ids : forall v its q w,
  ids_shrink (ids_of (children (update_results v its q w))) (ids_of (children w))
  /\ uniq_option_id (update_results v its q w) = uniq_option_id w.
Proof.
  intros v its q w. unfold update_results.
  destruct (ur_loop (options w) q its None (children w) (next_eid w) 0%nat [])
    as [[[cs next] count] shown] eqn:E.
  apply ur_loop_ids in E.
  assert (Hgen : forall w1,
    ids_shrink (ids_of (children w1)) (ids_of (children w)) ->
    uniq_option_id w1 = uniq_option_id w ->
    ids_shrink (ids_of (children (if Nat.eqb count 0 then show_sorry v q w1
                                  else hide_sorry v w1))) (ids_of (children w))
    /\ uniq_option_id (if Nat.eqb count 0 then show_sorry v q w1 else hide_sorry v w1)
       = uniq_option_id w).
  { intros w1 Hs Hu. destruct (Nat.eqb count 0).
    - destruct (show_sorry_ids v q w1) as [Hs' Hu'].
      split; [eapply shrink_trans; eassumption|congruence].
    - destruct (hide_sorry_ids v w1) as [Hs' Hu'].
      split; [eapply shrink_trans; eassumption|congruence]. }
  apply Hgen; [|reflexivity].
  eapply shrink_trans; [apply remove_unshown_ids|]. apply shrink_perm. exact E.
Qed.

Lemma identify_ids : forall p cs n,
  (n <= snd (identify p cs n))%nat
  /\ (forall d, In d (ids_of (fst (identify p cs n))) ->
        In d (ids_of cs)
        \/ exists m, (n <= m < snd (identify p cs n))%nat
                     /\ d = p ++ lit "-option-" ++ nat_to_str m)
  /\ (NoDup (ids_of cs) ->
      (forall m, (n <= m)%nat -> ~ In (p ++ lit "-option-" ++ nat_to_str m) (ids_of cs)) ->
      NoDup (ids_of (fst (identify p cs n)))).
Proof.
  intros p cs. induction cs as [|e cs IH]; intro n.
  - cbn. split; [lia|split]; [intros d []|intros; constructor].
  - cbn [identify]. rewrite ids_of_cons.
    remember (match dom_id e with Some d => [d] | None => [] end) as a eqn:Ea.
    destruct (is_option e) eqn:Eo; destruct (dom_id e) as [d0|] eqn:Ed.
    2:{ specialize (IH (S n)). destruct (identify p cs (S n)) as [cs'' n'].
        cbn [fst snd] in *. destruct IH as [Hle [Hin Hnd]]. subst a.
        rewrite ids_of_cons. cbn [dom_id set_dom_id app].
        split; [lia|split].
        - intros d [<-|Hd].
          + right. exists n. split; [lia|reflexivity].
          + destruct (Hin d Hd) as [H|[m [Hm ->]]]; [left; exact H|].
            right. exists m. split; [lia|reflexivity].
        - intros Hd0 Hfresh. constructor.
          + intro Hi. destruct (Hin _ Hi) as [H|[m [Hm Heq]]].
            * exact (Hfresh n (Nat.le_refl n) H).
            * apply prefix_id_inj in Heq. lia.
          + apply Hnd; [exact Hd0|]. intros m Hm. apply Hfresh. lia. }
    all: specialize (IH n); destruct (identify p cs n) as [cs'' n'];
      cbn [fst snd] in *; destruct IH as [Hle [Hin Hnd]];
      rewrite ids_of_cons; rewrite Ed; try rewrite Ed in Ea; rewrite <- Ea.
    all: split; [lia|split].
    all: try (intros d Hd; apply in_app_or in Hd as [Hd|Hd];
              [left; apply in_or_app; left; exact Hd|];
              destruct (Hin d Hd) as [H|H]; [left; apply in_or_app; right; exact H|];
              right; exact H).
    all: intros Hd0 Hfresh; apply (nodup_app_frame _ (ids_of cs)); [exact Hd0| |].
    all: try (apply Hnd; [eapply NoDup_app_remove_l; exact Hd0|];
              intros m Hm Hi; apply (Hfresh m Hm); apply in_or_app; right; exact Hi).
    all: intros x Hx Ha; destruct (Hin x Hx) as [H|[m [Hm ->]]];
      [exact (nodup_app_disj _ _ x Hd0 Ha H)|].
    all: apply (Hfresh m (proj1 Hm)); apply in_or_app; left; exact Ha.
Qed.

Lemma identify_options_ids : forall cfg w, ids_ok cfg w -> ids_ok cfg (identify_options cfg w).
Proof.
  intros cfg w [Hd0 Hfrom]. unfold identify_options. cbv zeta.
  change (if str_eqb (results_id cfg) [] then lit "stimulus-autocomplete" else results_id cfg)
    with (id_prefix cfg).
  destruct (identify_ids (id_prefix cfg) (children w) (uniq_option_id w)) as [Hle [Hin Hnd]].
  destruct (identify (id_prefix cfg) (children w) (uniq_option_id w)) as [cs n'].
  cbn [fst snd] in *. unfold ids_ok.
  cbn [children uniq_option_id set_uniq_option_id set_children]. split.
  - apply Hnd; [exact Hd0|]. intros m Hm Hi.
    destruct (Hfrom _ Hi) as [k [Hk Heq]]. unfold opt_id in Heq.
    apply prefix_id_inj in Heq. lia.
  - intros d Hd. destruct (Hin d Hd) as [H|[m [Hm ->]]].
    + destruct (Hfrom d H) as [k [Hk ->]]. exists k. split; [lia|reflexivity].
    + exists m. split; [lia|reflexivity].
Qed.

Lemma ids_ok_shrink : forall cfg w w',
  ids_shrink (ids_of (children w')) (ids_of (children w)) ->
  (uniq_option_id w <= uniq_option_id w')%nat -> ids_ok cfg w -> ids_ok cfg w'.
Proof.
  intros cfg w w' [Hi Hn] Hu [Hd Hfrom]. split; [exact (Hn Hd)|].
  intros d Hx. destruct (Hfrom d (Hi d Hx)) as [k [Hk ->]]. exists k. split; [lia|reflexivity].
Qed.

Lemma ids_ok_frame : forall cfg w w',
  children w' = children w -> uniq_option_id w' = uniq_option_id w ->
  ids_ok cfg w -> ids_ok cfg w'.
Proof. unfold ids_ok. intros cfg w w' Hc Hu. rewrite Hc, Hu. tauto. Qed.

Ltac ids_frame H := eapply ids_ok_frame; [| |exact H]; reflexivity.

Lemma open_ids : forall cfg w, ids_ok cfg w -> ids_ok cfg (open_results w).
Proof.
  intros cfg w H. unfold open_results. destruct (results_shown w); [exact H|ids_frame H].
Qed.

Lemma replace_results_ids : forall cfg p q w,
  ids_ok cfg w -> ids_ok cfg (replace_results cfg p q w).
Proof.
  intros cfg p q w H. unfold replace_results. simpl truthy. cbv iota.
  apply open_ids, identify_options_ids.
  destruct (update_results_ids (build cfg) (get_unique_item_list p) q w) as [Hs Hu].
  eapply ids_ok_shrink; [exact Hs|rewrite Hu; apply Nat.le_refl|exact H].
Qed.

Lemma hide_and_remove_ids : forall cfg w, ids_ok cfg (hide_and_remove_options w).
Proof.
  intros cfg w. unfold hide_and_remove_options, ids_ok.
  cbn [children set_children]. split; [constructor|intros d []].
Qed.

Lemma select_ids : forall cfg t w, ids_ok cfg w -> ids_ok cfg (select cfg t w).
Proof.
  intros cfg t w H.
  assert (H1 : ids_ok cfg (unselect_previous (selected_classes cfg) w)).
  { unfold unselect_previous. destruct (selected_option w); [|exact H].
    apply (ids_ok_shrink cfg w); [|apply Nat.le_refl|exact H].
    cbn [children set_children]. rewrite ids_of_upd_first by reflexivity.
    apply shrink_refl. }
  unfold select. cbv zeta. destruct (_ && _); [|exact H1].
  apply (ids_ok_shrink cfg (unselect_previous (selected_classes cfg) w));
    [|apply Nat.le_refl|exact H1].
  cbn [children set_active_desc set_children]. rewrite ids_of_upd_first by reflexivity.
  apply shrink_refl.
Qed.

Lemma abort_last_uniq : forall w, uniq_option_id (abort_last w) = uniq_option_id w.
Proof.
  intros w. unfold abort_last. destruct (abort_ctrl w) as [r|]; [|reflexivity].
  destruct (lookup_req r _) as [[? ? [| |?]]|]; reflexivity.
Qed.

Lemma fetch_results_ids : forall cfg q w, ids_ok cfg w -> ids_ok cfg (fetch_results cfg q w).
Proof.
  intros cfg q w H. unfold fetch_results.
  destruct (negb (has_url cfg)); [exact H|].
  assert (H1 : ids_ok cfg (add_event EvLoadstart w)) by ids_frame H.
  assert (Hs : forall w0, ids_ok cfg w0 -> ids_ok cfg (start_request q (abort_last w0))).
  { intros w0 H0. eapply ids_ok_frame; [| |exact H0].
    - transitivity (children (abort_last w0)); [reflexivity|apply abort_last_frame].
    - transitivity (uniq_option_id (abort_last w0)); [reflexivity|apply abort_last_uniq]. }
  destruct (build cfg); [apply Hs; exact H1|].
  destruct (find_in_cache _ q) as [[p|]|].
  - pose proof (replace_results_ids cfg p q (add_event EvLoadstart w) H1) as H2. ids_frame H2.
  - ids_frame H1.
  - apply Hs; exact H1.
Qed.

Lemma step_ids : forall cfg ev w, ids_ok cfg w -> ids_ok cfg (step cfg ev w).
Proof.
  intros cfg ev w H. destruct ev as [v|r st|r|r json]; simpl.
  - unfold on_input.
    assert (H1 : ids_ok cfg (set_input_value v w)) by ids_frame H.
    destruct (_ && _); [apply fetch_results_ids; exact H1|apply hide_and_remove_ids].
  - destruct (lookup_req r (requests w)) as [[? ? [| |?]]|]; try exact H.
    destruct (build cfg); destruct (response_ok st); ids_frame H.
  - destruct (lookup_req r (requests w)) as [[? ? [| |?]]|]; ids_frame H.
  - destruct (lookup_req r (requests w)) as [[? q [| |?]]|]; try exact H.
    destruct json as [data|]; [|ids_frame H].
    destruct (build cfg).
    + pose proof (replace_results_ids cfg data q (set_phase r (PhDone Resolved) w)
                    ltac:(ids_frame H)) as H2. ids_frame H2.
    + pose proof (replace_results_ids cfg data q
                    (set_wcache (add_to_cache (wcache (set_phase r (PhDone Resolved) w)) q data)
                       (set_abort_ctrl None (set_phase r (PhDone Resolved) w)))
                    ltac:(ids_frame H)) as H2. ids_frame H2.
Qed.

Lemma ui_step_ids : forall cfg op w, ids_ok cfg w -> ids_ok cfg (ui_step cfg op w).
Proof.
  intros cfg op w H. destruct op as [| | |p q|ev]; simpl.
  - unfold arrow_down. destruct (sibling true w); [apply select_ids|]; exact H.
  - unfold arrow_up. destruct (sibling false w); [apply select_ids|]; exact H.
  - unfold escape. destruct (negb (results_shown w)); [exact H|apply hide_and_remove_ids].
  - apply replace_results_ids. exact H.
  - apply step_ids. exact H.
Qed.

(** X16: through any sequence of renders, network events and arrow or
    Escape keys, the [id] attributes in the results list stay pairwise
    distinct, and each one is [<prefix>-option-<n>] for a value [n] the
    option counter has already handed out. *)
Theorem option_ids_distinct : forall cfg ops w,
  ids_ok cfg w -> ids_ok cfg (run_ui cfg ops w).
Proof.
  intros cfg ops. unfold run_ui. induction ops as [|op ops IH]; simpl; intros w H;
    [exact H|].
  apply IH. apply ui_step_ids. exact H.
Qed.

Lemma option_ids_distinct_witness :
  ids_ok (demo_cfg Plain)
    (run_ui (demo_cfg Plain)
       [OpNet (Input (lit "jo")); OpNet (NetHeaders 0 200);
        OpNet (NetBody 0 (Some p_a_jo)); OpDown; OpRender p_a_joh (lit "JOH")]
       empty_widget).
Proof.
  apply (option_ids_distinct (demo_cfg Plain)
           [OpNet (Input (lit "jo")); OpNet (NetHeaders 0 200);
            OpNet (NetBody 0 (Some p_a_jo)); OpDown; OpRender p_a_joh (lit "JOH")]
           empty_widget).
  split; [constructor|intros d []].
Defined.

Lemma identify_all_ids : forall p cs n,
  Forall (fun e => is_option e = true -> dom_id e <> None) (fst (identify p cs n)).
Proof.
  intros p cs. induction cs as [|e cs IH]; intro n; cbn [identify]; [constructor|].
  destruct (is_option e) eqn:Eo; destruct (dom_id e) as [d0|] eqn:Ed.
  - specialize (IH n). destruct (identify p cs n) as [cs'' n'].
    constructor; [|exact IH]. intros _. rewrite Ed. discriminate.
  - specialize (IH (S n)). destruct (identify p cs (S n)) as [cs'' n'].
    constructor; [|exact IH]. intros _. cbn. discriminate.
  - specialize (IH n). destruct (identify p cs n) as [cs'' n'].
    constructor; [|exact IH]. intros _. rewrite Ed. discriminate.
  - specialize (IH n). destruct (identify p cs n) as [cs'' n'].
    constructor; [|exact IH]. rewrite Eo. discriminate.
Qed.

(** X17: after a render every option in the results list carries an
    [id] attribute. *)
Theorem render_ids_every_option : forall cfg p q w,
  Forall (fun e => is_option e = true -> dom_id e <> None)
         (children (replace_results cfg p q w)).
Proof.
  intros cfg p q w. destruct (replace_results_frame cfg p q w) as [[n Hc] _].
  rewrite Hc. apply identify_all_ids.
Qed.

(** ** The order of a fresh render *)

Lemma insert_after_split : forall pre x li rest,
  ~ In (eid x) (map eid pre) ->
  insert_after_node (eid x) li (pre ++ x :: rest) = pre ++ x :: li :: rest.
Proof.
  induction pre as [|a pre IH]; simpl; intros x li rest H.
  - rewrite Nat.eqb_refl. reflexivity.
  - destruct (Nat.eqb (eid a) (eid x)) eqn:E.
    + apply Nat.eqb_eq in E. exfalso. apply H. left. exact E.
    + rewrite IH; [reflexivity|]. intro Hi. apply H. right. exact Hi.
Qed.

Lemma ur_loop_fresh : forall q its last pre rest next count shown cs' next' count' shown',
  ur_loop [] q its last (pre ++ rest) next count shown = (cs', next', count', shown') ->
  NoDup (map eid (pre ++ rest)) -> Forall (fun e => (eid e < next)%nat) (pre ++ rest) ->
  (last = None /\ pre = [] \/ exists pre0 x, pre = pre0 ++ [x] /\ last = Some (eid x)) ->
  exists new, cs' = pre ++ new ++ rest
    /\ map value new = map Some (shown_items its q)
    /\ Forall (fun e => is_option e = true /\ forall v, is_sorry v e = false) new.
Proof.
  intros q. induction its as [|item its IH];
    intros last pre rest next count shown cs' next' count' shown' H Hd Hlt Hl; simpl in H.
  - inversion H; subst. exists []. split; [reflexivity|split; [reflexivity|constructor]].
  - unfold shown_items. cbn [filter]. fold (shown_items its q).
    destruct (highlight item q) as [parts|] eqn:Hh.
    + set (li := new_option next item parts) in H.
      assert (Hins : insert_li last li (pre ++ rest) = (pre ++ [li]) ++ rest).
      { destruct Hl as [[-> ->]|[pre0 [x [-> ->]]]]; [reflexivity|].
        simpl insert_li. rewrite <- !app_assoc. simpl.
        rewrite insert_after_split; [reflexivity|].
        rewrite <- app_assoc in Hd. simpl in Hd. rewrite map_app in Hd. simpl in Hd.
        apply NoDup_remove_2 in Hd. intro Hi. apply Hd. apply in_or_app. left. exact Hi. }
      rewrite Hins in H.
      assert (Hp : Permutation ((pre ++ [li]) ++ rest) (li :: pre ++ rest)).
      { rewrite <- app_assoc. simpl. apply Permutation_sym, Permutation_middle. }
      destruct (IH _ _ _ _ _ _ _ _ _ _ H) as [new [Hcs [Hv Hf]]].
      * eapply Permutation_NoDup; [apply Permutation_map, Permutation_sym, Hp|].
        constructor; [|exact Hd]. intro Hi. apply in_map_iff in Hi as [e [He Hi]].
        rewrite Forall_forall in Hlt. specialize (Hlt e Hi). simpl in He. lia.
      * eapply Forall_perm; [exact Hp|]. constructor; [simpl; lia|].
        eapply Forall_impl; [|exact Hlt]. intros e He. simpl in He. lia.
      * right. exists pre, li. split; reflexivity.
      * exists (li :: new). split; [rewrite Hcs, <- !app_assoc; reflexivity|].
        split; [simpl; rewrite Hv; reflexivity|].
        constructor; [|exact Hf]. split; [reflexivity|]. intros []; reflexivity.
    + exact (IH _ _ _ _ _ _ _ _ _ _ H Hd Hlt Hl).
Qed.

Lemma filter_remove_node_nonopt : forall id cs,
  (forall e, In e cs -> eid e = id -> is_option e = false) ->
  filter is_option (remove_node id cs) = filter is_option cs.
Proof.
  intros id cs. induction cs as [|e cs IH]; simpl; intro H; [reflexivity|].
  destruct (Nat.eqb (eid e) id) eqn:E.
  - apply Nat.eqb_eq in E. rewrite (H e (or_introl eq_refl) E). reflexivity.
  - simpl. rewrite IH; [reflexivity|]. intros x Hx Heq. apply H; [right|]; assumption.
Qed.

Lemma options_nil_forall : forall cs, filter is_option cs = [] ->
  forall e, In e cs -> is_option e = false.
Proof.
  intros cs H e He. destruct (is_option e) eqn:E; [|reflexivity].
  assert (Hf : In e (filter is_option cs)) by (apply filter_In; auto).
  rewrite H in Hf. destruct Hf.
Qed.

Lemma hide_sorry_options : forall v w,
  NoDup (map eid (children w)) ->
  (forall e, In e (children w) -> is_sorry v e = true -> is_option e = false) ->
  options (hide_sorry v w) = options w.
Proof.
  intros v w Hd H. unfold hide_sorry, options.
  destruct (find (is_sorry v) (children w)) as [li|] eqn:Ef; [|reflexivity].
  apply find_some in Ef as [Hin Hs]. cbn [children set_children].
  apply filter_remove_node_nonopt. intros e He Heq.
  rewrite (nodup_eid_inj _ _ _ Hd He Hin Heq). apply H; assumption.
Qed.

Lemma update_results_fresh : forall v its q w,
  wf w -> options w = [] ->
  map value (options (update_results v its q w)) = map Some (shown_items its q).
Proof.
  intros v its q w [Hd Hlt] Ho. unfold update_results. rewrite Ho.
  destruct (ur_loop [] q its None (children w) (next_eid w) 0%nat [])
    as [[[cs next] count] shown] eqn:E.
  pose proof E as E1. apply ur_loop_shown in E1 as [_ Hc]. simpl in Hc. subst count.
  pose proof E as E2. apply ur_loop_wf in E2 as [Hd' _]; [|exact Hd|exact Hlt].
  destruct (ur_loop_fresh q its None [] (children w) _ _ _ _ _ _ _ E Hd Hlt
              (or_introl (conj eq_refl eq_refl))) as [new [Hcs [Hv Hf]]].
  simpl in Hcs. subst cs.
  assert (Hold : forall e, In e (children w) -> is_option e = false)
    by (apply options_nil_forall; exact Ho).
  assert (Hopt : filter is_option (new ++ children w) = new).
  { rewrite filter_app. change (filter is_option (children w)) with (options w).
    rewrite Ho, app_nil_r. clear -Hf. induction new as [|e new IH]; [reflexivity|].
    inversion Hf as [|? ? [He _] Hf']; subst. cbn [filter]. rewrite He, IH by exact Hf'.
    reflexivity. }
  assert (Hns : forall v' e, In e (new ++ children w) -> is_sorry v' e = true ->
                             is_option e = false).
  { intros v' e He Hs. apply in_app_or in He as [He|He]; [|apply Hold; exact He].
    rewrite Forall_forall in Hf. destruct (Hf e He) as [_ Hn]. rewrite Hn in Hs.
    discriminate. }
  set (w1 := set_item_count (length (shown_items its q))
               (set_next_eid next (set_children (remove_unshown [] shown (new ++ children w)) w))).
  assert (Hw1 : options w1 = new) by exact Hopt.
  assert (Hd1 : NoDup (map eid (children w1))) by exact Hd'.
  assert (Hs1 : forall v' e, In e (children w1) -> is_sorry v' e = true -> is_option e = false)
    by exact Hns.
  destruct (Nat.eqb (length (shown_items its q)) 0) eqn:Hz.
  - apply Nat.eqb_eq, length_zero_iff_nil in Hz. rewrite Hz in Hv |- *.
    unfold show_sorry. cbv zeta.
    assert (H0 : options (match v with Plain => w1 | Cached => hide_sorry v w1 end) = new).
    { destruct v; [exact Hw1|]. rewrite hide_sorry_options; [exact Hw1|exact Hd1|apply Hs1]. }
    unfold options in H0 |- *. cbn [children set_next_eid set_children].
    rewrite filter_app, H0. simpl. rewrite app_nil_r. exact Hv.
  - rewrite hide_sorry_options; [|exact Hd1|apply Hs1]. rewrite Hw1. exact Hv.
Qed.

Lemma identify_option_values : forall p cs n,
  map value (filter is_option (fst (identify p cs n))) = map value (filter is_option cs).
Proof.
  intros p cs. induction cs as [|e cs IH]; intro n; cbn [identify]; [reflexivity|].
  destruct (is_option e) eqn:Eo; destruct (dom_id e) as [d0|] eqn:Ed;
    match goal with |- context [identify p cs ?m] =>
      specialize (IH m); destruct (identify p cs m) as [cs'' n'] end;
    cbn [fst] in *; cbn [filter];
    change (is_option (set_dom_id (p ++ lit "-option-" ++ nat_to_str n) e)) with (is_option e);
    rewrite ?Eo; cbn [map]; rewrite ?IH; reflexivity.
Qed.

(** X18: rendering a response into a list that holds no option lists,
    as options, exactly the items of the merged list that contain the
    query, in the order of the merged list (repeated items included). *)
Theorem fresh_render_in_order : forall cfg p q w,
  wf w -> options w = [] ->
  map value (options (replace_results cfg p q w))
  = map Some (shown_items (get_unique_item_list p) q).
Proof.
  intros cfg p q w Hw Ho.
  destruct (replace_results_frame cfg p q w) as [[n Hc] _].
  unfold options at 1. rewrite Hc, identify_option_values.
  apply update_results_fresh; assumption.
Qed.

Lemma fresh_render_in_order_witness :
  map value (options (replace_results (demo_cfg Plain) p_a_jo (lit "jo") empty_widget))
  = map Some (shown_items (get_unique_item_list p_a_jo) (lit "jo")).
Proof.
  apply fresh_render_in_order; [split; constructor|reflexivity].
Defined.

Lemma build_url_cached_params_witness :
  str_eqb (lit "page") (lit "q") = false
  /\ usp_get_all (build_url_cached [(lit "q", lit "a"); (lit "page", lit "2")] (lit "q") (lit "jo"))
       (lit "page") = [lit "2"].
Proof.
  split; [reflexivity|].
  apply (proj1 (proj2 (build_url_cached_params [(lit "q", lit "a"); (lit "page", lit "2")]
                         (lit "q") (lit "jo")))).
  reflexivity.
Defined.
